(** * The decompression core of pymobi (book_tools/pymobi/compression.py)

    A shallow embedding of the three classes of [compression.py]
    ([Uncompression], [Palmdoc], [Huffcdic]) together with the properties
    of the decoders that the design document states about them, and of
    the methods of [BookMobi] ([mobi.py]) that drive the decoders:
    [loadRecord], [unpackFunction], and the removal of trailing entries
    and the split of the text in [unpackMobi].

    Conventions of the embedding.
    - A byte string is a [list byte]; [ord] gives the integer a byte string
      yields when it is indexed.  [Palmdoc.unpack3] works on Python 3
      [bytes].  The [Huffcdic] class is written for Python 2, where [str]
      is the byte string type, [map] returns a list and [struct.error] is
      an exception class of its own; it is embedded with that meaning.
      The test of the tag in its two loaders is the place where the
      interpreter decides the outcome: [loadHuff_on] and [loadCdic_on]
      embed it for both.
    - Python integers are unbounded: they are [Z], and the bit operators
      are [Z.land], [Z.lor], [Z.lxor], [Z.shiftl], [Z.shiftr].  A shift by
      a negative count raises in Python; it is modelled where the count is
      not fixed by the code.
    - An exception is a value of [exn]; a computation that may raise
      returns an [outcome].  Loops that are not structurally recursive take
      a fuel argument and answer [OutOfFuel] when it is used up; the
      theorems show how much fuel is enough.
    - Indexing and slicing follow Python: negative indices count from the
      end, an index out of range raises [IndexError], a slice is clamped.
    - A [Huffcdic] object is a record of its four attributes, each absent
      until it is first assigned; a method returns its outcome together
      with the object as the call leaves it.
    - Of a [BookMobi] object the embedding keeps the content of the file
      and the four dictionaries the methods read.  [decodeVarint] belongs
      to the module [util]; the statements hold for every such function. *)

From Stdlib Require Import ZArith List Lia.
From Stdlib.Strings Require Import String Byte.
From stdpp Require Import base numbers option list strings gmap.

Local Open Scope Z_scope.

(** ** Python values and primitives *)

Abbreviation bytes := (list byte).

Definition ord (b : byte) : Z := Z.of_N (Byte.to_N b).

Inductive exn : Type :=
| ValueError (msg : string)
| IndexError
| TypeError
| AttributeError
| AssertionError
| StructError
| OverflowError.

Inductive outcome (A : Type) : Type :=
| Ok (a : A)
| Raise (e : exn)
| OutOfFuel.

Arguments Ok {A} a.
Arguments Raise {A} e.
Arguments OutOfFuel {A}.

#[global] Instance outcome_ret : MRet outcome := fun _ a => Ok a.

#[global] Instance outcome_bind : MBind outcome := fun _ _ k r =>
  match r with
  | Ok a => k a
  | Raise e => Raise e
  | OutOfFuel => OutOfFuel
  end.

(** [len(l)] *)
Definition py_len {A} (l : list A) : Z := Z.of_nat (length l).

(** [l[k]]: [None] stands for the [IndexError] Python raises. *)
Definition py_index {A} (l : list A) (k : Z) : option A :=
  if 0 <=? k then l !! Z.to_nat k
  else if - py_len l <=? k then l !! Z.to_nat (py_len l + k)
  else None.

(** The position a slice bound [k] denotes in a sequence of length [n]. *)
Definition clamp (n k : Z) : Z :=
  if k <? 0 then Z.max (n + k) 0 else Z.min k n.

(** [l[a:b]] *)
Definition py_slice {A} (l : list A) (a b : Z) : list A :=
  let lo := clamp (py_len l) a in
  let hi := clamp (py_len l) b in
  take (Z.to_nat (hi - lo)) (drop (Z.to_nat lo) l).

(** [a >> k]; Python refuses a negative shift count. *)
Definition py_rshift (a k : Z) : outcome Z :=
  if k <? 0 then Raise (ValueError "negative shift count")
  else Ok (Z.shiftr a k).

(** [c.to_bytes(1, "big")] *)
Definition to_bytes1 (c : Z) : outcome bytes :=
  if (0 <=? c) && (c <? 256) then
    match Byte.of_N (Z.to_N c) with
    | Some b => Ok [b]
    | None => Raise OverflowError
    end
  else Raise OverflowError.

(** [chr(c)] of Python 2: the byte string of length one *)
Definition chr (c : Z) : outcome bytes :=
  if (0 <=? c) && (c <? 256) then
    match Byte.of_N (Z.to_N c) with
    | Some b => Ok [b]
    | None => Raise (ValueError "chr() arg not in range(256)")
    end
  else Raise (ValueError "chr() arg not in range(256)").

(** ** class Uncompression *)

Module Uncompression.

Definition pack (data : bytes) : outcome bytes := Ok data.

Definition unpack (data : bytes) : outcome bytes := Ok data.

End Uncompression.

(** ** class Palmdoc *)

Module Palmdoc.

Definition pack (i : bytes) : outcome bytes :=
  Raise (ValueError "not implement").

(** [for z in range(n): o += o[-m].to_bytes(1, "big")] *)
Fixpoint fill (n : nat) (m : Z) (o : bytes) : outcome bytes :=
  match n with
  | O => Ok o
  | S n' =>
      match py_index o (- m) with
      | None => Raise IndexError
      | Some b => s ← to_bytes1 (ord b); fill n' m (o ++ s)
      end
  end.

(** The body of the [else] branch of [unpack3] once the second byte is
    read: [c] is the 16-bit value [(c << 8) | i[p]]. *)
Definition backref (c : Z) (o : bytes) : outcome bytes :=
  let m := Z.land (Z.shiftr c 3) 0x07FF in
  let n := Z.land c 7 + 3 in
  if n <? m then Ok (o ++ py_slice o (- m) (n - m))
  else fill (Z.to_nat n) m o.

(** The [while p < len(i)] loop of [unpack3]; one unit of fuel per
    iteration. *)
Fixpoint unpack3_loop (fuel : nat) (i o : bytes) (p : Z) : outcome bytes :=
  if p <? py_len i then
    match fuel with
    | O => OutOfFuel
    | S fuel' =>
        match py_index i p with
        | None => Raise IndexError
        | Some b =>
            let c := ord b in
            let p := p + 1 in
            if (1 <=? c) && (c <=? 8) then
              unpack3_loop fuel' i (o ++ py_slice i p (p + c)) (p + c)
            else if c <? 128 then
              s ← to_bytes1 c; unpack3_loop fuel' i (o ++ s) p
            else if 192 <=? c then
              s ← to_bytes1 (Z.lxor c 128);
              unpack3_loop fuel' i (o ++ [" "%byte] ++ s) p
            else if p <? py_len i then
              match py_index i p with
              | None => Raise IndexError
              | Some b2 =>
                  let c := Z.lor (Z.shiftl c 8) (ord b2) in
                  let p := p + 1 in
                  o' ← backref c o; unpack3_loop fuel' i o' p
              end
            else unpack3_loop fuel' i o p
        end
    end
  else Ok o.

Definition unpack3 (i : bytes) : outcome bytes :=
  unpack3_loop (length i) i [] 0.

(** [unpack], the Python 2 version of the decoder, on [str].
    [for z in range(n): o += o[-m]] *)
Fixpoint fill_str (n : nat) (m : Z) (o : bytes) : outcome bytes :=
  match n with
  | O => Ok o
  | S n' =>
      match py_index o (- m) with
      | None => Raise IndexError
      | Some b => fill_str n' m (o ++ [b])
      end
  end.

(** The [while p < len(i)] loop of [unpack]; one unit of fuel per
    iteration. *)
Fixpoint unpack_loop (fuel : nat) (i o : bytes) (p : Z) : outcome bytes :=
  if p <? py_len i then
    match fuel with
    | O => OutOfFuel
    | S fuel' =>
        match py_index i p with
        | None => Raise IndexError
        | Some b =>
            let c := ord b in
            let p := p + 1 in
            if (1 <=? c) && (c <=? 8) then
              unpack_loop fuel' i (o ++ py_slice i p (p + c)) (p + c)
            else if c <? 128 then
              s ← chr c; unpack_loop fuel' i (o ++ s) p
            else if 192 <=? c then
              s ← chr (Z.lxor c 128);
              unpack_loop fuel' i (o ++ [" "%byte] ++ s) p
            else if p <? py_len i then
              match py_index i p with
              | None => Raise IndexError
              | Some b2 =>
                  let c := Z.lor (Z.shiftl c 8) (ord b2) in
                  let p := p + 1 in
                  let m := Z.land (Z.shiftr c 3) 0x07FF in
                  let n := Z.land c 7 + 3 in
                  if n <? m then
                    unpack_loop fuel' i (o ++ py_slice o (- m) (n - m)) p
                  else
                    o' ← fill_str (Z.to_nat n) m o; unpack_loop fuel' i o' p
              end
            else unpack_loop fuel' i o p
        end
    end
  else Ok o.

Definition unpack (i : bytes) : outcome bytes :=
  unpack_loop (length i) i [] 0.

End Palmdoc.

(** ** class Huffcdic *)

#[global] Instance byte_eq_dec : EqDecision byte.
Proof.
  intros a b. destruct (Byte.eqb a b) eqn:E.
  - left. by apply Byte.byte_dec_bl.
  - right. by apply Byte.eqb_false.
Defined.

(** *** The [struct] module, for the big-endian unsigned formats in use *)

(** The unsigned integer a run of bytes denotes, most significant first. *)
Definition be_uint (bs : bytes) : Z :=
  fold_left (fun acc b => Z.lor (Z.shiftl acc 8) (ord b)) bs 0.

(** [count] consecutive fields of [size] bytes each. *)
Fixpoint fields (size count : nat) (bs : bytes) : list Z :=
  match count with
  | O => []
  | S k => be_uint (take size bs) :: fields size k (drop size bs)
  end.

(** [struct.unpack_from(">%d<c>" % count, buf, offset)] for a format
    character [<c>] of [size] bytes.  A negative count is not a format
    ([struct.error]); a negative offset counts from the end; the buffer
    must hold the whole format from the offset on. *)
Definition unpack_from (size : nat) (count : Z) (buf : bytes) (offset : Z)
  : outcome (list Z) :=
  if count <? 0 then Raise StructError
  else
    let offset := if offset <? 0 then offset + py_len buf else offset in
    if (offset <? 0) || (py_len buf - offset <? Z.of_nat size * count)
    then Raise StructError
    else Ok (fields size (Z.to_nat count) (drop (Z.to_nat offset) buf)).

(** [struct.unpack_from(">LL", buf, offset)] *)
Definition unpack_LL (buf : bytes) (offset : Z) : outcome (Z * Z) :=
  vs ← unpack_from 4 2 buf offset; mret (vs !!! 0%nat, vs !!! 1%nat).

(** [struct.Struct(">H").unpack_from] *)
Definition h (buf : bytes) (offset : Z) : outcome Z :=
  vs ← unpack_from 2 1 buf offset; mret (vs !!! 0%nat).

(** [map(f, l)] of Python 2: eager, left to right, stopped by the first
    exception. *)
Fixpoint py_map {A B} (f : A → outcome B) (l : list A) : outcome (list B) :=
  match l with
  | [] => Ok []
  | a :: l' => b ← f a; bs ← py_map f l'; mret (b :: bs)
  end.

(** [l[0::2]] *)
Fixpoint stride2 {A} (l : list A) : list A :=
  match l with
  | [] => []
  | a :: l' => a :: match l' with [] => [] | _ :: l'' => stride2 l'' end
  end.

(** [l[k] = v]: [None] stands for the [IndexError] Python raises. *)
Definition py_setitem {A} (l : list A) (k : Z) (v : A) : option (list A) :=
  if (0 <=? k) && (k <? py_len l) then Some (<[Z.to_nat k := v]> l)
  else if (k <? 0) && (- py_len l <=? k)
       then Some (<[Z.to_nat (py_len l + k) := v]> l)
       else None.

(** The list position index [k] denotes in a list of length [n]. *)
Definition position (n k : Z) : nat :=
  Z.to_nat (if k <? 0 then n + k else k).

Module Huffcdic.

(** An entry of [self.dict1]: [(codelen, term, maxcode)]. *)
Abbreviation entry := (Z * Z * Z)%type.

(** An element of [self.dictionary]: a pair [(slice, flag)], or the
    [None] that [unpack] stores while it resolves the slot. *)
Abbreviation slot := (option (bytes * Z)).

(** The attributes of a [Huffcdic] object; an attribute is [None] until
    it is first assigned (reading it then raises [AttributeError]). *)
Record t : Type := mk {
  dict1 : option (list entry);
  mincode : option (list Z);
  maxcode : option (list Z);
  dictionary : option (list slot)
}.

(** [Huffcdic()] *)
Definition new : t :=
  {| dict1 := None; mincode := None; maxcode := None; dictionary := None |}.

Definition set_dict1 (self : t) (d : list entry) : t :=
  {| dict1 := Some d; mincode := mincode self; maxcode := maxcode self;
     dictionary := dictionary self |}.

Definition set_dictionary (self : t) (d : list slot) : t :=
  {| dict1 := dict1 self; mincode := mincode self; maxcode := maxcode self;
     dictionary := Some d |}.

Definition huff_magic : bytes :=
  list_byte_of_string "HUFF" ++ [x00; x00; x00; x18]%byte.

Definition cdic_magic : bytes :=
  list_byte_of_string "CDIC" ++ [x00; x00; x00; x10]%byte.

(** [struct.Struct(">Q").unpack_from] *)
Definition q (buf : bytes) (offset : Z) : outcome Z :=
  vs ← unpack_from 8 1 buf offset; mret (vs !!! 0%nat).

Definition dict1_unpack (v : Z) : outcome entry :=
  let codelen := Z.land v 0x1F in
  let term := Z.land v 0x80 in
  let maxcode := Z.shiftr v 8 in
  if codelen =? 0 then Raise AssertionError
  else if (codelen <=? 8) && (term =? 0) then Raise AssertionError
  else Ok (codelen, term, Z.shiftl (maxcode + 1) (32 - codelen) - 1).

(** The raw table entries on which an [assert] of [dict1_unpack] fails:
    the code length is zero, or it is at most 8 and the terminal bit is
    not set. *)
Definition refused (v : Z) : Prop :=
  Z.land v 0x1F = 0 ∨ (Z.land v 0x1F ≤ 8 ∧ Z.land v 0x80 = 0).

(** The two [for ... in enumerate(...)] loops of [loadHuff]. *)
Definition mincode_table (dict2 : list Z) : list Z :=
  imap (fun codelen mincode => Z.shiftl mincode (32 - Z.of_nat codelen))
       (0 :: stride2 dict2).

Definition maxcode_table (dict2 : list Z) : list Z :=
  imap (fun codelen maxcode =>
          Z.shiftl (maxcode + 1) (32 - Z.of_nat codelen) - 1)
       (0 :: stride2 (drop 1 dict2)).

(** [loadHuff] returns the outcome and the object as the call leaves
    it, also when it raises. *)
Definition loadHuff (self : t) (huff : bytes) : outcome unit * t :=
  if bool_decide (py_slice huff 0 8 ≠ huff_magic)
  then (Raise (ValueError "invalid huff header"), self)
  else
    match unpack_LL huff 8 with
    | Ok (off1, off2) =>
        match vs ← unpack_from 4 256 huff off1; py_map dict1_unpack vs with
        | Ok d1 =>
            let self := set_dict1 self d1 in
            match unpack_from 4 64 huff off2 with
            | Ok dict2 =>
                (Ok (),
                 {| dict1 := Some d1;
                    mincode := Some (mincode_table dict2);
                    maxcode := Some (maxcode_table dict2);
                    dictionary := Some [] |})
            | Raise e => (Raise e, self)
            | OutOfFuel => (OutOfFuel, self)
            end
        | Raise e => (Raise e, self)
        | OutOfFuel => (OutOfFuel, self)
        end
    | Raise e => (Raise e, self)
    | OutOfFuel => (OutOfFuel, self)
    end.

Definition getslice (cdic : bytes) (off : Z) : outcome (bytes * Z) :=
  blen ← h cdic (16 + off);
  mret (py_slice cdic (18 + off) (18 + off + Z.land blen 0x7FFF),
        Z.land blen 0x8000).

Definition loadCdic (self : t) (cdic : bytes) : outcome unit * t :=
  if bool_decide (py_slice cdic 0 8 ≠ cdic_magic)
  then (Raise (ValueError "invalid cdic header"), self)
  else
    match unpack_LL cdic 8 with
    | Ok (phrases, bits) =>
        match dictionary self with
        | None => (Raise AttributeError, self)
        | Some d =>
            let n := Z.min (Z.shiftl 1 bits) (phrases - py_len d) in
            match offs ← unpack_from 2 n cdic 16;
                  py_map (getslice cdic) offs with
            | Ok new => (Ok (), set_dictionary self (d ++ map Some new))
            | Raise e => (Raise e, self)
            | OutOfFuel => (OutOfFuel, self)
            end
        end
    | Raise e => (Raise e, self)
    | OutOfFuel => (OutOfFuel, self)
    end.

(** The test [blob[0:8] != tag] of lines 71 and 95, on the interpreter
    whose major version is [py_major], for a record read from a file that
    is opened in binary mode.  The tag is a [str] literal.  On Python 2
    the record is a [str] as well and the test compares the bytes; on
    Python 3 the record is a [bytes] object, and a [bytes] object is never
    equal to a [str]. *)
Definition tag_differs (py_major : Z) (head tag : bytes) : bool :=
  if py_major <? 3 then bool_decide (head ≠ tag) else true.

(** [loadHuff] and [loadCdic] as that interpreter runs them: past the
    test of the tag, which only Python 2 gets past, they go on as
    [loadHuff] and [loadCdic] above. *)
Definition loadHuff_on (py_major : Z) (self : t) (huff : bytes)
  : outcome unit * t :=
  if tag_differs py_major (py_slice huff 0 8) huff_magic
  then (Raise (ValueError "invalid huff header"), self)
  else loadHuff self huff.

Definition loadCdic_on (py_major : Z) (self : t) (cdic : bytes)
  : outcome unit * t :=
  if tag_differs py_major (py_slice cdic 0 8) cdic_magic
  then (Raise (ValueError "invalid cdic header"), self)
  else loadCdic self cdic.

Definition pack (self : t) (i : bytes) : outcome bytes * t :=
  (Raise (ValueError "not implement"), self).

(** *** [unpack]

    [unpack] reads and updates [self.dictionary] and calls itself, so it
    lives in a monad [M] that threads the object and may raise.  [M] also
    collects a log that is not part of the program: the list positions of
    the slots on which [unpack] called itself, in call order. *)

Definition M (A : Type) : Type := t → outcome A * t * list nat.

#[global] Instance M_ret : MRet M := fun _ a self => (Ok a, self, []).

#[global] Instance M_bind : MBind M := fun _ _ k m self =>
  match m self with
  | (Ok a, self', log) =>
      let '(r, self'', log') := k a self' in (r, self'', log ++ log')
  | (Raise e, self', log) => (Raise e, self', log)
  | (OutOfFuel, self', log) => (OutOfFuel, self', log)
  end.

Definition lift {A} (r : outcome A) : M A := fun self => (r, self, []).

Definition raise {A} (e : exn) : M A := lift (Raise e).

(** Log entry: the recursive call on the slot at list position [k]. *)
Definition decoding (k : nat) : M unit := fun self => (Ok (), self, [k]).

(** Reading an attribute that may not be set yet. *)
Definition attribute {A} (a : option A) : outcome A :=
  match a with Some v => Ok v | None => Raise AttributeError end.

Definition get_dict1 : M (list entry) := fun self =>
  (attribute (dict1 self), self, []).

Definition get_mincode : M (list Z) := fun self =>
  (attribute (mincode self), self, []).

Definition get_maxcode : M (list Z) := fun self =>
  (attribute (maxcode self), self, []).

Definition get_dictionary : M (list slot) := fun self =>
  (attribute (dictionary self), self, []).

(** [l[k]] as an expression that may raise *)
Definition getitem {A} (l : list A) (k : Z) : M A :=
  match py_index l k with
  | Some a => mret a
  | None => raise IndexError
  end.

(** [self.dictionary[r] = v] *)
Definition dictionary_setitem (r : Z) (v : slot) : M unit := fun self =>
  match dictionary self with
  | None => (Raise AttributeError, self, [])
  | Some d =>
      match py_setitem d r v with
      | Some d' => (Ok (), set_dictionary self d', [])
      | None => (Raise IndexError, self, [])
      end
  end.

(** Every slot holds resolved bytes: a pair whose flag is set. *)
Definition all_resolved (d : list slot) : Prop :=
  Forall (fun sl : slot => ∃ b f, sl = Some (b, f) ∧ f ≠ 0) d.

Definition zeros8 : bytes := repeat x00%byte 8.

(** [if n <= 0: pos += 4; (x,) = q(data, pos); n += 32] *)
Definition reload (data : bytes) (pos x n : Z) : outcome (Z * Z * Z) :=
  if n <=? 0 then x' ← q data (pos + 4); mret (pos + 4, x', n + 32)
  else Ok (pos, x, n).

(** [while code < self.mincode[codelen]: codelen += 1], with [k] bounding
    the number of increments. *)
Fixpoint widen (k : nat) (mins : list Z) (code codelen : Z) : outcome Z :=
  match py_index mins codelen with
  | None => Raise IndexError
  | Some m =>
      if code <? m then
        match k with
        | O => OutOfFuel
        | S k' => widen k' mins code (codelen + 1)
        end
      else Ok codelen
  end.

(** Lines 128-132: the code length and the maximal code of that length. *)
Definition lookup_code (code : Z) : M (Z * Z) :=
  d1 ← get_dict1;
  '(codelen, term, maxc) ← getitem d1 (Z.shiftr code 24);
  if term =? 0 then
    mins ← get_mincode;
    codelen ← lift (widen (length mins + Z.abs_nat codelen) mins code codelen);
    maxs ← get_maxcode;
    maxc ← getitem maxs codelen;
    mret (codelen, maxc)
  else mret (codelen, maxc).

(** [(maxcode - code) >> (32 - codelen)] *)
Definition slot_index (code codelen maxc : Z) : outcome Z :=
  py_rshift (maxc - code) (32 - codelen).

(** Lines 122-135 of an iteration: the window after the reload, the next
    [code] with its length and the maximal code of that length, and the
    two counters after the code is consumed.  The result is
    [(pos, x, n, bitsleft, code, codelen, maxcode)]. *)
Definition next_code (data : bytes) (bitsleft pos x n : Z)
  : M (Z * Z * Z * Z * Z * Z * Z) :=
  '(pos, x, n) ← lift (reload data pos x n);
  w ← lift (py_rshift x n);
  let code := Z.land w (Z.shiftl 1 32 - 1) in
  '(codelen, maxc) ← lookup_code code;
  mret (pos, x, n - codelen, bitsleft - codelen, code, codelen, maxc).

(** Lines 114-118 and the entry into the loop: [unpack] over a given
    loop. *)
Definition unpack_with
  (loop : bytes → Z → Z → Z → Z → bytes → M bytes) (data : bytes)
  : M bytes :=
  let bitsleft := py_len data * 8 in
  let data := data ++ zeros8 in
  let pos := 0 in
  x ← lift (q data pos);
  loop data bitsleft pos x 32 [].

(** Lines 141-144: the bytes of the slot [(slice, flag)] found at
    [self.dictionary[r]], resolved by [unpack] when the flag is not
    set. *)
Definition resolve (unpack : bytes → M bytes) (d : list slot) (r : Z)
  (slice : bytes) (flag : Z) : M bytes :=
  if flag =? 0 then
    dictionary_setitem r None;;
    decoding (position (py_len d) r);;
    slice ← unpack slice;
    dictionary_setitem r (Some (slice, 1));;
    mret slice
  else mret slice.

(** The [while True] loop of [unpack].  One unit of fuel per iteration;
    the call of [unpack] on a slot runs on the fuel that is left. *)
Fixpoint unpack_loop (fuel : nat) (data : bytes) (bitsleft pos x n : Z)
  (s : bytes) {struct fuel} : M bytes :=
  match fuel with
  | O => lift OutOfFuel
  | S fuel' =>
      '(pos, x, n, bitsleft, code, codelen, maxc) ←
        next_code data bitsleft pos x n;
      if bitsleft <? 0 then mret s
      else
        r ← lift (slot_index code codelen maxc);
        d ← get_dictionary;
        sl ← getitem d r;
        match sl with
        | None => raise TypeError
        | Some (slice, flag) =>
            slice ← resolve (unpack_with (unpack_loop fuel')) d r slice flag;
            unpack_loop fuel' data bitsleft pos x n (s ++ slice)
        end
  end.

Definition unpack (fuel : nat) (data : bytes) : M bytes :=
  unpack_with (unpack_loop fuel) data.

(** The records of a document, decoded in order on one object, as
    [MobiBook.unpackMobi] does. *)
Fixpoint unpack_records (fuel : nat) (records : list bytes)
  : M (list bytes) :=
  match records with
  | [] => mret []
  | r :: rs =>
      o ← unpack fuel r; os ← unpack_records fuel rs; mret (o :: os)
  end.

(** *** Vocabulary of the statements about [unpack] *)

(** [m'] does what [m] does whenever [m] has enough fuel. *)
Definition refines {A} (m m' : M A) : Prop :=
  ∀ self out self' log,
    m self = (out, self', log) → out ≠ OutOfFuel →
    m' self = (out, self', log).

(** The slot at list position [k] is unresolved: a pair whose flag is
    not set. *)
Definition unresolved (d : list slot) (k : nat) : Prop :=
  ∃ b, d !! k = Some (Some (b, 0)).

(** The slot at list position [k] holds bytes that [unpack] resolved. *)
Definition resolved_by_unpack (d : list slot) (k : nat) : Prop :=
  ∃ b, d !! k = Some (Some (b, 1)).

(** How a run that logged the recursive calls [log] may take the
    dictionary [d] to [d']: no slot is decoded twice, only unresolved
    slots are decoded, the slots that are not decoded keep their value,
    and a decoded slot is being resolved ([None]) or resolved. *)
Definition decoded_once (d : list slot) (log : list nat) (d' : list slot)
  : Prop :=
  length d' = length d
  ∧ NoDup log
  ∧ (∀ k, k ∈ log → unresolved d k)
  ∧ (∀ k, k ∉ log → d' !! k = d !! k)
  ∧ (∀ k, k ∈ log → d' !! k = Some None ∨ resolved_by_unpack d' k).

(** The code table of [self'] is that of [self]. *)
Definition same_tables (self self' : t) : Prop :=
  dict1 self' = dict1 self ∧ mincode self' = mincode self
  ∧ maxcode self' = maxcode self.

(** The property of a computation [m] run on the object [self]. *)
Definition once_at {A} (self : t) (m : M A) : Prop :=
  ∀ out self' log,
    m self = (out, self', log) →
    same_tables self self'
    ∧ ∀ d, dictionary self = Some d →
        ∃ d', dictionary self' = Some d'
          ∧ decoded_once d log d'
          ∧ (∀ a, out = Ok a → ∀ k, k ∈ log → resolved_by_unpack d' k).

(** The fast table is loaded and its code lengths are at least one, as
    [loadHuff] asserts. *)
Definition table_ok (self : t) : Prop :=
  ∃ d1, dict1 self = Some d1 ∧ Forall (fun e : entry => 1 ≤ e.1.1) d1.

(** The number of unresolved slots. *)
Definition slot_pending (sl : slot) : bool :=
  match sl with
  | Some (_, flag) => flag =? 0
  | None => false
  end.

Fixpoint pending (d : list slot) : nat :=
  match d with
  | [] => 0
  | sl :: d' => (if slot_pending sl then 1 else 0) + pending d'
  end.

(** The object has a table and a dictionary, with code lengths between 1
    and 32 and at most 33 entries in [mincode]: what [loadHuff] builds and
    [loadCdic] and [unpack] keep. *)
Definition well_loaded (self : t) : Prop :=
  ∃ d1 mins maxs d,
    dict1 self = Some d1 ∧ Forall (fun e : entry => 1 ≤ e.1.1 ≤ 32) d1
    ∧ mincode self = Some mins ∧ (length mins ≤ 33)%nat
    ∧ maxcode self = Some maxs ∧ dictionary self = Some d.

(** The bit window of [unpack] at the top of an iteration, on a record of
    [L] bytes: the bits consumed so far are [8 * pos + 32 - n], and with
    the bits left they make up the record. *)
Definition window (L bitsleft pos n : Z) : Prop :=
  0 ≤ bitsleft ∧ -32 < n ≤ 32 ∧ 0 ≤ pos
  ∧ 8 * pos + (32 - n) + bitsleft = 8 * L.

(** The exceptions of an index that is out of range and of a slot that is
    being resolved. *)
Definition lookup_error (e : exn) : Prop := e = IndexError ∨ e = TypeError.

(** Whatever [m] raises on [self] is a lookup error. *)
Definition raises_lookup_errors {A} (self : t) (m : M A) : Prop :=
  ∀ out self' log e, m self = (out, self', log) → out = Raise e → lookup_error e.

End Huffcdic.

(** ** class BookMobi (mobi.py): the callers of the decoders *)

(** [range(a, b)] *)
Definition py_range (a b : Z) : list Z :=
  map (fun k => a + Z.of_nat k) (seq 0 (Z.to_nat (b - a))).

Module Mobi.

(** The exceptions of this class: a missing dictionary key, a seek to a
    negative offset, or an exception of the decoders and of [struct]. *)
Inductive error : Type :=
| KeyError
| IOError
| Exn (e : exn).

Inductive result (A : Type) : Type :=
| Done (a : A)
| Fail (e : error)
| NoFuel.

Arguments Done {A} a.
Arguments Fail {A} e.
Arguments NoFuel {A}.

#[global] Instance result_ret : MRet result := fun _ a => Done a.

#[global] Instance result_bind : MBind result := fun _ _ k r =>
  match r with
  | Done a => k a
  | Fail e => Fail e
  | NoFuel => NoFuel
  end.

(** The outcome of a call into [compression.py] or [struct]. *)
Definition call {A} (r : outcome A) : result A :=
  match r with
  | Ok a => Done a
  | Raise e => Fail (Exn e)
  | OutOfFuel => NoFuel
  end.

(** [d[key]] on a dictionary *)
Definition getkey `{Countable K} {V} (d : gmap K V) (key : K) : result V :=
  match d !! key with
  | Some v => Done v
  | None => Fail KeyError
  end.

(** What the methods below use of a [BookMobi] object: the content of the
    file [self.f], and the dictionaries [self.header], [self.records]
    (record number to [(offset, attributes, uniqueID)]), [self.palmdoc]
    and [self.mobi]. *)
Record t : Type := mk {
  f : bytes;
  header : gmap string Z;
  records : gmap Z (Z * Z * Z);
  palmdoc : gmap string Z;
  mobi : gmap string Z
}.

(** [self.f.seek(offset)] followed by [self.f.read(size)]: a negative
    offset is refused, a read stops at the end of the file, and a
    negative size reads to the end of the file, as the file objects of
    Python 2 and [io.BytesIO] do. *)
Definition read_at (file : bytes) (offset size : Z) : result bytes :=
  if offset <? 0 then Fail IOError
  else if size <? 0 then Done (drop (Z.to_nat offset) file)
  else Done (take (Z.to_nat size) (drop (Z.to_nat offset) file)).

(** [self.f.seek(offset)] followed by [self.f.read()] *)
Definition read_all_at (file : bytes) (offset : Z) : result bytes :=
  if offset <? 0 then Fail IOError
  else Done (drop (Z.to_nat offset) file).

Definition loadRecord (self : t) (record_index : Z) : result bytes :=
  '(offset, _, _) ← getkey (records self) record_index;
  if offset <? 0 then Fail IOError
  else
    n ← getkey (header self) "numberOfRecords";
    if record_index =? n - 1 then read_all_at (f self) offset
    else
      '(offset2, _, _) ← getkey (records self) (record_index + 1);
      read_at (f self) offset (offset2 - offset).

(** The classes of [compression_type], and the bound method that
    [unpackFunction] returns. *)
Inductive compression_class : Type :=
| class_Uncompression
| class_Palmdoc
| class_Huffcdic.

Inductive decoder : Type :=
| Uncompression_unpack
| Palmdoc_unpack
| Palmdoc_unpack3
| Huffcdic_unpack (compression : Huffcdic.t).

(** [compression_type[key][1]] *)
Definition compression_type (key : Z) : result compression_class :=
  if key =? 1 then Done class_Uncompression
  else if key =? 2 then Done class_Palmdoc
  else if key =? 17480 then Done class_Huffcdic
  else Fail KeyError.

(** [for c in range(1, count): self.compression.loadCdic(
      self.loadRecord(self.mobi["huffmanRecordOffset"] + c))] *)
Fixpoint load_cdics (self : t) (cs : list Z) (compression : Huffcdic.t)
  : result Huffcdic.t :=
  match cs with
  | [] => Done compression
  | c :: cs' =>
      offset ← getkey (mobi self) "huffmanRecordOffset";
      rec_cdic ← loadRecord self (offset + c);
      match Huffcdic.loadCdic compression rec_cdic with
      | (r, compression) => call r;; load_cdics self cs' compression
      end
  end.

(** [unpackFunction], on the interpreter whose major version is
    [py_major].  [Uncompression] and [Huffcdic] have no method [unpack3];
    and on Python 3 a record is a [bytes] object, which never equals the
    [str] tag that [loadHuff] compares it with. *)
Definition unpackFunction (py_major : Z) (self : t) : result decoder :=
  key ← getkey (palmdoc self) "compression";
  cls ← compression_type key;
  match cls with
  | class_Huffcdic =>
      offset ← getkey (mobi self) "huffmanRecordOffset";
      rec_huff ← loadRecord self offset;
      if py_major <? 3 then
        match Huffcdic.loadHuff Huffcdic.new rec_huff with
        | (r, compression) =>
            call r;;
            count ← getkey (mobi self) "huffmanRecordCount";
            compression ← load_cdics self (py_range 1 count) compression;
            Done (Huffcdic_unpack compression)
        end
      else Fail (Exn (ValueError "invalid huff header"))
  | class_Palmdoc =>
      if py_major <? 3 then Done Palmdoc_unpack else Done Palmdoc_unpack3
  | class_Uncompression =>
      if py_major <? 3 then Done Uncompression_unpack
      else Fail (Exn AttributeError)
  end.

(** [struct.unpack_from(">HHHL", buf, offset)]: ten bytes, no padding. *)
Definition unpack_HHHL (buf : bytes) (offset : Z) : outcome (Z * Z * Z * Z) :=
  let offset := if offset <? 0 then offset + py_len buf else offset in
  if (offset <? 0) || (py_len buf - offset <? 10) then Raise StructError
  else
    let b := drop (Z.to_nat offset) buf in
    Ok (be_uint (take 2 b), be_uint (take 2 (drop 2 b)),
        be_uint (take 2 (drop 4 b)), be_uint (take 4 (drop 6 b))).

(** [struct.unpack_from(">4s", buf, offset)] *)
Definition unpack_4s (buf : bytes) (offset : Z) : outcome bytes :=
  let offset := if offset <? 0 then offset + py_len buf else offset in
  if (offset <? 0) || (py_len buf - offset <? 4) then Raise StructError
  else Ok (take 4 (drop (Z.to_nat offset) buf)).

(** What [imageExt] returns: one of the three extensions it knows, or the
    dot followed by the four bytes it found. *)
Inductive ext : Type :=
| ext_gif
| ext_png
| ext_jpg
| ext_ident (ident : bytes).

Definition imageExt (record : bytes) : outcome ext :=
  vs ← unpack_from 4 1 record 0;
  let ident := vs !!! 0%nat in
  if ident =? 0x47494638 then Ok ext_gif
  else if ident =? 0x89504E47 then Ok ext_png
  else
    ident ← unpack_HHHL record 0;
    if ident.2 =? 0x4A464946 then Ok ext_jpg
    else
      ident ← unpack_4s record 0;
      Ok (ext_ident ident).

(** Lines 519-532 of [unpackMobi]: the record without its trailing
    entries.  [decodeVarint] is a function of the module [util]. *)
Section Trailing.

Variable decodeVarint : Z → Z.

(** The [while extraflags & 0x1] loop; one unit of fuel per iteration. *)
Fixpoint strip_entries (fuel : nat) (extraflags : Z) (record : bytes)
  : outcome bytes :=
  if Z.land extraflags 1 =? 0 then Ok record
  else
    match fuel with
    | O => OutOfFuel
    | S fuel' =>
        vs ← unpack_from 4 1 (py_slice record (-4) (py_len record)) 0;
        let vint := vs !!! 0%nat in
        let fint := decodeVarint vint in
        strip_entries fuel' (Z.shiftr extraflags 1) (py_slice record 0 (- fint))
    end.

Definition strip_trailing (fuel : nat) (flags : Z) (record : bytes)
  : outcome bytes :=
  record ← strip_entries fuel (Z.shiftr flags 1) record;
  if Z.land flags 1 =? 0 then Ok record
  else
    vs ← unpack_from 1 1 (py_slice record (-1) (py_len record)) 0;
    let mb_num := Z.land (vs !!! 0%nat) 3 + 1 in
    Ok (py_slice record 0 (- mb_num)).

End Trailing.

(** Lines 537-539 of [unpackMobi]: the decoded records joined, then
    split at [text_length] into the text and what follows it. *)
Definition split_text (data : list bytes) (text_length : Z) : bytes * bytes :=
  let data_text := mjoin data in
  let data_css := py_slice data_text text_length (py_len data_text) in
  let data_text := py_slice data_text 0 text_length in
  (data_text, data_css).

End Mobi.

(** ** Sample blobs

    Well-formed HUFF and CDIC blobs, used to run the loaders and the
    decoder on concrete inputs. *)

Module Sample.

Definition byte_of (z : Z) : byte := default x00%byte (Byte.of_N (Z.to_N z)).

Definition be16 (v : Z) : bytes :=
  [byte_of (Z.land (Z.shiftr v 8) 255); byte_of (Z.land v 255)].

Definition be32 (v : Z) : bytes := be16 (Z.shiftr v 16) ++ be16 (Z.land v 65535).

(** A HUFF blob: the 256-entry table at offset 16 holds [v] in every
    entry, the 64-entry table at offset 1040 is all zero. *)
Definition huff (v : Z) : bytes :=
  Huffcdic.huff_magic ++ be32 16 ++ be32 1040
    ++ mjoin (repeat (be32 v) 256) ++ repeat x00%byte 256.

(** A CDIC blob declaring one phrase: the resolved slice ["Z"]. *)
Definition cdic1 : bytes :=
  Huffcdic.cdic_magic ++ be32 1 ++ be32 0
    ++ be16 2 ++ be16 0x8001 ++ ["Z"]%byte.

(** A CDIC blob declaring two phrases: the resolved slice ["A"], and
    the unresolved slice [[0xFF]]. *)
Definition cdic2 : bytes :=
  Huffcdic.cdic_magic ++ be32 2 ++ be32 1
    ++ be16 4 ++ be16 7
    ++ be16 0x8001 ++ ["A"]%byte
    ++ be16 0x0001 ++ [xff]%byte.

(** A CDIC blob declaring two phrases: the resolved slice ["A"], and
    an unresolved slice that refers to its own slot under [huff 0xFF88]. *)
Definition cdic_self : bytes :=
  Huffcdic.cdic_magic ++ be32 2 ++ be32 1
    ++ be16 4 ++ be16 7
    ++ be16 0x8001 ++ ["A"]%byte
    ++ be16 0x0001 ++ [xfe]%byte.

(** The object after [loadHuff(huff)] and [loadCdic(cdic)] on a fresh
    [Huffcdic()]. *)
Definition loaded (huff cdic : bytes) : Huffcdic.t :=
  (Huffcdic.loadCdic (Huffcdic.loadHuff Huffcdic.new huff).2 cdic).2.

(** A book of five records: a header record, two text records, a HUFF
    record and a CDIC record that runs to the end of the file. *)
Definition book (compression : Z) : Mobi.t :=
  {| Mobi.f := repeat x00%byte 16 ++ [xfe; xff]%byte ++ [xfe]%byte
                 ++ huff 0xFF88 ++ cdic2;
     Mobi.header := {["numberOfRecords" := 5]};
     Mobi.records :=
       {[0 := (0, 0, 0); 1 := (16, 0, 0); 2 := (18, 0, 0);
         3 := (19, 0, 0); 4 := (1315, 0, 0)]};
     Mobi.palmdoc := {["compression" := compression]};
     Mobi.mobi :=
       {["huffmanRecordOffset" := 3; "huffmanRecordCount" := 2]} |}.

End Sample.

(** * Proofs *)

(** Closes a closed comparison between integers by evaluation. *)
Ltac by_eval := vm_compute; repeat split; (discriminate || reflexivity).

(** The sample record of the design document. *)
Example palmdoc_hello :
  Palmdoc.unpack3 [x05; "H"; "e"; "l"; "l"; "o"; x20]%byte
  = Ok ["H"; "e"; "l"; "l"; "o"; " "]%byte.
Proof. reflexivity. Qed.

Example palmdoc_ababa :
  Palmdoc.unpack3 ["a"; "b"; x80; x10]%byte = Ok ["a"; "b"; "a"; "b"; "a"]%byte.
Proof. reflexivity. Qed.

(** ** Facts about the primitives *)


Lemma ord_range b : 0 ≤ ord b < 256.
Proof.
  unfold ord. pose proof (Byte.to_N_bounded b). lia.
Qed.

Lemma to_bytes1_ord b : to_bytes1 (ord b) = Ok [b].
Proof.
  unfold to_bytes1. pose proof (ord_range b) as Hb.
  replace ((0 <=? ord b) && (ord b <? 256)) with true
    by (symmetry; apply andb_true_iff; lia).
  unfold ord. by rewrite N2Z.id, Byte.of_to_N.
Qed.

Lemma to_bytes1_xor128 b :
  ∃ b', ord b' = Z.lxor (ord b) 128 ∧ to_bytes1 (Z.lxor (ord b) 128) = Ok [b'].
Proof.
  cut (∃ b', to_bytes1 (Z.lxor (ord b) 128) = Ok [b']
             ∧ ord b' = Z.lxor (ord b) 128).
  { intros (b' & ? & ?). by exists b'. }
  destruct b; eexists; split; reflexivity.
Qed.

Lemma land_ones_range v k : 0 ≤ k → 0 ≤ Z.land v (Z.ones k) < 2 ^ k.
Proof.
  intros Hk. rewrite Z.land_ones by done. apply Z.mod_pos_bound. lia.
Qed.

Lemma py_len_app {A} (l k : list A) : py_len (l ++ k) = py_len l + py_len k.
Proof. unfold py_len. rewrite length_app. lia. Qed.

Lemma py_len_nonneg {A} (l : list A) : 0 ≤ py_len l.
Proof. unfold py_len. lia. Qed.

Lemma py_index_nonneg {A} (l : list A) k :
  0 ≤ k → py_index l k = l !! Z.to_nat k.
Proof. intros. unfold py_index. by rewrite (proj2 (Z.leb_le _ _)). Qed.

Lemma py_index_neg {A} (l : list A) k :
  k < 0 → - py_len l ≤ k → py_index l k = l !! Z.to_nat (py_len l + k).
Proof.
  intros. unfold py_index.
  rewrite (proj2 (Z.leb_gt _ _)), (proj2 (Z.leb_le _ _)); done.
Qed.

Lemma py_index_below {A} (l : list A) k :
  k < - py_len l → py_index l k = None.
Proof.
  intros. pose proof (py_len_nonneg l). unfold py_index.
  rewrite !(proj2 (Z.leb_gt _ _)); [done | lia..].
Qed.

Lemma py_index_above {A} (l : list A) k :
  py_len l ≤ k → py_index l k = None.
Proof.
  intros. pose proof (py_len_nonneg l).
  rewrite py_index_nonneg by lia. apply lookup_ge_None. unfold py_len in *. lia.
Qed.

Lemma py_index_Some_range {A} (l : list A) k a :
  py_index l k = Some a → - py_len l ≤ k < py_len l.
Proof.
  intros H. destruct (Z_lt_dec k (- py_len l)).
  { by rewrite py_index_below in H. }
  destruct (Z_le_dec (py_len l) k).
  { by rewrite py_index_above in H. }
  lia.
Qed.

Lemma py_index_position {A} (l : list A) k :
  - py_len l ≤ k < py_len l → py_index l k = l !! position (py_len l) k.
Proof.
  intros. unfold position. destruct (Z.ltb_spec k 0).
  - apply py_index_neg; lia.
  - apply py_index_nonneg; lia.
Qed.

(** ** Palmdoc *)

(** The main loop of [unpack3] needs at most one iteration per input byte
    that is still to be read. *)
Lemma unpack3_loop_fuel fuel i o p :
  (Z.to_nat (py_len i - p) ≤ fuel)%nat →
  Palmdoc.unpack3_loop fuel i o p ≠ OutOfFuel.
Proof.
  revert o p. induction fuel as [|fuel IH]; intros o p Hf; simpl.
  - destruct (Z.ltb_spec p (py_len i)); [lia | done].
  - destruct (Z.ltb_spec p (py_len i)); [| done].
    destruct (py_index i p) as [b|]; [| done].
    pose proof (ord_range b).
    destruct ((1 <=? ord b) && (ord b <=? 8)) eqn:E1.
    { apply IH. apply andb_true_iff in E1. lia. }
    destruct (ord b <? 128).
    { rewrite to_bytes1_ord. apply IH. lia. }
    destruct (192 <=? ord b).
    { destruct (to_bytes1_xor128 b) as (b' & _ & ->). apply IH. lia. }
    destruct (Z.ltb_spec (p + 1) (py_len i)); [| apply IH; lia].
    destruct (py_index i (p + 1)) as [b2|]; [| done].
    unfold Palmdoc.backref. case_match.
    + apply IH. lia.
    + match goal with |- context [Palmdoc.fill ?n ?m ?o] =>
        generalize n m o end.
      intros n m o0.
      assert (Hfill : ∀ n o, Palmdoc.fill n m o ≠ OutOfFuel).
      { clear. induction n as [|n IHn]; intros o; simpl; [done|].
        destruct (py_index o (- m)) as [b|]; [| done].
        rewrite to_bytes1_ord. apply IHn. }
      specialize (Hfill n o0).
      destruct (Palmdoc.fill n m o0); [apply IH; lia | done | done].
Qed.

Lemma unpack3_loop_done fuel i o p :
  py_len i ≤ p → Palmdoc.unpack3_loop fuel i o p = Ok o.
Proof.
  intros. destruct fuel; simpl; by rewrite (proj2 (Z.ltb_ge _ _)).
Qed.

Lemma unpack3_total i : Palmdoc.unpack3 i ≠ OutOfFuel.
Proof. apply unpack3_loop_fuel. unfold py_len. lia. Qed.

Lemma lookup_py_index (i : bytes) p b :
  0 ≤ p → i !! Z.to_nat p = Some b → p < py_len i ∧ py_index i p = Some b.
Proof.
  intros Hp Hb. split.
  - apply lookup_lt_Some in Hb. unfold py_len. lia.
  - by rewrite py_index_nonneg.
Qed.

Lemma fill_step n m o b :
  py_index o (- m) = Some b →
  Palmdoc.fill (S n) m o = Palmdoc.fill n m (o ++ [b]).
Proof. intros H. simpl. by rewrite H, to_bytes1_ord. Qed.

(** The fill reads, for each byte it appends, the byte [m] places before
    the end the output has at that moment. *)
Lemma fill_cyclic n m o :
  1 ≤ m ≤ py_len o →
  ∃ ext, Palmdoc.fill n m o = Ok (o ++ ext) ∧ length ext = n ∧
    ∀ k, (k < n)%nat →
      ext !! k = (o ++ ext) !! Z.to_nat (py_len o + Z.of_nat k - m).
Proof.
  revert o. induction n as [|n IH]; intros o Hm.
  - exists []. rewrite app_nil_r. repeat split. intros; lia.
  - assert (is_Some (o !! Z.to_nat (py_len o - m))) as [b Hb].
    { apply lookup_lt_is_Some. unfold py_len in *. lia. }
    rewrite (fill_step n m o b)
      by (rewrite py_index_neg by lia; rewrite <- Hb; f_equal; lia).
    destruct (IH (o ++ [b])) as (ext & Hfill & Hlen & Hk).
    { rewrite py_len_app. unfold py_len at 2. simpl. lia. }
    exists (b :: ext). rewrite <- app_assoc in Hfill. simpl in Hfill.
    split; [done|]. split; [simpl; lia|].
    intros [|k] Hlt.
    + simpl. rewrite lookup_app_l by (unfold py_len in *; lia).
      rewrite <- Hb. f_equal. lia.
    + simpl. rewrite Hk by lia. rewrite <- app_assoc. simpl.
      f_equal. rewrite py_len_app. unfold py_len at 2. simpl. lia.
Qed.

Lemma fill_repeat_last n o b :
  last o = Some b → Palmdoc.fill n 1 o = Ok (o ++ replicate n b).
Proof.
  revert o. induction n as [|n IH]; intros o Hb.
  - simpl. by rewrite app_nil_r.
  - assert (py_index o (- (1)) = Some b) as Hi.
    { rewrite last_lookup in Hb.
      assert (length o ≠ 0)%nat by (destruct o; [done | simpl; lia]).
      rewrite py_index_neg by (unfold py_len; lia).
      rewrite <- Hb. f_equal. unfold py_len. lia. }
    rewrite (fill_step n 1 o b Hi), IH by apply last_snoc.
    by rewrite <- app_assoc.
Qed.

(** C8.  A control byte [c >= 192] makes the decoder append exactly two
    bytes, a space and [c XOR 0x80], and move on to the next input byte;
    the record [[0xC1]] decodes to [b" A"]. *)
Theorem unpack3_space_prefix :
  (∀ fuel i o p b,
      0 ≤ p → i !! Z.to_nat p = Some b → 192 ≤ ord b →
      ∃ b', ord b' = Z.lxor (ord b) 0x80 ∧
        Palmdoc.unpack3_loop (S fuel) i o p
        = Palmdoc.unpack3_loop fuel i (o ++ [" "%byte; b']) (p + 1))
  ∧ (∀ b, 192 ≤ ord b →
      ∃ b', ord b' = Z.lxor (ord b) 0x80 ∧
        Palmdoc.unpack3 [b] = Ok [" "%byte; b'])
  ∧ Palmdoc.unpack3 [xc1]%byte = Ok [" "; "A"]%byte.
Proof.
  assert (Hstep : ∀ fuel i o p b,
      0 ≤ p → i !! Z.to_nat p = Some b → 192 ≤ ord b →
      ∃ b', ord b' = Z.lxor (ord b) 0x80 ∧
        Palmdoc.unpack3_loop (S fuel) i o p
        = Palmdoc.unpack3_loop fuel i (o ++ [" "%byte; b']) (p + 1)).
  { intros fuel i o p b Hp Hb Hc.
    destruct (lookup_py_index i p b Hp Hb) as [Hlt Hi].
    destruct (to_bytes1_xor128 b) as (b' & Hord & Hto).
    exists b'. split; [done|]. simpl.
    rewrite (proj2 (Z.ltb_lt _ _) Hlt), Hi.
    replace ((1 <=? ord b) && (ord b <=? 8)) with false
      by (symmetry; apply andb_false_iff; right; apply Z.leb_gt; lia).
    rewrite (proj2 (Z.ltb_ge _ _)) by lia.
    rewrite (proj2 (Z.leb_le _ _)) by lia.
    by rewrite Hto. }
  split; [exact Hstep|]. split; [|reflexivity].
  intros b Hc.
  destruct (Hstep 0%nat [b] [] 0 b) as (b' & Hord & Heq); [lia | done | done |].
  exists b'. split; [done|]. unfold Palmdoc.unpack3. simpl length.
  rewrite Heq. by apply unpack3_loop_done.
Qed.

Lemma unpack3_space_prefix_witness :
  ∃ b', ord b' = Z.lxor (ord xc1) 0x80 ∧
    Palmdoc.unpack3_loop 1 [xc1]%byte [] 0
    = Palmdoc.unpack3_loop 0 [xc1]%byte ([] ++ [" "%byte; b']) (0 + 1).
Proof.
  apply (proj1 unpack3_space_prefix 0%nat [xc1]%byte [] 0 xc1);
    [lia | reflexivity | by_eval].
Defined.

(** C9.  [pack] raises on every input, for the PalmDOC scheme and for the
    Huffman/Dictionary scheme alike (and leaves the Huffman object as it
    was): neither produces encoded output. *)
Theorem pack_not_implemented (i : bytes) :
  Palmdoc.pack i = Raise (ValueError "not implement")
  ∧ ∀ self, Huffcdic.pack self i = (Raise (ValueError "not implement"), self).
Proof. split; [|intros self]; reflexivity. Qed.

Lemma backref_lengths c :
  0 ≤ Z.land (Z.shiftr c 3) 0x07FF ∧ 3 ≤ Z.land c 7 + 3.
Proof.
  split.
  - apply Z.land_nonneg. by right.
  - assert (0 ≤ Z.land c 7) by (apply Z.land_nonneg; by right). lia.
Qed.

(** C1, as the code has it.  A back-reference with distance [m] and length
    [n], [1 <= m <= n] and [m] within the output [o], appends [n] bytes one
    at a time, and byte number [k] of the run is the byte [m] places before
    the end the output has when it is appended: position [len(o) + k - m] of
    the extended output.  For [m = 1] the run is [n] copies of the last
    byte of [o]. *)
Theorem backref_fill (c : Z) (o : bytes) :
  let m := Z.land (Z.shiftr c 3) 0x07FF in
  let n := Z.land c 7 + 3 in
  1 ≤ m ≤ n → m ≤ py_len o →
  ∃ ext, Palmdoc.backref c o = Ok (o ++ ext) ∧ py_len ext = n ∧
    (∀ k, 0 ≤ k < n →
       py_index ext k = py_index (o ++ ext) (py_len o + k - m)) ∧
    (m = 1 → ∀ b, last o = Some b → ext = replicate (Z.to_nat n) b).
Proof.
  intros m n Hmn Hmo. unfold Palmdoc.backref. fold m n.
  rewrite (proj2 (Z.ltb_ge _ _)) by lia.
  destruct (fill_cyclic (Z.to_nat n) m o) as (ext & Hfill & Hlen & Hk); [lia|].
  exists ext. split; [done|]. split; [unfold py_len; lia|]. split.
  - intros k Hkn. rewrite !py_index_nonneg by lia.
    rewrite <- (Z2Nat.id k) at 2 by lia. apply Hk. lia.
  - intros -> b Hb. rewrite (fill_repeat_last _ _ b) in Hfill by done.
    injection Hfill as Hfill. by apply app_inv_head in Hfill.
Qed.

Lemma backref_fill_witness :
  ∃ ext, Palmdoc.backref 0x8010 ["a"; "b"]%byte = Ok (["a"; "b"]%byte ++ ext)
    ∧ py_len ext = Z.land 0x8010 7 + 3 ∧
    (∀ k, 0 ≤ k < Z.land 0x8010 7 + 3 →
       py_index ext k
       = py_index (["a"; "b"]%byte ++ ext)
           (py_len ["a"; "b"]%byte + k - Z.land (Z.shiftr 0x8010 3) 0x07FF)) ∧
    (Z.land (Z.shiftr 0x8010 3) 0x07FF = 1 →
     ∀ b, last ["a"; "b"]%byte = Some b →
          ext = replicate (Z.to_nat (Z.land 0x8010 7 + 3)) b).
Proof.
  apply (backref_fill 0x8010 ["a"; "b"]%byte); by_eval.
Defined.

(** C1 as stated fails: with output [b"ab"], distance 2 and length 3 the
    decoder appends [b"aba"], not three copies of the byte two places
    before the end of [b"ab"]. *)
Lemma backref_fill_drifts :
  let c := 0x8010 in
  let o := ["a"; "b"]%byte in
  let m := Z.land (Z.shiftr c 3) 0x07FF in
  let n := Z.land c 7 + 3 in
  m = 2 ∧ n = 3 ∧ m ≤ n ∧ m ≤ py_len o
  ∧ py_index o (py_len o - m) = Some "a"%byte
  ∧ Palmdoc.backref c o = Ok (o ++ ["a"; "b"; "a"]%byte)
  ∧ Palmdoc.backref c o ≠ Ok (o ++ replicate (Z.to_nat n) "a"%byte)
  ∧ Palmdoc.unpack3 ["a"; "b"; x80; x10]%byte
    = Ok ["a"; "b"; "a"; "b"; "a"]%byte.
Proof. vm_compute. repeat split; discriminate. Qed.

(** C4, as the code has it.  The decoder has no bounds check of its own.
    - A raw-copy run that reaches past the end of the input copies the
      bytes that are left and decoding ends normally.
    - A back-reference control byte that is the last input byte is
      skipped.
    - A bulk copy ([m > n]) never raises: it appends the clamped slice
      [o[-m : n-m]], which starts at the first output byte when [m]
      exceeds the output length.
    - The run-length fill ([m <= n]) raises [IndexError] when [m] exceeds
      the output length or the output is empty. *)
Theorem unpack3_out_of_range :
  (∀ fuel i o p b,
      0 ≤ p → i !! Z.to_nat p = Some b → 1 ≤ ord b ≤ 8 →
      py_len i < p + 1 + ord b →
      Palmdoc.unpack3_loop (S fuel) i o p
      = Ok (o ++ drop (Z.to_nat (p + 1)) i))
  ∧ (∀ fuel i o p b,
      0 ≤ p → i !! Z.to_nat p = Some b → 128 ≤ ord b < 192 →
      p + 1 = py_len i →
      Palmdoc.unpack3_loop (S fuel) i o p = Ok o)
  ∧ (∀ c o,
      let m := Z.land (Z.shiftr c 3) 0x07FF in
      let n := Z.land c 7 + 3 in
      n < m →
      Palmdoc.backref c o = Ok (o ++ py_slice o (- m) (n - m))
      ∧ (py_len o < m →
         py_slice o (- m) (n - m) = take (Z.to_nat (py_len o + n - m)) o))
  ∧ (∀ c o,
      let m := Z.land (Z.shiftr c 3) 0x07FF in
      let n := Z.land c 7 + 3 in
      m ≤ n → py_len o < m ∨ o = [] →
      Palmdoc.backref c o = Raise IndexError).
Proof.
  repeat apply conj.
  - intros fuel i o p b Hp Hb Hc Hend.
    destruct (lookup_py_index i p b Hp Hb) as [Hlt Hi].
    simpl. rewrite (proj2 (Z.ltb_lt _ _) Hlt), Hi.
    replace ((1 <=? ord b) && (ord b <=? 8)) with true
      by (symmetry; apply andb_true_iff; lia).
    rewrite unpack3_loop_done by lia. do 2 f_equal.
    unfold py_slice, clamp.
    rewrite !(proj2 (Z.ltb_ge _ _)) by lia.
    rewrite (Z.min_l (p + 1)), (Z.min_r (p + 1 + ord b)) by lia.
    apply take_ge. rewrite length_drop. unfold py_len. lia.
  - intros fuel i o p b Hp Hb Hc Hend.
    destruct (lookup_py_index i p b Hp Hb) as [Hlt Hi].
    simpl. rewrite (proj2 (Z.ltb_lt _ _) Hlt), Hi.
    replace ((1 <=? ord b) && (ord b <=? 8)) with false
      by (symmetry; apply andb_false_iff; right; apply Z.leb_gt; lia).
    rewrite (proj2 (Z.ltb_ge (ord b) 128)) by lia.
    rewrite (proj2 (Z.leb_gt 192 (ord b))) by lia.
    rewrite (proj2 (Z.ltb_ge (p + 1) _)) by lia.
    apply unpack3_loop_done. lia.
  - intros c o m n Hnm. unfold Palmdoc.backref. fold m n.
    rewrite (proj2 (Z.ltb_lt _ _)) by lia. split; [done|].
    intros Hlen. pose proof (backref_lengths c) as [_ Hn]. fold n in Hn.
    unfold py_slice, clamp.
    rewrite !(proj2 (Z.ltb_lt _ _)) by lia.
    rewrite (Z.max_r (py_len o + - m)) by lia. simpl. f_equal. lia.
  - intros c o m n Hmn Hlen.
    pose proof (backref_lengths c) as [Hm Hn]. fold m in Hm. fold n in Hn.
    unfold Palmdoc.backref. fold m n.
    rewrite (proj2 (Z.ltb_ge _ _)) by lia.
    destruct (Z.to_nat n) as [|k] eqn:Hk; [lia|]. simpl.
    assert (py_index o (- m) = None) as ->; [|done].
    destruct Hlen as [Hlen | ->].
    + apply py_index_below. lia.
    + unfold py_index, py_len. simpl. by repeat case_match.
Qed.

Lemma unpack3_out_of_range_witness :
  Palmdoc.unpack3_loop 1 [x05; "H"]%byte [] 0
  = Ok ([] ++ drop (Z.to_nat (0 + 1)) [x05; "H"]%byte)
  ∧ Palmdoc.unpack3_loop 1 ["a"; x80]%byte ["a"]%byte 1 = Ok ["a"]%byte
  ∧ Palmdoc.backref 0x8028 ["a"]%byte = Ok ["a"]%byte
  ∧ Palmdoc.backref 0x8010 [] = Raise IndexError.
Proof.
  destruct unpack3_out_of_range as (Hraw & Hlast & Hbulk & Hfill).
  split; [|split; [|split]].
  - apply (Hraw 0%nat [x05; "H"]%byte [] 0 x05);
      [lia | reflexivity | by_eval | by_eval].
  - apply (Hlast 0%nat ["a"; x80]%byte ["a"]%byte 1 x80);
      [lia | reflexivity | by_eval | reflexivity].
  - refine (proj1 (Hbulk 0x8028 ["a"]%byte _)). by_eval.
  - apply (Hfill 0x8010 []); [by_eval | by right].
Defined.

(** C4 as stated fails: a raw-copy run of five bytes over an input that
    holds one, and a bulk copy from five places back in an output of one
    byte, both return output. *)
Lemma unpack3_reads_clamped :
  Palmdoc.unpack3 [x05; "H"]%byte = Ok ["H"]%byte
  ∧ Palmdoc.unpack3 ["a"; x80; x28]%byte = Ok ["a"]%byte.
Proof. split; reflexivity. Qed.

(** ** Huffcdic: the loaders *)

Lemma py_slice_prefix {A} (l : list A) k :
  0 ≤ k → py_slice l 0 k = take (Z.to_nat k) l.
Proof.
  intros Hk. pose proof (py_len_nonneg l) as Hl. unfold py_slice, clamp.
  rewrite !(proj2 (Z.ltb_ge _ _)) by lia.
  rewrite (Z.min_l 0) by lia. rewrite Z.sub_0_r. simpl. rewrite drop_0.
  destruct (Z.le_ge_cases k (py_len l)).
  - by rewrite Z.min_l.
  - rewrite Z.min_r by done. rewrite !take_ge; [done | unfold py_len in *; lia..].
Qed.

Lemma py_slice_head8 {A} (l : list A) : py_slice l 0 8 = take 8 l.
Proof. by rewrite py_slice_prefix. Qed.

Lemma unpack_from_raise size count buf offset :
  match unpack_from size count buf offset with
  | Ok vs => length vs = Z.to_nat count
  | Raise e => e = StructError
  | OutOfFuel => False
  end.
Proof.
  assert (Hlen : ∀ k l, length (fields size k l) = k).
  { induction k as [|k IH]; intros l; simpl; [done | by rewrite IH]. }
  unfold unpack_from. repeat case_match; simplify_eq; try done; apply Hlen.
Qed.

Lemma unpack_LL_raise buf offset :
  match unpack_LL buf offset with
  | Ok _ => True
  | Raise e => e = StructError
  | OutOfFuel => False
  end.
Proof.
  unfold unpack_LL. pose proof (unpack_from_raise 4 2 buf offset) as H.
  by destruct (unpack_from 4 2 buf offset).
Qed.

Lemma h_raise buf offset :
  match h buf offset with
  | Ok _ => True
  | Raise e => e = StructError
  | OutOfFuel => False
  end.
Proof.
  unfold h. pose proof (unpack_from_raise 2 1 buf offset) as H.
  by destruct (unpack_from 2 1 buf offset).
Qed.

Lemma q_raise buf offset :
  match Huffcdic.q buf offset with
  | Ok _ => True
  | Raise e => e = StructError
  | OutOfFuel => False
  end.
Proof.
  unfold Huffcdic.q. pose proof (unpack_from_raise 8 1 buf offset) as H.
  by destruct (unpack_from 8 1 buf offset).
Qed.

(** [map] raises what its function raises, on the first element that
    makes it raise. *)
Lemma py_map_Ok {A B} (f : A → outcome B) l bs :
  py_map f l = Ok bs ↔ Forall2 (fun a b => f a = Ok b) l bs.
Proof.
  revert bs. induction l as [|a l IH]; intros bs; simpl.
  - split; [intros [= <-]; constructor | by inversion 1].
  - split.
    + destruct (f a) as [b| |] eqn:Ha; simpl; [|done..].
      destruct (py_map f l) as [bs'| |]; simpl; [|done..].
      intros [= <-]. constructor; [done | by apply IH].
    + inversion 1 as [|? b ? bs' Ha Hl]; subst. rewrite Ha. simpl.
      apply IH in Hl. by rewrite Hl.
Qed.

Lemma py_map_raise {A B} (f : A → outcome B) (P : exn → Prop) l :
  (∀ a, match f a with Ok _ => True | Raise e => P e | OutOfFuel => False end) →
  match py_map f l with Ok _ => True | Raise e => P e | OutOfFuel => False end.
Proof.
  intros Hf. induction l as [|a l IH]; simpl; [done|].
  specialize (Hf a). destruct (f a); simpl; [|done..].
  by destruct (py_map f l).
Qed.

Lemma dict1_unpack_spec v :
  (Huffcdic.refused v ∧ Huffcdic.dict1_unpack v = Raise AssertionError)
  ∨ (¬ Huffcdic.refused v ∧
     Huffcdic.dict1_unpack v
     = Ok (Z.land v 0x1F, Z.land v 0x80,
           Z.shiftl (Z.shiftr v 8 + 1) (32 - Z.land v 0x1F) - 1)).
Proof.
  unfold Huffcdic.refused, Huffcdic.dict1_unpack.
  destruct (Z.eqb_spec (Z.land v 31) 0) as [->|Hne]; [left; split; [by left|done]|].
  destruct (Z.leb_spec (Z.land v 31) 8); simpl.
  - destruct (Z.eqb_spec (Z.land v 128) 0) as [->|Hne'].
    + left. split; [by right | done].
    + right. split; [|done]. intros [?|[? ?]]; done.
  - right. split; [|done]. intros [?|[? ?]]; [done | lia].
Qed.

Lemma py_map_dict1_unpack vs :
  (Exists Huffcdic.refused vs
   ∧ py_map Huffcdic.dict1_unpack vs = Raise AssertionError)
  ∨ (Forall (fun v => ¬ Huffcdic.refused v) vs
     ∧ ∃ d1, py_map Huffcdic.dict1_unpack vs = Ok d1
        ∧ Forall (fun e : Huffcdic.entry => 1 ≤ e.1.1 ≤ 31) d1).
Proof.
  induction vs as [|v vs IH]; simpl.
  - right. split; [constructor|]. exists []. split; [done | constructor].
  - destruct (dict1_unpack_spec v) as [[Hr ->]|[Hr ->]]; simpl.
    + left. split; [by left | done].
    + destruct IH as [[Hex ->]|[Hall (d1 & -> & Hd1)]]; simpl.
      * left. split; [by right | done].
      * right. split; [by constructor|]. eexists. split; [done|].
        constructor; [|done]. simpl.
        pose proof (land_ones_range v 5) as Hv.
        change (Z.ones 5) with 31 in Hv. change (2 ^ 5) with 32 in Hv.
        unfold Huffcdic.refused in Hr. lia.
Qed.

Lemma loadHuff_header_mismatch self huff :
  take 8 huff ≠ Huffcdic.huff_magic →
  Huffcdic.loadHuff self huff = (Raise (ValueError "invalid huff header"), self).
Proof.
  intros H. unfold Huffcdic.loadHuff.
  rewrite py_slice_head8. by rewrite bool_decide_eq_true_2.
Qed.

Lemma loadCdic_header_mismatch self cdic :
  take 8 cdic ≠ Huffcdic.cdic_magic →
  Huffcdic.loadCdic self cdic = (Raise (ValueError "invalid cdic header"), self).
Proof.
  intros H. unfold Huffcdic.loadCdic.
  rewrite py_slice_head8. by rewrite bool_decide_eq_true_2.
Qed.

(** What [loadHuff] does on a blob that carries the tag. *)
Lemma loadHuff_header_match self huff :
  take 8 huff = Huffcdic.huff_magic →
  (∃ self', Huffcdic.loadHuff self huff = (Raise StructError, self'))
  ∨ (∃ off1 off2 vs,
        unpack_LL huff 8 = Ok (off1, off2)
        ∧ unpack_from 4 256 huff off1 = Ok vs
        ∧ ((Exists Huffcdic.refused vs
            ∧ Huffcdic.loadHuff self huff = (Raise AssertionError, self))
           ∨ (Forall (fun v => ¬ Huffcdic.refused v) vs
              ∧ ((∃ self', Huffcdic.loadHuff self huff = (Raise StructError, self'))
                 ∨ (∃ self', Huffcdic.loadHuff self huff = (Ok (), self')
                      ∧ Huffcdic.dictionary self' = Some []))))).
Proof.
  intros H. unfold Huffcdic.loadHuff.
  rewrite py_slice_head8. rewrite bool_decide_eq_false_2 by (by intros ?).
  pose proof (unpack_LL_raise huff 8) as HLL.
  destruct (unpack_LL huff 8) as [[off1 off2]|e|]; [|subst; left; eexists; reflexivity|done].
  pose proof (unpack_from_raise 4 256 huff off1) as H1.
  destruct (unpack_from 4 256 huff off1) as [vs|e|] eqn:Hvs;
    [|subst; left; eexists; reflexivity|done].
  right. exists off1, off2, vs. split; [done|]. split; [done|]. simpl.
  destruct (py_map_dict1_unpack vs) as [[Hex ->]|[Hall (d1 & -> & _)]].
  { left. by split. }
  right. split; [done|].
  pose proof (unpack_from_raise 4 64 huff off2) as H2.
  destruct (unpack_from 4 64 huff off2) as [dict2|e|];
    [right; eexists; split; reflexivity
    |subst; left; eexists; reflexivity|done].
Qed.

(** On Python 2: [loadHuff] raises the header [ValueError] exactly when
    the first 8 bytes of the blob are not the HUFF tag, [loadCdic] exactly
    when they are not the CDIC tag, and then the object is left as it
    was. *)
Lemma load_header_python2 (self : Huffcdic.t) (blob : bytes) :
  ((∃ msg, (Huffcdic.loadHuff self blob).1 = Raise (ValueError msg))
   ↔ take 8 blob ≠ Huffcdic.huff_magic)
  ∧ (take 8 blob ≠ Huffcdic.huff_magic →
     Huffcdic.loadHuff self blob
     = (Raise (ValueError "invalid huff header"), self))
  ∧ ((∃ msg, (Huffcdic.loadCdic self blob).1 = Raise (ValueError msg))
     ↔ take 8 blob ≠ Huffcdic.cdic_magic)
  ∧ (take 8 blob ≠ Huffcdic.cdic_magic →
     Huffcdic.loadCdic self blob
     = (Raise (ValueError "invalid cdic header"), self)).
Proof.
  split; [|split; [apply loadHuff_header_mismatch|
                   split; [|apply loadCdic_header_mismatch]]].
  - split.
    + intros [msg Hmsg] Heq. revert Hmsg.
      destruct (loadHuff_header_match self blob Heq)
        as [[? ->]|(? & ? & ? & _ & _ & [[_ ->]|[_ [[? ->]|(? & -> & _)]]])];
        done.
    + intros H. rewrite loadHuff_header_mismatch by done. eexists; reflexivity.
  - split.
    + intros [msg Hmsg] Heq. revert Hmsg. unfold Huffcdic.loadCdic.
      rewrite py_slice_head8.
      rewrite bool_decide_eq_false_2 by (by intros ?).
      pose proof (unpack_LL_raise blob 8) as HLL.
      destruct (unpack_LL blob 8) as [[phrases bits]|e|]; [|by subst|done].
      destruct (Huffcdic.dictionary self) as [d|]; [|done].
      match goal with |- context [unpack_from 2 ?n blob 16] =>
        pose proof (unpack_from_raise 2 n blob 16) as Hn;
        destruct (unpack_from 2 n blob 16) as [offs|e|]; [|by subst|done]
      end.
      simpl.
      pose proof (py_map_raise (Huffcdic.getslice blob)
                    (fun e => e = StructError) offs) as Hmap.
      destruct (py_map (Huffcdic.getslice blob) offs); [done| |].
      * rewrite Hmap; [done|]. intros off. unfold Huffcdic.getslice.
        pose proof (h_raise blob (16 + off)).
        by destruct (h blob (16 + off)).
      * destruct Hmap. intros off. unfold Huffcdic.getslice.
        pose proof (h_raise blob (16 + off)).
        by destruct (h blob (16 + off)).
    + intros H. rewrite loadCdic_header_mismatch by done. eexists; reflexivity.
Qed.

Lemma loadHuff_on_python2 py_major self huff :
  py_major < 3 →
  Huffcdic.loadHuff_on py_major self huff = Huffcdic.loadHuff self huff.
Proof.
  intros Hpy. unfold Huffcdic.loadHuff_on, Huffcdic.tag_differs.
  rewrite (proj2 (Z.ltb_lt _ _)) by done.
  case_bool_decide as Htag; [|done].
  rewrite py_slice_head8 in Htag. by rewrite loadHuff_header_mismatch.
Qed.

Lemma loadCdic_on_python2 py_major self cdic :
  py_major < 3 →
  Huffcdic.loadCdic_on py_major self cdic = Huffcdic.loadCdic self cdic.
Proof.
  intros Hpy. unfold Huffcdic.loadCdic_on, Huffcdic.tag_differs.
  rewrite (proj2 (Z.ltb_lt _ _)) by done.
  case_bool_decide as Htag; [|done].
  rewrite py_slice_head8 in Htag. by rewrite loadCdic_header_mismatch.
Qed.

Lemma loadHuff_on_python3 py_major self huff :
  3 ≤ py_major →
  Huffcdic.loadHuff_on py_major self huff
  = (Raise (ValueError "invalid huff header"), self).
Proof.
  intros Hpy. unfold Huffcdic.loadHuff_on, Huffcdic.tag_differs.
  by rewrite (proj2 (Z.ltb_ge _ _)).
Qed.

Lemma loadCdic_on_python3 py_major self cdic :
  3 ≤ py_major →
  Huffcdic.loadCdic_on py_major self cdic
  = (Raise (ValueError "invalid cdic header"), self).
Proof.
  intros Hpy. unfold Huffcdic.loadCdic_on, Huffcdic.tag_differs.
  by rewrite (proj2 (Z.ltb_ge _ _)).
Qed.

(** C5, as the code has it on each interpreter.  [loadHuff] raises the
    header [ValueError] exactly when the interpreter is Python 3 or the
    first 8 bytes of the blob are not the HUFF tag, [loadCdic] exactly
    when the interpreter is Python 3 or they are not the CDIC tag; the
    object is then left as it was.  So on Python 2 the header error means
    a wrong tag, and on Python 3 every record is refused, the ones that
    carry their tag too. *)
Theorem load_header_by_version (py_major : Z) (self : Huffcdic.t) (blob : bytes) :
  ((∃ msg, (Huffcdic.loadHuff_on py_major self blob).1 = Raise (ValueError msg))
   ↔ (3 ≤ py_major ∨ take 8 blob ≠ Huffcdic.huff_magic))
  ∧ (3 ≤ py_major ∨ take 8 blob ≠ Huffcdic.huff_magic →
     Huffcdic.loadHuff_on py_major self blob
     = (Raise (ValueError "invalid huff header"), self))
  ∧ ((∃ msg, (Huffcdic.loadCdic_on py_major self blob).1 = Raise (ValueError msg))
     ↔ (3 ≤ py_major ∨ take 8 blob ≠ Huffcdic.cdic_magic))
  ∧ (3 ≤ py_major ∨ take 8 blob ≠ Huffcdic.cdic_magic →
     Huffcdic.loadCdic_on py_major self blob
     = (Raise (ValueError "invalid cdic header"), self)).
Proof.
  destruct (load_header_python2 self blob) as (Hhuff & Hhuff' & Hcdic & Hcdic').
  destruct (Z.lt_ge_cases py_major 3) as [Hpy|Hpy].
  - rewrite loadHuff_on_python2, loadCdic_on_python2 by done.
    split; [|split; [|split]].
    + rewrite Hhuff. split; [by right | intros [?|?]; [lia | done]].
    + intros [?|?]; [lia | by apply Hhuff'].
    + rewrite Hcdic. split; [by right | intros [?|?]; [lia | done]].
    + intros [?|?]; [lia | by apply Hcdic'].
  - rewrite loadHuff_on_python3, loadCdic_on_python3 by done.
    split; [|split; [|split]]; try done.
    + split; [by left | intros _; by eexists].
    + split; [by left | intros _; by eexists].
Qed.

(** On Python 3, a HUFF record and a CDIC record that carry their tags,
    on an object that holds tables and slots; on Python 2, a record with
    the wrong tag on the same object. *)
Lemma load_header_by_version_witness :
  Huffcdic.loadHuff_on 3 (Sample.loaded (Sample.huff 0xFF88) Sample.cdic2)
    (Sample.huff 0xFF88)
  = (Raise (ValueError "invalid huff header"),
     Sample.loaded (Sample.huff 0xFF88) Sample.cdic2)
  ∧ Huffcdic.loadCdic_on 3 (Sample.loaded (Sample.huff 0xFF88) Sample.cdic2)
      Sample.cdic2
    = (Raise (ValueError "invalid cdic header"),
       Sample.loaded (Sample.huff 0xFF88) Sample.cdic2)
  ∧ Huffcdic.loadHuff_on 2 (Sample.loaded (Sample.huff 0xFF88) Sample.cdic2)
      Sample.cdic2
    = (Raise (ValueError "invalid huff header"),
       Sample.loaded (Sample.huff 0xFF88) Sample.cdic2)
  ∧ Huffcdic.loadCdic_on 2 (Sample.loaded (Sample.huff 0xFF88) Sample.cdic2)
      (Sample.huff 0xFF88)
    = (Raise (ValueError "invalid cdic header"),
       Sample.loaded (Sample.huff 0xFF88) Sample.cdic2).
Proof.
  split; [|split; [|split]].
  - apply (proj1 (proj2 (load_header_by_version 3 _ (Sample.huff 0xFF88)))).
    left. lia.
  - apply (proj2 (proj2 (proj2 (load_header_by_version 3 _ Sample.cdic2)))).
    left. lia.
  - apply (proj1 (proj2 (load_header_by_version 2 _ Sample.cdic2))).
    right. vm_compute. discriminate.
  - apply (proj2 (proj2 (proj2
             (load_header_by_version 2 _ (Sample.huff 0xFF88))))).
    right. vm_compute. discriminate.
Defined.

(** The records that Python 3 refuses are well formed: they carry their
    tags, and Python 2 loads them. *)
Example load_header_python3_refuses_tag :
  take 8 (Sample.huff 0xFF88) = Huffcdic.huff_magic
  ∧ (Huffcdic.loadHuff_on 2 Huffcdic.new (Sample.huff 0xFF88)).1 = Ok ()
  ∧ (Huffcdic.loadHuff_on 3 Huffcdic.new (Sample.huff 0xFF88)).1
    = Raise (ValueError "invalid huff header")
  ∧ take 8 Sample.cdic2 = Huffcdic.cdic_magic
  ∧ (Huffcdic.loadCdic_on 2
       (Huffcdic.loadHuff Huffcdic.new (Sample.huff 0xFF88)).2 Sample.cdic2).1
    = Ok ()
  ∧ (Huffcdic.loadCdic_on 3
       (Huffcdic.loadHuff Huffcdic.new (Sample.huff 0xFF88)).2 Sample.cdic2).1
    = Raise (ValueError "invalid cdic header").
Proof. vm_compute. repeat split; reflexivity. Qed.

(** C10.  A successful [loadHuff] leaves the dictionary empty, whatever it
    held; a successful [loadCdic] appends to the slots that are there; and
    [loadCdic] on an object on which [loadHuff] never ran raises and
    appends nothing. *)
Theorem loadHuff_resets_dictionary :
  (∀ self huff self',
      Huffcdic.loadHuff self huff = (Ok (), self') →
      Huffcdic.dictionary self' = Some [])
  ∧ (∀ self cdic self' d,
      Huffcdic.dictionary self = Some d →
      Huffcdic.loadCdic self cdic = (Ok (), self') →
      ∃ slots, Huffcdic.dictionary self' = Some (d ++ slots))
  ∧ (∀ cdic, ∃ e,
      Huffcdic.loadCdic Huffcdic.new cdic = (Raise e, Huffcdic.new)).
Proof.
  split; [|split].
  - intros self huff self' Hload.
    destruct (decide (take 8 huff = Huffcdic.huff_magic)) as [Heq|Hne].
    + destruct (loadHuff_header_match self huff Heq)
        as [[? H]|(? & ? & ? & _ & _ & [[_ H]|[_ [[? H]|(? & H & Hd)]]])];
        rewrite H in Hload; by simplify_eq.
    + by rewrite loadHuff_header_mismatch in Hload.
  - intros self cdic self' d Hd. unfold Huffcdic.loadCdic. rewrite Hd.
    repeat case_match; intros; simplify_eq. eexists; reflexivity.
  - intros cdic. unfold Huffcdic.loadCdic. simpl.
    case_bool_decide; [eexists; reflexivity|].
    pose proof (unpack_LL_raise cdic 8) as HLL.
    destruct (unpack_LL cdic 8) as [[phrases bits]|e|]; [|eexists; reflexivity|done].
    eexists; reflexivity.
Qed.

Lemma loadHuff_resets_dictionary_witness :
  Huffcdic.dictionary
    (Huffcdic.loadHuff (Sample.loaded (Sample.huff 0x88) Sample.cdic1)
       (Sample.huff 0x88)).2
  = Some []
  ∧ ∃ slots,
      Huffcdic.dictionary (Sample.loaded (Sample.huff 0x88) Sample.cdic1)
      = Some ([] ++ slots).
Proof.
  destruct loadHuff_resets_dictionary as (Hreset & Happend & _). split.
  - by apply (Hreset (Sample.loaded (Sample.huff 0x88) Sample.cdic1)
                (Sample.huff 0x88)).
  - by apply (Happend (Huffcdic.loadHuff Huffcdic.new (Sample.huff 0x88)).2
                Sample.cdic1).
Defined.

(** C3, as the code has it.  On a blob that carries the tag and holds its
    256-entry table, [loadHuff] raises [AssertionError] -- and leaves the
    object as it was -- exactly when some entry of the table has code
    length zero, or has code length at most 8 without the terminal bit. *)
Theorem loadHuff_refuses_entry (self : Huffcdic.t) (huff : bytes) off1 off2 vs :
  take 8 huff = Huffcdic.huff_magic →
  unpack_LL huff 8 = Ok (off1, off2) →
  unpack_from 4 256 huff off1 = Ok vs →
  (Exists Huffcdic.refused vs →
   Huffcdic.loadHuff self huff = (Raise AssertionError, self))
  ∧ (¬ Exists Huffcdic.refused vs →
     (Huffcdic.loadHuff self huff).1 ≠ Raise AssertionError).
Proof.
  intros Heq HLL Hvs.
  destruct (loadHuff_header_match self huff Heq)
    as [[? H]|(o1 & o2 & vs' & HLL' & Hvs' & H)].
  - split; intros Hex.
    + exfalso. revert H. unfold Huffcdic.loadHuff.
      rewrite py_slice_head8.
      rewrite bool_decide_eq_false_2 by (by intros ?).
      rewrite HLL, Hvs. simpl.
      destruct (py_map_dict1_unpack vs) as [[_ ->]|[Hall _]]; [done|].
      destruct (Forall_not_Exists _ _ Hall Hex).
    + by rewrite H.
  - rewrite HLL in HLL'. simplify_eq. rewrite Hvs in Hvs'. simplify_eq.
    destruct H as [[Hex H]|[Hall H]].
    + by split.
    + split; intros Hex.
      * destruct (Forall_not_Exists _ _ Hall Hex).
      * destruct H as [[? ->]|(? & -> & _)]; done.
Qed.

Lemma loadHuff_refuses_entry_witness :
  (Exists Huffcdic.refused (replicate 256 0x08) →
   Huffcdic.loadHuff Huffcdic.new (Sample.huff 0x08)
   = (Raise AssertionError, Huffcdic.new))
  ∧ (¬ Exists Huffcdic.refused (replicate 256 0x08) →
     (Huffcdic.loadHuff Huffcdic.new (Sample.huff 0x08)).1
     ≠ Raise AssertionError).
Proof.
  apply (loadHuff_refuses_entry Huffcdic.new (Sample.huff 0x08) 16 1040);
    reflexivity.
Defined.

(** C3 as stated fails: a table whose entries are all terminal with code
    length 9 is accepted. *)
Lemma loadHuff_accepts_long_terminal :
  let v := 0x89 in
  Z.land v 0x80 ≠ 0 ∧ Z.land v 0x1F = 9
  ∧ unpack_from 4 256 (Sample.huff v) 16 = Ok (replicate 256 v)
  ∧ (Huffcdic.loadHuff Huffcdic.new (Sample.huff v)).1 = Ok ().
Proof. vm_compute. repeat split; discriminate. Qed.

(** ** Huffcdic: the decoder *)

Import Huffcdic.

(** Closes the case in which an iteration has ended the loop. *)
Ltac ends_loop := eexists; split; [|reflexivity]; discriminate.

(** Closes the case in which a step has raised. *)
Ltac ends_raising :=
  eexists; split; [reflexivity|]; split; [discriminate|]; intros; discriminate.

(** A step that neither touches the object nor logs anything. *)
Lemma bind_pure {A B} (m : M A) (k : A → M B) self r :
  m self = (r, self, []) →
  (m ≫= k) self
  = match r with
    | Ok a => k a self
    | Raise e => (Raise e, self, [])
    | OutOfFuel => (OutOfFuel, self, [])
    end.
Proof.
  intros H. unfold mbind, M_bind. rewrite H.
  destruct r; [|done..]. by destruct (k a self) as [[? ?] ?].
Qed.

(** The two ways a sequence of two steps ends. *)
Lemma bind_inv {A B} (m : M A) (k : A → M B) self out self' log :
  (m ≫= k) self = (out, self', log) →
  (∃ a self1 l1 l2,
      m self = (Ok a, self1, l1) ∧ k a self1 = (out, self', l2)
      ∧ log = l1 ++ l2)
  ∨ (m self = (match out with Ok _ => OutOfFuel | Raise e => Raise e
                         | OutOfFuel => OutOfFuel end, self', log)
     ∧ ∀ b, out ≠ Ok b).
Proof.
  unfold mbind, M_bind.
  destruct (m self) as [[[a|e|] self1] l1].
  - destruct (k a self1) as [[r self2] l2] eqn:Hk.
    intros [= <- <- <-]. left. by exists a, self1, l1, l2.
  - intros [= <- <- <-]. by right.
  - intros [= <- <- <-]. by right.
Qed.

Lemma widen_fuel k mins code codelen :
  py_len mins - codelen ≤ Z.of_nat k → widen k mins code codelen ≠ OutOfFuel.
Proof.
  revert codelen. induction k as [|k IH]; intros codelen Hk; simpl.
  - rewrite py_index_above by lia. done.
  - destruct (py_index mins codelen); [|done].
    destruct (code <? z); [|done]. apply IH. lia.
Qed.

Lemma widen_ge k mins code codelen c :
  widen k mins code codelen = Ok c → codelen ≤ c.
Proof.
  revert codelen. induction k as [|k IH]; intros codelen; simpl.
  - repeat case_match; intros; simplify_eq. lia.
  - repeat case_match; intros; simplify_eq; [|lia].
    match goal with H : widen _ _ _ _ = _ |- _ => apply IH in H end. lia.
Qed.

Lemma getitem_pure {A} (l : list A) k self :
  getitem l k self
  = (match py_index l k with Some a => Ok a | None => Raise IndexError end,
     self, []).
Proof. unfold getitem. by destruct (py_index l k). Qed.

(** The table lookup reads the object only, always ends, and never
    shortens the code length the fast table gives. *)
Lemma lookup_code_pure code self :
  ∃ r, lookup_code code self = (r, self, []) ∧ r ≠ OutOfFuel
    ∧ ∀ d1, dict1 self = Some d1 →
        Forall (fun e : entry => 1 ≤ e.1.1) d1 →
        ∀ codelen maxc, r = Ok (codelen, maxc) → 1 ≤ codelen.
Proof.
  unfold lookup_code.
  rewrite (bind_pure _ _ self (attribute (dict1 self))) by done.
  destruct (dict1 self) as [d1|] eqn:Hd1; simpl; [|ends_raising].
  rewrite (bind_pure _ _ self _ (getitem_pure _ _ _)).
  match goal with |- context [py_index ?l ?k] =>
    destruct (py_index l k) as [[[codelen term] maxc]|] eqn:Hi;
      [|ends_raising]
  end.
  assert (Forall (fun e : entry => 1 ≤ e.1.1) d1 → 1 ≤ codelen) as Hlen.
  { intros Hall. rewrite Forall_forall in Hall.
    apply (Hall (codelen, term, maxc)).
    pose proof (py_index_Some_range _ _ _ Hi).
    rewrite py_index_position in Hi by done.
    by apply list_elem_of_lookup_2 in Hi. }
  destruct (term =? 0).
  2:{ eexists. split; [reflexivity|]. split; [done|].
      intros; simplify_eq; auto. }
  rewrite (bind_pure _ _ self (attribute (mincode self))) by done.
  destruct (mincode self) as [mins|]; simpl; [|ends_raising].
  rewrite (bind_pure _ _ self (widen (length mins + Z.abs_nat codelen)
                                 mins code codelen)) by done.
  pose proof (widen_fuel (length mins + Z.abs_nat codelen) mins code codelen)
    as Hw.
  pose proof (widen_ge (length mins + Z.abs_nat codelen) mins code codelen)
    as Hge.
  destruct (widen _ mins code codelen) as [c| |];
    [|ends_raising|destruct Hw; [unfold py_len; lia | done]].
  rewrite (bind_pure _ _ self (attribute (maxcode self))) by done.
  destruct (maxcode self) as [maxs|]; simpl; [|ends_raising].
  rewrite (bind_pure _ _ self _ (getitem_pure _ _ _)).
  destruct (py_index maxs c); [|ends_raising].
  eexists. split; [reflexivity|]. split; [done|].
  intros; simplify_eq. specialize (Hge _ eq_refl).
  match goal with H : Forall _ _ |- _ => apply Hlen in H end. lia.
Qed.

Lemma reload_not_OutOfFuel data pos x n : reload data pos x n ≠ OutOfFuel.
Proof.
  unfold reload. destruct (n <=? 0); [|done].
  pose proof (q_raise data (pos + 4)). by destruct (q data (pos + 4)).
Qed.

(** Reading the next code leaves the object alone, always ends, and
    takes the code length off the bit counter. *)
Lemma next_code_pure data bitsleft pos x n self :
  ∃ r, next_code data bitsleft pos x n self = (r, self, []) ∧ r ≠ OutOfFuel
    ∧ ∀ pos' x' n' bitsleft' code codelen maxc,
        r = Ok (pos', x', n', bitsleft', code, codelen, maxc) →
        bitsleft' = bitsleft - codelen
        ∧ ∀ d1, dict1 self = Some d1 →
            Forall (fun e : entry => 1 ≤ e.1.1) d1 → 1 ≤ codelen.
Proof.
  unfold next_code.
  rewrite (bind_pure _ _ self (reload data pos x n)) by done.
  pose proof (reload_not_OutOfFuel data pos x n).
  destruct (reload data pos x n) as [[[pos1 x1] n1]|e|]; [|ends_raising|done].
  rewrite (bind_pure _ _ self (py_rshift x1 n1)) by done.
  unfold py_rshift. destruct (n1 <? 0); [ends_raising|].
  destruct (lookup_code_pure (Z.land (x1 ≫ n1) (1 ≪ 32 - 1)) self)
    as (r & Hr & Hfuel & Hlen).
  rewrite (bind_pure _ _ self r) by done.
  destruct r as [[codelen maxc]|e|]; [|ends_raising|done].
  eexists. split; [reflexivity|]. split; [done|].
  intros; simplify_eq. split; [done|]. eauto.
Qed.

(** One iteration, from the slot fetch on: what the loop does once the
    next code is read, the bit counter is still non-negative and the
    index [r] is computed. *)
Lemma unpack_loop_fetch fuel data bitsleft pos x n s self
      pos' x' n' bitsleft' code codelen maxc r d :
  next_code data bitsleft pos x n self
  = (Ok (pos', x', n', bitsleft', code, codelen, maxc), self, []) →
  0 ≤ bitsleft' →
  slot_index code codelen maxc = Ok r →
  dictionary self = Some d →
  unpack_loop (S fuel) data bitsleft pos x n s self
  = match py_index d r with
    | None => (Raise IndexError, self, [])
    | Some None => (Raise TypeError, self, [])
    | Some (Some (slice, flag)) =>
        (resolve (unpack fuel) d r slice flag
         ≫= fun slice => unpack_loop fuel data bitsleft' pos' x' n' (s ++ slice))
          self
    end.
Proof.
  intros Hnext Hbits Hr Hd. simpl.
  rewrite (bind_pure _ _ self _ Hnext).
  rewrite (proj2 (Z.ltb_ge _ _)) by done.
  rewrite (bind_pure _ _ self (slot_index code codelen maxc)) by done.
  rewrite Hr.
  rewrite (bind_pure _ _ self (attribute (dictionary self))) by done.
  rewrite Hd. simpl.
  rewrite (bind_pure _ _ self _ (getitem_pure _ _ _)).
  destruct (py_index d r) as [[[slice flag]|]|]; done.
Qed.

Lemma unpack_loop_stop fuel data bitsleft pos x n s self
      pos' x' n' bitsleft' code codelen maxc :
  next_code data bitsleft pos x n self
  = (Ok (pos', x', n', bitsleft', code, codelen, maxc), self, []) →
  bitsleft' < 0 →
  unpack_loop (S fuel) data bitsleft pos x n s self = (Ok s, self, []).
Proof.
  intros Hnext Hbits. simpl. rewrite (bind_pure _ _ self _ Hnext).
  by rewrite (proj2 (Z.ltb_lt _ _)).
Qed.

(** A reference to a resolved slot appends the stored bytes; the object
    is not touched and the decoder is not called. *)
Lemma unpack_loop_resolved fuel data bitsleft pos x n s self
      pos' x' n' bitsleft' code codelen maxc r d slice flag :
  next_code data bitsleft pos x n self
  = (Ok (pos', x', n', bitsleft', code, codelen, maxc), self, []) →
  0 ≤ bitsleft' →
  slot_index code codelen maxc = Ok r →
  dictionary self = Some d →
  py_index d r = Some (Some (slice, flag)) → flag ≠ 0 →
  unpack_loop (S fuel) data bitsleft pos x n s self
  = unpack_loop fuel data bitsleft' pos' x' n' (s ++ slice) self.
Proof.
  intros Hnext Hbits Hr Hd Hi Hflag.
  rewrite (unpack_loop_fetch _ _ _ _ _ _ _ _ _ _ _ _ _ _ _ _ _
             Hnext Hbits Hr Hd), Hi.
  unfold resolve. rewrite (proj2 (Z.eqb_neq _ _)) by done.
  by rewrite (bind_pure _ _ self (Ok slice)).
Qed.

(** With code lengths of at least one and all slots resolved, the loop
    ends within [bitsleft + 1] iterations and leaves the object alone;
    what it returns is what it had, followed by stored slices. *)
Lemma unpack_loop_resolved_ends fuel :
  ∀ data bitsleft pos x n s self d1 d,
    dict1 self = Some d1 → Forall (fun e : entry => 1 ≤ e.1.1) d1 →
    dictionary self = Some d → all_resolved d →
    0 ≤ bitsleft < Z.of_nat fuel →
    ∃ out, unpack_loop fuel data bitsleft pos x n s self = (out, self, [])
      ∧ out ≠ OutOfFuel
      ∧ ∀ s', out = Ok s' →
          ∃ chunks, s' = s ++ mjoin chunks
            ∧ Forall (fun c => ∃ f, Some (c, f) ∈ d) chunks
            ∧ Z.of_nat (length chunks) ≤ bitsleft.
Proof.
  induction fuel as [|fuel IH];
    intros data bitsleft pos x n s self d1 d Hd1 Hlen Hd Hres Hfuel; [lia|].
  destruct (next_code_pure data bitsleft pos x n self) as (r & Hnext & Hr & Hcode).
  destruct r as [[[[[[[pos' x'] n'] bitsleft'] code] codelen] maxc]|e|];
    [|simpl; rewrite (bind_pure _ _ self _ Hnext); ends_raising|done].
  destruct (Hcode _ _ _ _ _ _ _ eq_refl) as [-> Hcodelen].
  specialize (Hcodelen _ Hd1 Hlen).
  destruct (Z.ltb_spec (bitsleft - codelen) 0) as [Hneg|Hpos].
  { rewrite (unpack_loop_stop _ _ _ _ _ _ _ _ _ _ _ _ _ _ _ Hnext Hneg).
    eexists. split; [reflexivity|]. split; [done|].
    intros s' [= <-]. exists []. simpl. rewrite app_nil_r.
    split; [done|]. split; [constructor | lia]. }
  destruct (slot_index code codelen maxc) as [r| |] eqn:Hidx.
  2,3: (simpl; rewrite (bind_pure _ _ self _ Hnext);
        rewrite (proj2 (Z.ltb_ge _ _)) by done;
        rewrite (bind_pure _ _ self (slot_index code codelen maxc)) by done;
        rewrite Hidx; unfold slot_index, py_rshift in Hidx; repeat case_match;
        simplify_eq; ends_raising).
  rewrite (unpack_loop_fetch _ _ _ _ _ _ _ _ _ _ _ _ _ _ _ _ _
             Hnext Hpos Hidx Hd).
  destruct (py_index d r) as [sl|] eqn:Hi; [|ends_raising].
  pose proof (py_index_Some_range _ _ _ Hi) as Hrange.
  rewrite py_index_position in Hi by done.
  apply list_elem_of_lookup_2 in Hi.
  destruct (proj1 (Forall_forall _ _) Hres _ Hi) as (slice & flag & -> & Hflag).
  unfold resolve. rewrite (proj2 (Z.eqb_neq _ _)) by done.
  rewrite (bind_pure _ _ self (Ok slice)) by done.
  destruct (IH data (bitsleft - codelen) pos' x' n' (s ++ slice) self d1 d)
    as (out & Hloop & Hout & Hs); [done..|lia|].
  exists out. split; [done|]. split; [done|].
  intros s' Hs'. destruct (Hs _ Hs') as (chunks & -> & Hchunks & Hcount).
  exists (slice :: chunks). simpl. rewrite <- app_assoc.
  split; [done|]. split; [|lia].
  constructor; [by exists flag | done].
Qed.

(** *** More fuel does not change a result *)

Lemma refines_refl {A} (m : M A) : refines m m.
Proof. by intros self out self' log H _. Qed.

Lemma refines_bind {A B} (m m' : M A) (k k' : A → M B) :
  refines m m' → (∀ a, refines (k a) (k' a)) →
  refines (m ≫= k) (m' ≫= k').
Proof.
  intros Hm Hk self out self' log. unfold mbind, M_bind.
  destruct (m self) as [[r self1] l1] eqn:Hrun.
  destruct r as [a|e|].
  - rewrite (Hm _ _ _ _ Hrun) by done.
    destruct (k a self1) as [[r2 self2] l2] eqn:Hrun2.
    intros [= <- <- <-] Hout. by rewrite (Hk a _ _ _ _ Hrun2).
  - rewrite (Hm _ _ _ _ Hrun) by done. done.
  - by intros [= <- <- <-].
Qed.

Lemma unpack_loop_fuel_mono fuel fuel' data bitsleft pos x n s :
  (fuel ≤ fuel')%nat →
  refines (unpack_loop fuel data bitsleft pos x n s)
          (unpack_loop fuel' data bitsleft pos x n s).
Proof.
  revert fuel' data bitsleft pos x n s.
  induction fuel as [|fuel IH]; intros fuel' data bitsleft pos x n s Hle.
  { by intros self out self' log [= <- <- <-]. }
  destruct fuel' as [|fuel']; [lia|]. simpl.
  apply refines_bind; [apply refines_refl|].
  intros [[[[[[pos' x'] n'] bitsleft'] code] codelen] maxc].
  destruct (bitsleft' <? 0); [apply refines_refl|].
  apply refines_bind; [apply refines_refl|]. intros r.
  apply refines_bind; [apply refines_refl|]. intros d.
  apply refines_bind; [apply refines_refl|]. intros [[slice flag]|];
    [|apply refines_refl].
  apply refines_bind; [|intros slice'; apply IH; lia].
  unfold resolve. destruct (flag =? 0); [|apply refines_refl].
  apply refines_bind; [apply refines_refl|]. intros _.
  apply refines_bind; [apply refines_refl|]. intros _.
  apply refines_bind; [|intros slice'; apply refines_refl].
  unfold unpack_with.
  apply refines_bind; [apply refines_refl|]. intros x0. apply IH. lia.
Qed.

Lemma unpack_fuel_mono fuel fuel' data :
  (fuel ≤ fuel')%nat → refines (unpack fuel data) (unpack fuel' data).
Proof.
  intros Hle. unfold unpack, unpack_with.
  apply refines_bind; [apply refines_refl|]. intros x0.
  by apply unpack_loop_fuel_mono.
Qed.

Lemma unpack_start data :
  ∃ x, q (data ++ zeros8) 0 = Ok x.
Proof.
  unfold q, unpack_from. simpl.
  rewrite py_len_app. unfold py_len at 2. simpl.
  pose proof (py_len_nonneg data).
  rewrite (proj2 (Z.ltb_ge _ _)) by lia. by eexists.
Qed.

(** C7, as the code has it.  On an object whose fast table has code
    lengths of at least one and whose dictionary slots are all resolved,
    [unpack] ends within [8 * len(data) + 1] iterations of its loop, with
    the object untouched and no recursive call: either the bit counter went
    negative and it returns the slices appended so far, at most one per
    bit of [data], or a lookup raised.  More fuel gives the same result. *)
Theorem unpack_resolved_ends (self : t) (data : bytes) d1 d :
  dict1 self = Some d1 → Forall (fun e : entry => 1 ≤ e.1.1) d1 →
  dictionary self = Some d → all_resolved d →
  ∃ out, out ≠ OutOfFuel
    ∧ (∀ fuel, (8 * length data + 1 ≤ fuel)%nat →
         unpack fuel data self = (out, self, []))
    ∧ ∀ s, out = Ok s →
        ∃ chunks, s = mjoin chunks
          ∧ Forall (fun c => ∃ f, Some (c, f) ∈ d) chunks
          ∧ (length chunks ≤ 8 * length data)%nat.
Proof.
  intros Hd1 Hlen Hd Hres.
  destruct (unpack_start data) as [x0 Hx0].
  destruct (unpack_loop_resolved_ends (8 * length data + 1)
              (data ++ zeros8) (py_len data * 8) 0 x0 32 [] self d1 d)
    as (out & Hrun & Hout & Hs); [done..|unfold py_len; lia|].
  assert (unpack (8 * length data + 1) data self = (out, self, [])) as Hunpack.
  { unfold unpack, unpack_with.
    rewrite (bind_pure _ _ self (q (data ++ zeros8) 0)) by done.
    by rewrite Hx0. }
  exists out. split; [done|]. split.
  - intros fuel Hfuel.
    by apply (unpack_fuel_mono (8 * length data + 1) fuel data Hfuel).
  - intros s Hs'. destruct (Hs _ Hs') as (chunks & -> & Hchunks & Hcount).
    exists chunks. split; [done|]. split; [done|]. unfold py_len in Hcount. lia.
Qed.

Lemma unpack_resolved_ends_witness :
  ∃ out, out ≠ OutOfFuel
    ∧ (∀ fuel, (8 * length [xff]%byte + 1 ≤ fuel)%nat →
         unpack fuel [xff]%byte (Sample.loaded (Sample.huff 0xFF88) Sample.cdic1)
         = (out, Sample.loaded (Sample.huff 0xFF88) Sample.cdic1, []))
    ∧ ∀ s, out = Ok s →
        ∃ chunks, s = mjoin chunks
          ∧ Forall (fun c => ∃ f, Some (c, f) ∈ [Some (["Z"]%byte, 0x8000)])
              chunks
          ∧ (length chunks ≤ 8 * length [xff]%byte)%nat.
Proof.
  apply (unpack_resolved_ends
           (Sample.loaded (Sample.huff 0xFF88) Sample.cdic1) [xff]%byte
           (replicate 256 (8, 0x80, 0xFFFFFFFF))
           [Some (["Z"]%byte, 0x8000)]).
  - vm_compute. reflexivity.
  - apply Forall_replicate. simpl. lia.
  - vm_compute. reflexivity.
  - constructor; [|constructor]. exists ["Z"]%byte, 0x8000. split; [reflexivity|lia].
Defined.

(** C7 as stated fails: right after [loadHuff] the dictionary is empty
    (so no slot is unresolved), every code length is 8, and [unpack] of a
    one-byte record leaves its loop by [IndexError] in the first
    iteration: it returns nothing. *)
Lemma unpack_raises_on_missing_slot :
  let self := (loadHuff new (Sample.huff 0x88)).2 in
  dict1 self = Some (replicate 256 (8, 0x80, 0x00FFFFFF))
  ∧ dictionary self = Some []
  ∧ all_resolved []
  ∧ unpack (8 * 1 + 1) [x00]%byte self = (Raise IndexError, self, []).
Proof.
  repeat split; try (vm_compute; reflexivity). constructor.
Qed.




(** *** Each slot is decoded at most once *)

Lemma py_setitem_position {A} (l : list A) k v :
  - py_len l ≤ k < py_len l →
  py_setitem l k v = Some (<[position (py_len l) k := v]> l).
Proof.
  intros Hk. unfold py_setitem, position. destruct (Z.ltb_spec k 0).
  - rewrite (proj2 (Z.leb_gt 0 k)) by done. simpl.
    by rewrite (proj2 (Z.leb_le _ _)) by lia.
  - rewrite (proj2 (Z.leb_le 0 k)), (proj2 (Z.ltb_lt k _)) by lia. done.
Qed.

Lemma position_lt n k : - n ≤ k < n → (position n k < Z.to_nat n)%nat.
Proof. unfold position. intros. case_match; lia. Qed.

Lemma unresolved_not_resolved d k :
  unresolved d k → ¬ (d !! k = Some None ∨ resolved_by_unpack d k).
Proof. intros [b Hb] [H|[b' H]]; rewrite Hb in H; done. Qed.

Lemma decoded_once_refl d : decoded_once d [] d.
Proof.
  repeat split; [constructor|..]; intros k Hk; try done;
    by apply not_elem_of_nil in Hk.
Qed.

Lemma decoded_once_trans d l1 d1 l2 d2 :
  decoded_once d l1 d1 → decoded_once d1 l2 d2 →
  decoded_once d (l1 ++ l2) d2.
Proof.
  intros (Hlen1 & Hnd1 & Hun1 & Hout1 & Hin1) (Hlen2 & Hnd2 & Hun2 & Hout2 & Hin2).
  assert (∀ k, k ∈ l1 → k ∉ l2) as Hdisj.
  { intros k Hk1 Hk2. by apply (unresolved_not_resolved d1 k); auto. }
  repeat split.
  - congruence.
  - apply NoDup_app. by repeat split.
  - intros k [Hk|Hk]%elem_of_app; [auto|].
    destruct (Hun2 k Hk) as [b Hb]. exists b. rewrite <- Hout1; [done|].
    intros Hk1. by apply (Hdisj k).
  - intros k Hk. rewrite not_elem_of_app in Hk. destruct Hk.
    rewrite Hout2, Hout1; done.
  - intros k [Hk|Hk]%elem_of_app; [|auto].
    unfold resolved_by_unpack. rewrite Hout2 by auto. auto.
Qed.

Lemma resolved_by_unpack_kept d1 l2 d2 k :
  decoded_once d1 l2 d2 → resolved_by_unpack d1 k → resolved_by_unpack d2 k.
Proof.
  intros (_ & _ & Hun & Hout & _) Hk. unfold resolved_by_unpack.
  rewrite Hout; [done|]. intros Hin.
  apply (unresolved_not_resolved d1 k); auto.
Qed.

Lemma same_tables_refl self : same_tables self self.
Proof. by repeat split. Qed.

Lemma same_tables_trans self1 self2 self3 :
  same_tables self1 self2 → same_tables self2 self3 → same_tables self1 self3.
Proof. intros (? & ? & ?) (? & ? & ?). repeat split; congruence. Qed.

Lemma same_tables_set_dictionary self d :
  same_tables self (set_dictionary self d).
Proof. by repeat split. Qed.

Lemma once_at_pure {A} (m : M A) self r : m self = (r, self, []) → once_at self m.
Proof.
  intros Hm out self' log Hrun. rewrite Hm in Hrun. simplify_eq.
  split; [apply same_tables_refl|]. intros d Hd.
  exists d. split; [done|]. split; [apply decoded_once_refl|].
  intros a _ k Hk. by apply not_elem_of_nil in Hk.
Qed.

Lemma once_at_ext {A} (m m' : M A) self :
  m self = m' self → once_at self m' → once_at self m.
Proof. intros Heq Hm out self' log Hrun. rewrite Heq in Hrun. eauto. Qed.

Lemma once_at_bind {A B} (m : M A) (k : A → M B) self :
  once_at self m →
  (∀ a self1 l1, m self = (Ok a, self1, l1) → once_at self1 (k a)) →
  once_at self (m ≫= k).
Proof.
  intros Hm Hk out self' log Hrun.
  apply bind_inv in Hrun
    as [(a & self1 & l1 & l2 & Hm1 & Hk1 & ->)|[Hm1 Hout]].
  - destruct (Hm _ _ _ Hm1) as (Ht1 & Hslots1).
    destruct (Hk a self1 l1 Hm1 _ _ _ Hk1) as (Ht2 & Hslots2).
    split; [by eapply same_tables_trans|]. intros d Hd.
    destruct (Hslots1 d Hd) as (d1 & Hd1 & Honce1 & Hres1).
    destruct (Hslots2 d1 Hd1) as (d2 & Hd2 & Honce2 & Hres2).
    exists d2. split; [done|]. split; [by eapply decoded_once_trans|].
    intros b Hb j [Hj|Hj]%elem_of_app; [|eauto].
    eapply resolved_by_unpack_kept; eauto.
  - destruct (Hm _ _ _ Hm1) as (Ht1 & Hslots1).
    split; [done|]. intros d Hd.
    destruct (Hslots1 d Hd) as (d1 & Hd1 & Honce1 & _).
    exists d1. split; [done|]. split; [done|].
    intros b Hb. by destruct (Hout b).
Qed.

(** Lines 141-144 on a slot found at [self.dictionary[r]]. *)
Lemma once_at_resolve (rec : bytes → M bytes) self d r slice flag :
  dictionary self = Some d →
  py_index d r = Some (Some (slice, flag)) →
  (∀ self0, once_at self0 (rec slice)) →
  once_at self (resolve rec d r slice flag).
Proof.
  intros Hd Hi Hrec. unfold resolve.
  destruct (Z.eqb_spec flag 0) as [->|Hflag]; [|by eapply once_at_pure].
  pose proof (py_index_Some_range _ _ _ Hi) as Hrange.
  rewrite py_index_position in Hi by done.
  set (k := position (py_len d) r) in *.
  assert (k < length d)%nat as Hk.
  { pose proof (position_lt (py_len d) r Hrange). unfold py_len in *. lia. }
  intros out self' log Hrun.
  cut (same_tables self self'
       ∧ ∃ d', dictionary self' = Some d'
           ∧ decoded_once d log d'
           ∧ (∀ a, out = Ok a → ∀ k, k ∈ log → resolved_by_unpack d' k)).
  { intros [Ht Hslots]. split; [done|]. intros d' Hd'.
    by assert (d' = d) as -> by congruence. }
  set (d0 := <[k := None]> d).
  set (self0 := set_dictionary self d0).
  assert (dictionary_setitem r None self = (Ok (), self0, [])) as Hset.
  { unfold dictionary_setitem. rewrite Hd. by rewrite py_setitem_position. }
  assert (decoded_once d [k] d0) as Hbegin.
  { repeat split.
    - apply length_insert.
    - apply NoDup_singleton.
    - intros j ->%list_elem_of_singleton. by exists slice.
    - intros j Hj. apply list_lookup_insert_ne.
      intros ->. apply Hj. by apply list_elem_of_singleton.
    - intros j ->%list_elem_of_singleton. left.
      by apply list_lookup_insert_eq. }
  unfold mbind, M_bind in Hrun. rewrite Hset in Hrun.
  unfold decoding in Hrun.
  destruct (rec slice self0) as [[rr self1] l1] eqn:Hrr.
  destruct (Hrec self0 rr self1 l1 Hrr) as (Ht1 & Hslots1).
  destruct (Hslots1 d0 eq_refl) as (d1 & Hd1 & Honce1 & Hres1).
  pose proof (decoded_once_trans _ _ _ _ _ Hbegin Honce1) as Honce.
  assert (same_tables self self1) as Ht
    by (eapply same_tables_trans; [apply same_tables_set_dictionary|done]).
  destruct rr as [slice'|e|].
  2,3: (simpl in Hrun; simplify_eq; split; [done|]; exists d1;
        split; [done|]; split; [done|]; intros; done).
  assert (length d1 = length d) as Hlen1.
  { destruct Honce1 as [-> _]. apply length_insert. }
  assert (dictionary_setitem r (Some (slice', 1)) self1
          = (Ok (), set_dictionary self1 (<[k := Some (slice', 1)]> d1), []))
    as Hset'.
  { unfold dictionary_setitem. rewrite Hd1.
    rewrite py_setitem_position by (unfold py_len in *; lia).
    unfold k, py_len. by rewrite Hlen1. }
  rewrite Hset' in Hrun. simpl in Hrun. simplify_eq.
  rewrite ?app_nil_r.
  split; [eapply same_tables_trans; [done|apply same_tables_set_dictionary]|].
  exists (<[k := Some (slice', 1)]> d1). split; [done|].
  destruct Honce as (Hlen & Hnd & Hun & Hout & Hin).
  assert (∀ j, j ∈ [k] ++ l1 → resolved_by_unpack (<[k:=Some (slice', 1)]> d1) j)
    as Hres.
  { intros j Hj. unfold resolved_by_unpack.
    destruct (decide (j = k)) as [->|Hne].
    - exists slice'. apply list_lookup_insert_eq. lia.
    - rewrite list_lookup_insert_ne by done.
      apply (Hres1 slice' eq_refl).
      apply elem_of_app in Hj as [Hj%list_elem_of_singleton|Hj]; done. }
  split; [|intros a _ j Hj; by apply Hres].
  split; [by rewrite length_insert|]. split; [done|]. split; [done|].
  split; [|intros j Hj; right; by apply Hres].
  intros j Hj. rewrite list_lookup_insert_ne; [by apply Hout|].
  intros ->. apply Hj. by left.
Qed.

(** The two ways an iteration goes, whatever fuel is left: it ends the
    loop without touching the object, or it fetches a slot and goes on
    with a bit counter that is still non-negative and, on a table with
    code lengths of at least one, smaller than before. *)
Lemma unpack_loop_cases data bitsleft pos x n s self :
  (∃ out, out ≠ OutOfFuel
     ∧ ∀ fuel,
         unpack_loop (S fuel) data bitsleft pos x n s self = (out, self, []))
  ∨ (∃ pos' x' n' bitsleft' d r slice flag,
       dictionary self = Some d
       ∧ py_index d r = Some (Some (slice, flag))
       ∧ 0 ≤ bitsleft'
       ∧ (table_ok self → bitsleft' < bitsleft)
       ∧ ∀ fuel,
           unpack_loop (S fuel) data bitsleft pos x n s self
           = (resolve (unpack fuel) d r slice flag
              ≫= fun slice =>
                   unpack_loop fuel data bitsleft' pos' x' n' (s ++ slice))
               self).
Proof.
  destruct (next_code_pure data bitsleft pos x n self)
    as (r & Hnext & Hr & Hcode).
  destruct r as [[[[[[[pos' x'] n'] bitsleft'] code] codelen] maxc]|e|];
    [|left; exists (Raise e); split; [done|]; intros fuel; simpl;
      by rewrite (bind_pure _ _ self _ Hnext)
     |done].
  destruct (Z.ltb_spec bitsleft' 0) as [Hneg|Hpos].
  { left. exists (Ok s). split; [done|]. intros fuel.
    apply (unpack_loop_stop _ _ _ _ _ _ _ _ _ _ _ _ _ _ _ Hnext Hneg). }
  destruct (slot_index code codelen maxc) as [r| |] eqn:Hidx.
  3: by (unfold slot_index, py_rshift in Hidx; case_match).
  2:{ left. exists (Raise e). split; [done|]. intros fuel. simpl.
      rewrite (bind_pure _ _ self _ Hnext).
      rewrite (proj2 (Z.ltb_ge _ _)) by done.
      rewrite (bind_pure _ _ self (slot_index code codelen maxc)) by done.
      by rewrite Hidx. }
  destruct (dictionary self) as [d|] eqn:Hd.
  2:{ left. exists (Raise AttributeError). split; [done|]. intros fuel. simpl.
      rewrite (bind_pure _ _ self _ Hnext).
      rewrite (proj2 (Z.ltb_ge _ _)) by done.
      rewrite (bind_pure _ _ self (slot_index code codelen maxc)) by done.
      rewrite Hidx.
      rewrite (bind_pure _ _ self (attribute (dictionary self))) by done.
      by rewrite Hd. }
  destruct (py_index d r) as [[[slice flag]|]|] eqn:Hi.
  - right. exists pos', x', n', bitsleft', d, r, slice, flag.
    split; [done|]. split; [done|]. split; [done|]. split.
    + intros (d1 & Hd1 & Htable).
      destruct (Hcode _ _ _ _ _ _ _ eq_refl) as [-> Hlen].
      specialize (Hlen d1 Hd1 Htable). lia.
    + intros fuel.
      rewrite (unpack_loop_fetch _ _ _ _ _ _ _ _ _ _ _ _ _ _ _ _ _
                 Hnext Hpos Hidx Hd).
      by rewrite Hi.
  - left. exists (Raise TypeError). split; [done|]. intros fuel.
    rewrite (unpack_loop_fetch _ _ _ _ _ _ _ _ _ _ _ _ _ _ _ _ _
               Hnext Hpos Hidx Hd). by rewrite Hi.
  - left. exists (Raise IndexError). split; [done|]. intros fuel.
    rewrite (unpack_loop_fetch _ _ _ _ _ _ _ _ _ _ _ _ _ _ _ _ _
               Hnext Hpos Hidx Hd). by rewrite Hi.
Qed.

Lemma unpack_loop_once fuel :
  ∀ data bitsleft pos x n s self,
    once_at self (unpack_loop fuel data bitsleft pos x n s).
Proof.
  induction fuel as [|fuel IH]; intros data bitsleft pos x n s self.
  { by eapply once_at_pure. }
  destruct (unpack_loop_cases data bitsleft pos x n s self)
    as [(out & _ & Hrun)
       |(pos' & x' & n' & bitsleft' & d & r & slice & flag
         & Hd & Hi & _ & _ & Hrun)].
  { eapply once_at_pure. apply Hrun. }
  eapply once_at_ext; [apply Hrun|].
  apply once_at_bind; [|intros; apply IH].
  apply (once_at_resolve _ _ _ _ _ _ Hd Hi).
  intros self0. unfold unpack, unpack_with.
  apply once_at_bind; [by eapply once_at_pure | intros; apply IH].
Qed.

Lemma unpack_once fuel data self : once_at self (unpack fuel data).
Proof.
  unfold unpack, unpack_with.
  apply once_at_bind; [by eapply once_at_pure | intros; apply unpack_loop_once].
Qed.


(** The first reference to an unresolved slot: the slot is set to [None],
    [unpack] runs on the stored bytes, and its result replaces the slot
    with the flag set. *)
Lemma resolve_unresolved (rec : bytes → M bytes) self d r slice
      slice' self1 l1 d1 :
  dictionary self = Some d →
  py_index d r = Some (Some (slice, 0)) →
  rec slice (set_dictionary self (<[position (py_len d) r := None]> d))
  = (Ok slice', self1, l1) →
  dictionary self1 = Some d1 → length d1 = length d →
  resolve rec d r slice 0 self
  = (Ok slice',
     set_dictionary self1 (<[position (py_len d) r := Some (slice', 1)]> d1),
     position (py_len d) r :: l1).
Proof.
  intros Hd Hi Hrec Hd1 Hlen.
  pose proof (py_index_Some_range _ _ _ Hi) as Hrange.
  unfold resolve. simpl. unfold mbind, M_bind, dictionary_setitem at 1.
  rewrite Hd, py_setitem_position by done. unfold decoding. rewrite Hrec.
  unfold dictionary_setitem. rewrite Hd1.
  rewrite py_setitem_position by (unfold py_len in *; lia).
  simpl. rewrite !app_nil_r. unfold py_len. by rewrite Hlen.
Qed.



(** Two records that refer to the same unresolved slot: one recursive
    call, on the slot at position 1, which then holds [(b"A", 1)]. *)
Example unpack_records_memoized :
  let self := Sample.loaded (Sample.huff 0xFF88) Sample.cdic2 in
  let '(out, self', log) :=
    unpack_records 10 [[xfe]; [xfe; xff]]%byte self in
  dictionary self = Some [Some (["A"]%byte, 0x8000); Some ([xff]%byte, 0)]
  ∧ out = Ok [["A"]; ["A"; "A"]]%byte
  ∧ dictionary self' = Some [Some (["A"]%byte, 0x8000); Some (["A"]%byte, 1)]
  ∧ log = [1%nat].
Proof. vm_compute. repeat split; reflexivity. Qed.

(** *** [unpack] ends on every record *)

Lemma bind_Ok {A B} (m : M A) (k : A → M B) self a self1 l1 out self' l2 :
  m self = (Ok a, self1, l1) → k a self1 = (out, self', l2) →
  (m ≫= k) self = (out, self', l1 ++ l2).
Proof. intros Hm Hk. unfold mbind, M_bind. by rewrite Hm, Hk. Qed.

Lemma bind_Raise {A B} (m : M A) (k : A → M B) self e self1 l1 :
  m self = (Raise e, self1, l1) → (m ≫= k) self = (Raise e, self1, l1).
Proof. intros Hm. unfold mbind, M_bind. by rewrite Hm. Qed.

Lemma unpack_unfold data :
  ∃ x, ∀ fuel self,
    unpack fuel data self
    = unpack_loop fuel (data ++ zeros8) (py_len data * 8) 0 x 32 [] self.
Proof.
  destruct (unpack_start data) as [x Hx]. exists x. intros fuel self.
  unfold unpack, unpack_with.
  rewrite (bind_pure _ _ self (q (data ++ zeros8) 0)) by done. by rewrite Hx.
Qed.

(** The call on an unresolved slot raises: the slot stays [None]. *)
Lemma resolve_raise (rec : bytes → M bytes) self d r slice e self1 l1 :
  dictionary self = Some d →
  py_index d r = Some (Some (slice, 0)) →
  rec slice (set_dictionary self (<[position (py_len d) r := None]> d))
  = (Raise e, self1, l1) →
  resolve rec d r slice 0 self = (Raise e, self1, position (py_len d) r :: l1).
Proof.
  intros Hd Hi Hrec.
  pose proof (py_index_Some_range _ _ _ Hi) as Hrange.
  unfold resolve. simpl. unfold mbind, M_bind, dictionary_setitem at 1.
  rewrite Hd, py_setitem_position by done. unfold decoding. by rewrite Hrec.
Qed.

Lemma pending_insert d k sl v :
  d !! k = Some sl →
  (pending (<[k:=v]> d) + (if slot_pending sl then 1 else 0)
   = pending d + (if slot_pending v then 1 else 0))%nat.
Proof.
  revert k. induction d as [|sl0 d IH]; intros [|k] Hk; simplify_eq/=.
  - lia.
  - specialize (IH k Hk). lia.
Qed.

Lemma pending_le d d' :
  length d' = length d →
  (∀ k sl', d' !! k = Some sl' → slot_pending sl' = true →
     ∃ sl, d !! k = Some sl ∧ slot_pending sl = true) →
  (pending d' ≤ pending d)%nat.
Proof.
  revert d. induction d' as [|sl' d' IH]; intros [|sl d] Hlen Hk;
    simplify_eq/=; [lia|].
  assert (pending d' ≤ pending d)%nat as Htail.
  { apply IH; [done|]. intros k sl0 Hsl0 Hp. by apply (Hk (S k) sl0). }
  destruct (slot_pending sl') eqn:Hsl'; [|lia].
  destruct (Hk 0%nat sl' eq_refl Hsl') as (sl0 & [= <-] & ->). lia.
Qed.

Lemma decoded_once_pending d log d' :
  decoded_once d log d' → (pending d' ≤ pending d)%nat.
Proof.
  intros (Hlen & _ & _ & Hout & Hin). apply pending_le; [done|].
  intros k sl' Hk Hp. destruct (decide (k ∈ log)) as [Hlog|Hlog].
  - destruct (Hin k Hlog) as [H|[b H]]; rewrite H in Hk; by simplify_eq.
  - exists sl'. by rewrite <- Hout.
Qed.

Lemma table_ok_same_tables self self' :
  same_tables self self' → table_ok self → table_ok self'.
Proof. intros (Hd1 & _ & _) (d1 & ? & ?). exists d1. by rewrite Hd1. Qed.

(** Induction on the number of unresolved slots, then on the bit
    counter: a call on a slot runs with one unresolved slot less, the next
    iteration with fewer bits. *)
Lemma unpack_loop_ends N :
  ∀ self d,
    table_ok self → dictionary self = Some d → (pending d < N)%nat →
    ∀ data bitsleft pos x n s,
      ∃ fuel out self' log,
        unpack_loop fuel data bitsleft pos x n s self = (out, self', log)
        ∧ out ≠ OutOfFuel.
Proof.
  induction N as [|N IHN]; intros self d Htable Hd Hpending; [lia|].
  intros data bitsleft pos x n s.
  assert (∃ b : nat, bitsleft ≤ Z.of_nat b) as [b Hb]
    by (exists (Z.to_nat bitsleft); lia).
  revert bitsleft pos x n s Hb.
  induction b as [|b IHb]; intros bitsleft pos x n s Hb;
    (destruct (unpack_loop_cases data bitsleft pos x n s self)
      as [(out & Hout & Hrun)
         |(pos' & x' & n' & bitsleft' & d' & r & slice & flag
           & Hd' & Hi & Hpos & Hless & Hrun)];
     [by exists 1%nat, out, self, [] |]);
    specialize (Hless Htable); [lia|].
  assert (d' = d) as -> by congruence.
  destruct (Z.eqb_spec flag 0) as [->|Hflag].
  - (* the slot is unresolved *)
    pose proof (py_index_Some_range _ _ _ Hi) as Hrange.
    pose proof Hi as Hk. rewrite py_index_position in Hk by done.
    set (k := position (py_len d) r) in *.
    set (self0 := set_dictionary self (<[k:=None]> d)).
    assert (pending (<[k:=None]> d) < N)%nat as Hpending0.
    { pose proof (pending_insert d k _ None Hk) as Hins. simpl in Hins. lia. }
    destruct (unpack_unfold slice) as [x0 Hx0].
    destruct (IHN self0 _ (table_ok_same_tables _ _
                (same_tables_set_dictionary self _) Htable) eq_refl Hpending0
                (slice ++ zeros8) (py_len slice * 8) 0 x0 32 [])
      as (fuel1 & rr & self1 & l1 & Hrec & Hrr).
    assert (∀ fuel, (fuel1 ≤ fuel)%nat →
              unpack fuel slice self0 = (rr, self1, l1)) as Hcall.
    { intros fuel Hfuel.
      apply (unpack_fuel_mono fuel1 fuel slice Hfuel); [by rewrite Hx0|done]. }
    destruct rr as [slice'|e|]; [|clear IHb|done].
    + destruct (unpack_once fuel1 slice self0 _ _ _ (Hcall fuel1 (le_n _)))
        as (Htables & Hslots).
      destruct (Hslots _ eq_refl) as (d1 & Hd1 & Honce & _).
      pose proof Honce as (Hlen1 & _).
      rewrite length_insert in Hlen1.
      set (self2 := set_dictionary self1 (<[k:=Some (slice', 1)]> d1)).
      assert (pending (<[k:=Some (slice', 1%Z)]> d1) < N)%nat as Hpending2.
      { assert (is_Some (d1 !! k)) as [sl1 Hsl1].
        { apply lookup_lt_is_Some. rewrite Hlen1.
          by apply lookup_lt_Some in Hk. }
        pose proof (pending_insert d1 k sl1 (Some (slice', 1)) Hsl1) as Hins.
        pose proof (decoded_once_pending _ _ _ Honce).
        simpl in Hins. destruct (slot_pending sl1); lia. }
      assert (table_ok self2) as Htable2.
      { eapply table_ok_same_tables; [|exact Htable].
        eapply same_tables_trans; [apply same_tables_set_dictionary|].
        eapply same_tables_trans; [exact Htables|].
        apply same_tables_set_dictionary. }
      destruct (IHN self2 _ Htable2 eq_refl Hpending2
                  data bitsleft' pos' x' n' (s ++ slice'))
        as (fuel2 & out & self' & l2 & Hloop & Hout).
      exists (S (Nat.max fuel1 fuel2)), out, self', ((k :: l1) ++ l2).
      split; [|done]. rewrite Hrun.
      eapply bind_Ok.
      * apply (resolve_unresolved _ self d r slice slice' self1 l1 d1 Hd Hi);
          [|done..].
        apply Hcall. lia.
      * apply (unpack_loop_fuel_mono fuel2); [lia|done..].
    + exists (S fuel1), (Raise e), self1, (k :: l1).
      split; [|done]. rewrite Hrun.
      apply bind_Raise, (resolve_raise _ _ _ _ _ _ _ _ Hd Hi).
      by apply Hcall.
  - (* the slot is resolved *)
    destruct (IHb bitsleft' pos' x' n' (s ++ slice))
      as (fuel2 & out & self' & l2 & Hloop & Hout); [lia|].
    exists (S fuel2), out, self', l2. split; [|done]. rewrite Hrun.
    unfold resolve. rewrite (proj2 (Z.eqb_neq _ _)) by done.
    by rewrite (bind_pure _ _ self (Ok slice)).
Qed.

Lemma unpack_loop_ends_any self data bitsleft pos x n s :
  table_ok self →
  ∃ fuel out self' log,
    unpack_loop fuel data bitsleft pos x n s self = (out, self', log)
    ∧ out ≠ OutOfFuel.
Proof.
  intros Htable. destruct (dictionary self) as [d|] eqn:Hd.
  - apply (unpack_loop_ends (S (pending d)) self d Htable Hd). lia.
  - destruct (unpack_loop_cases data bitsleft pos x n s self)
      as [(out & Hout & Hrun)|(? & ? & ? & ? & ? & ? & ? & ? & Hd' & _)];
      [|congruence].
    by exists 1%nat, out, self, [].
Qed.

(** On an object with a loaded table, [unpack] ends on every record,
    whatever the dictionary holds: some fuel is enough, and then more fuel
    gives the same outcome, object and log. *)
Theorem unpack_ends (self : t) (data : bytes) :
  table_ok self →
  ∃ fuel out self' log,
    out ≠ OutOfFuel
    ∧ ∀ fuel', (fuel ≤ fuel')%nat → unpack fuel' data self = (out, self', log).
Proof.
  intros Htable. destruct (unpack_unfold data) as [x0 Hx0].
  destruct (unpack_loop_ends_any self (data ++ zeros8) (py_len data * 8)
              0 x0 32 [] Htable)
    as (fuel & out & self' & log & Hrun & Hout).
  exists fuel, out, self', log. split; [done|]. intros fuel' Hfuel.
  apply (unpack_fuel_mono fuel fuel' data Hfuel); [by rewrite Hx0|done].
Qed.

Lemma unpack_records_fuel_mono fuel fuel' records :
  (fuel ≤ fuel')%nat →
  refines (unpack_records fuel records) (unpack_records fuel' records).
Proof.
  intros Hfuel. induction records as [|r rs IH]; simpl; [apply refines_refl|].
  apply refines_bind; [by apply unpack_fuel_mono|]. intros o.
  apply refines_bind; [done|]. intros os. apply refines_refl.
Qed.

(** So does the decoding of a whole document. *)
Theorem unpack_records_ends (records : list bytes) :
  ∀ self, table_ok self →
    ∃ fuel out self' log,
      out ≠ OutOfFuel
      ∧ ∀ fuel', (fuel ≤ fuel')%nat →
          unpack_records fuel' records self = (out, self', log).
Proof.
  induction records as [|r rs IH]; intros self Htable.
  { by exists 0%nat, (Ok []), self, []. }
  destruct (unpack_ends self r Htable) as (fuel1 & out1 & self1 & l1 & Hout1 & Hr).
  destruct out1 as [o|e|]; [| |done].
  - assert (table_ok self1) as Htable1.
    { destruct (unpack_once fuel1 r self _ _ _ (Hr fuel1 (le_n _))) as [Ht _].
      by eapply table_ok_same_tables. }
    destruct (IH self1 Htable1) as (fuel2 & out2 & self2 & l2 & Hout2 & Hrs).
    exists (Nat.max fuel1 fuel2), (os ← out2; mret (o :: os)), self2, (l1 ++ l2).
    split; [by destruct out2|]. intros fuel' Hfuel. simpl.
    eapply bind_Ok; [apply Hr; lia|].
    unfold mbind at 1, M_bind. rewrite Hrs by lia.
    destruct out2; [|done..]. simpl. by rewrite app_nil_r.
  - exists fuel1, (Raise e), self1, l1. split; [done|]. intros fuel' Hfuel.
    simpl. apply bind_Raise. by apply Hr.
Qed.

(** The object that [loadHuff] builds has such a table. *)
Lemma loadHuff_table_ok self huff self' :
  loadHuff self huff = (Ok (), self') → table_ok self'.
Proof.
  unfold loadHuff. case_bool_decide; [done|].
  destruct (unpack_LL huff 8) as [[off1 off2]| |]; [|done..].
  destruct (unpack_from 4 256 huff off1) as [vs| |]; simpl; [|done..].
  destruct (py_map_dict1_unpack vs) as [[_ ->]|[_ (d1 & -> & Hd1)]]; [done|].
  destruct (unpack_from 4 64 huff off2); [|done..].
  intros [= <-]. exists d1. split; [done|].
  eapply Forall_impl; [exact Hd1|]. simpl. intros e He. lia.
Qed.

(** * Further properties of the decoders, the loaders and their callers *)

(** ** Palmdoc: the rest of the decoder *)

Lemma py_index_app_middle {A} (pre rest : list A) b :
  py_index (pre ++ b :: rest) (py_len pre) = Some b.
Proof.
  rewrite py_index_nonneg by apply py_len_nonneg.
  unfold py_len. rewrite Nat2Z.id. by apply list_lookup_middle.
Qed.

Lemma py_slice_length {A} (l : list A) a b :
  py_len (py_slice l a b)
  ≤ Z.max (clamp (py_len l) b - clamp (py_len l) a) 0.
Proof.
  unfold py_slice, py_len. rewrite length_take. lia.
Qed.

Lemma py_slice_inside {A} (l : list A) a b :
  0 ≤ a ≤ b → b ≤ py_len l →
  py_slice l a b = take (Z.to_nat (b - a)) (drop (Z.to_nat a) l).
Proof.
  intros Ha Hb. unfold py_slice, clamp.
  rewrite !(proj2 (Z.ltb_ge _ _)) by lia.
  by rewrite !Z.min_l by lia.
Qed.

Lemma unpack3_loop_literals rest :
  ∀ fuel pre o,
    Forall (fun b => ord b = 0 ∨ 9 ≤ ord b < 128) rest →
    (length rest ≤ fuel)%nat →
    Palmdoc.unpack3_loop fuel (pre ++ rest) o (py_len pre) = Ok (o ++ rest).
Proof.
  induction rest as [|b rest IH]; intros fuel pre o Hlit Hfuel.
  - rewrite !app_nil_r. apply unpack3_loop_done. lia.
  - destruct fuel as [|fuel]; [simpl in Hfuel; lia|].
    apply Forall_cons in Hlit as [Hb Hlit].
    assert (py_len pre < py_len (pre ++ b :: rest)) as Hlt
      by (rewrite py_len_app; unfold py_len; simpl; lia).
    simpl. rewrite (proj2 (Z.ltb_lt _ _) Hlt), py_index_app_middle.
    replace ((1 <=? ord b) && (ord b <=? 8)) with false
      by (symmetry; apply andb_false_iff; destruct Hb;
          [left; apply Z.leb_gt | right; apply Z.leb_gt]; lia).
    rewrite (proj2 (Z.ltb_lt (ord b) 128)) by lia.
    rewrite to_bytes1_ord.
    replace (pre ++ b :: rest) with ((pre ++ [b]) ++ rest)
      by (by rewrite <- app_assoc).
    replace (py_len pre + 1) with (py_len (pre ++ [b]))
      by (rewrite py_len_app; reflexivity).
    change (Ok [b] ≫= _) with
      (Palmdoc.unpack3_loop fuel ((pre ++ [b]) ++ rest) (o ++ [b])
         (py_len (pre ++ [b]))).
    rewrite IH by (simpl in Hfuel; done || lia).
    by rewrite <- app_assoc.
Qed.

(** X1.  Input made of literal bytes only -- 0 and 9 to 127 -- decodes to
    itself. *)
Theorem unpack3_literals (i : bytes) :
  Forall (fun b => ord b = 0 ∨ 9 ≤ ord b < 128) i →
  Palmdoc.unpack3 i = Ok i.
Proof.
  intros Hlit. unfold Palmdoc.unpack3.
  by apply (unpack3_loop_literals i (length i) [] []).
Qed.

Lemma unpack3_literals_witness :
  Palmdoc.unpack3 ["H"; "i"; x00]%byte = Ok ["H"; "i"; x00]%byte.
Proof.
  apply unpack3_literals. repeat constructor; by_eval || (right; by_eval).
Defined.

(** X2.  A control byte [c] in 1..8 with [c] more input bytes behind it
    copies those bytes to the output as they are, whatever their value,
    and decoding goes on behind them; the record made of such a run alone
    decodes to the run. *)
Theorem unpack3_raw_run :
  (∀ fuel i o p b,
      0 ≤ p → i !! Z.to_nat p = Some b → 1 ≤ ord b ≤ 8 →
      p + 1 + ord b ≤ py_len i →
      Palmdoc.unpack3_loop (S fuel) i o p
      = Palmdoc.unpack3_loop fuel i
          (o ++ take (Z.to_nat (ord b)) (drop (Z.to_nat (p + 1)) i))
          (p + 1 + ord b))
  ∧ (∀ b run,
      1 ≤ ord b ≤ 8 → py_len run = ord b →
      Palmdoc.unpack3 (b :: run) = Ok run).
Proof.
  assert (Hstep : ∀ fuel i o p b,
      0 ≤ p → i !! Z.to_nat p = Some b → 1 ≤ ord b ≤ 8 →
      p + 1 + ord b ≤ py_len i →
      Palmdoc.unpack3_loop (S fuel) i o p
      = Palmdoc.unpack3_loop fuel i
          (o ++ take (Z.to_nat (ord b)) (drop (Z.to_nat (p + 1)) i))
          (p + 1 + ord b)).
  { intros fuel i o p b Hp Hb Hc Hend.
    destruct (lookup_py_index i p b Hp Hb) as [Hlt Hi].
    simpl. rewrite (proj2 (Z.ltb_lt _ _) Hlt), Hi.
    replace ((1 <=? ord b) && (ord b <=? 8)) with true
      by (symmetry; apply andb_true_iff; lia).
    rewrite py_slice_inside by lia. do 3 f_equal. lia. }
  split; [exact Hstep|].
  intros b run Hc Hlen. unfold Palmdoc.unpack3. simpl length.
  rewrite (Hstep (length run) (b :: run) [] 0 b); [|lia|done|done|].
  - rewrite unpack3_loop_done.
    + simpl. f_equal. apply take_ge. unfold py_len in Hlen. lia.
    + unfold py_len in *. simpl. lia.
  - unfold py_len in *. simpl. lia.
Qed.

Lemma unpack3_raw_run_witness :
  Palmdoc.unpack3_loop 1 [x02; xc1; x80]%byte [] 0
  = Palmdoc.unpack3_loop 0 [x02; xc1; x80]%byte
      ([] ++ take (Z.to_nat (ord x02)) (drop (Z.to_nat (0 + 1)) [x02; xc1; x80]%byte))
      (0 + 1 + ord x02)
  ∧ Palmdoc.unpack3 [x02; xc1; x80]%byte = Ok [xc1; x80]%byte.
Proof.
  split.
  - apply (proj1 unpack3_raw_run 0%nat [x02; xc1; x80]%byte [] 0 x02);
      [lia | reflexivity | by_eval | by_eval].
  - apply (proj2 unpack3_raw_run x02 [xc1; x80]%byte); by_eval.
Defined.

(** X3.  A bulk back-reference ([m > n]) whose distance lies within the
    output appends exactly [n] bytes: those found from [m] places before
    the end of the output on. *)
Theorem backref_bulk (c : Z) (o : bytes) :
  let m := Z.land (Z.shiftr c 3) 0x07FF in
  let n := Z.land c 7 + 3 in
  n < m → m ≤ py_len o →
  Palmdoc.backref c o
  = Ok (o ++ take (Z.to_nat n) (drop (Z.to_nat (py_len o - m)) o))
  ∧ py_len (take (Z.to_nat n) (drop (Z.to_nat (py_len o - m)) o)) = n.
Proof.
  intros m n Hnm Hm. pose proof (backref_lengths c) as [_ Hn]. fold n in Hn.
  split.
  - unfold Palmdoc.backref. fold m n.
    rewrite (proj2 (Z.ltb_lt _ _)) by lia. do 2 f_equal.
    unfold py_slice, clamp. rewrite !(proj2 (Z.ltb_lt _ _)) by lia.
    rewrite !Z.max_l by lia. f_equal; f_equal; lia.
  - unfold py_len in *. rewrite length_take, length_drop. lia.
Qed.

Lemma backref_bulk_witness :
  Palmdoc.backref 0x8028 ["a"; "b"; "c"; "d"; "e"; "f"]%byte
  = Ok (["a"; "b"; "c"; "d"; "e"; "f"]%byte
        ++ take (Z.to_nat (Z.land 0x8028 7 + 3))
             (drop (Z.to_nat (py_len ["a"; "b"; "c"; "d"; "e"; "f"]%byte
                              - Z.land (Z.shiftr 0x8028 3) 0x07FF))
                ["a"; "b"; "c"; "d"; "e"; "f"]%byte))
  ∧ py_len (take (Z.to_nat (Z.land 0x8028 7 + 3))
             (drop (Z.to_nat (py_len ["a"; "b"; "c"; "d"; "e"; "f"]%byte
                              - Z.land (Z.shiftr 0x8028 3) 0x07FF))
                ["a"; "b"; "c"; "d"; "e"; "f"]%byte))
    = Z.land 0x8028 7 + 3.
Proof.
  apply (backref_bulk 0x8028 ["a"; "b"; "c"; "d"; "e"; "f"]%byte); by_eval.
Defined.

Example backref_bulk_bcd :
  Palmdoc.unpack3 ["a"; "b"; "c"; "d"; "e"; "f"; x80; x28]%byte
  = Ok ["a"; "b"; "c"; "d"; "e"; "f"; "b"; "c"; "d"]%byte.
Proof. reflexivity. Qed.

Lemma fill_spec n m o :
  match Palmdoc.fill n m o with
  | Ok o' => ∃ ext, o' = o ++ ext ∧ length ext = n
  | Raise e => e = IndexError
  | OutOfFuel => False
  end.
Proof.
  revert o. induction n as [|n IH]; intros o; simpl.
  - exists []. by rewrite app_nil_r.
  - destruct (py_index o (- m)) as [b|]; [|done].
    rewrite to_bytes1_ord. simpl. specialize (IH (o ++ [b])).
    destruct (Palmdoc.fill n m (o ++ [b])); [|done..].
    destruct IH as (ext & -> & Hlen). exists (b :: ext).
    rewrite <- app_assoc. split; [done|]. simpl. lia.
Qed.

Lemma backref_spec c o :
  match Palmdoc.backref c o with
  | Ok o' => ∃ ext, o' = o ++ ext ∧ py_len ext ≤ 10
  | Raise e => e = IndexError
  | OutOfFuel => False
  end.
Proof.
  unfold Palmdoc.backref.
  pose proof (backref_lengths c) as [Hm Hn].
  pose proof (land_ones_range c 3) as H7. change (Z.ones 3) with 7 in H7.
  change (2 ^ 3) with 8 in H7.
  set (m := Z.land (c ≫ 3) 2047) in *. set (n := Z.land c 7 + 3) in *.
  destruct (Z.ltb_spec n m).
  - eexists. split; [done|].
    pose proof (py_slice_length o (- m) (n - m)) as Hlen.
    pose proof (py_len_nonneg o). unfold clamp in Hlen.
    rewrite !(proj2 (Z.ltb_lt _ _)) in Hlen by lia. lia.
  - pose proof (fill_spec (Z.to_nat n) m o) as Hfill.
    destruct (Palmdoc.fill (Z.to_nat n) m o); [|done..].
    destruct Hfill as (ext & -> & Hlen). exists ext. split; [done|].
    unfold py_len. lia.
Qed.

(** What a run of the main loop can give: the output it had, followed by
    at most five bytes for each input byte that was left, or
    [IndexError]. *)
Lemma unpack3_loop_spec fuel :
  ∀ i o p,
    match Palmdoc.unpack3_loop fuel i o p with
    | Ok o' => ∃ ext, o' = o ++ ext ∧ py_len ext ≤ 5 * Z.max (py_len i - p) 0
    | Raise e => e = IndexError
    | OutOfFuel => True
    end.
Proof.
  induction fuel as [|fuel IH]; intros i o p; simpl.
  { destruct (Z.ltb_spec p (py_len i)); [done|].
    exists []. rewrite app_nil_r. split; [done|]. unfold py_len. simpl. lia. }
  destruct (Z.ltb_spec p (py_len i)) as [Hlt|Hge].
  2:{ exists []. rewrite app_nil_r. split; [done|]. unfold py_len. simpl. lia. }
  destruct (py_index i p) as [b|]; [|done].
  pose proof (ord_range b) as Hb.
  assert (∀ o1 p1 g,
            o1 = o ++ g → py_len g + 5 * Z.max (py_len i - p1) 0
                          ≤ 5 * Z.max (py_len i - p) 0 →
            match Palmdoc.unpack3_loop fuel i o1 p1 with
            | Ok o' => ∃ ext, o' = o ++ ext
                         ∧ py_len ext ≤ 5 * Z.max (py_len i - p) 0
            | Raise e => e = IndexError
            | OutOfFuel => True
            end) as Hnext.
  { intros o1 p1 g -> Hg. specialize (IH i (o ++ g) p1).
    destruct (Palmdoc.unpack3_loop fuel i (o ++ g) p1); [|done..].
    destruct IH as (ext & -> & Hext). exists (g ++ ext).
    rewrite <- app_assoc. split; [done|]. rewrite py_len_app. lia. }
  destruct ((1 <=? ord b) && (ord b <=? 8)) eqn:Hraw.
  { apply andb_true_iff in Hraw as [H1%Z.leb_le H8%Z.leb_le].
    eapply Hnext; [done|].
    pose proof (py_slice_length i (p + 1) (p + 1 + ord b)) as Hlen.
    unfold clamp in Hlen.
    destruct (Z.ltb_spec (p + 1) 0), (Z.ltb_spec (p + 1 + ord b) 0); lia. }
  destruct (ord b <? 128).
  { rewrite to_bytes1_ord. simpl. eapply Hnext; [done|].
    unfold py_len at 1. simpl. lia. }
  destruct (192 <=? ord b).
  { destruct (to_bytes1_xor128 b) as (b' & _ & ->). simpl.
    eapply (Hnext _ _ [" "%byte; b']); [done|].
    unfold py_len at 1. simpl. lia. }
  destruct (Z.ltb_spec (p + 1) (py_len i)).
  2:{ eapply (Hnext _ _ []); [by rewrite app_nil_r|].
      unfold py_len at 1. simpl. lia. }
  destruct (py_index i (p + 1)) as [b2|]; [|done].
  match goal with |- context [Palmdoc.backref ?c o] =>
    pose proof (backref_spec c o) as Hback;
    destruct (Palmdoc.backref c o) as [o1| |]; [|done..]
  end.
  destruct Hback as (g & -> & Hg). simpl. eapply Hnext; [done|]. lia.
Qed.

(** X4.  The decoder always ends, and the only exception it raises is
    [IndexError]. *)
Theorem unpack3_raises_only_IndexError (i : bytes) :
  (∃ o, Palmdoc.unpack3 i = Ok o) ∨ Palmdoc.unpack3 i = Raise IndexError.
Proof.
  pose proof (unpack3_total i) as Htotal.
  pose proof (unpack3_loop_spec (length i) i [] 0) as Hspec.
  unfold Palmdoc.unpack3 in *.
  destruct (Palmdoc.unpack3_loop (length i) i [] 0) as [o|e|];
    [left; by exists o | right; by subst | done].
Qed.

(** X5.  The output is at most five times as long as the input. *)
Theorem unpack3_length_bound (i o : bytes) :
  Palmdoc.unpack3 i = Ok o → py_len o ≤ 5 * py_len i.
Proof.
  intros Hrun. pose proof (unpack3_loop_spec (length i) i [] 0) as Hspec.
  unfold Palmdoc.unpack3 in Hrun. rewrite Hrun in Hspec.
  destruct Hspec as (ext & -> & Hext). pose proof (py_len_nonneg i).
  simpl. lia.
Qed.

Lemma unpack3_length_bound_witness :
  py_len ["a"; "a"; "a"; "a"; "a"; "a"; "a"; "a"; "a"; "a"; "a"]%byte
  ≤ 5 * py_len ["a"; x80; x0f]%byte.
Proof.
  apply (unpack3_length_bound ["a"; x80; x0f]%byte). reflexivity.
Defined.

Lemma chr_to_bytes1 c : 0 ≤ c < 256 → chr c = to_bytes1 c.
Proof.
  intros Hc. unfold chr, to_bytes1.
  replace ((0 <=? c) && (c <? 256)) with true
    by (symmetry; apply andb_true_iff; lia).
  destruct (of_N (Z.to_N c)) eqn:Hb; [done|].
  apply Byte.of_N_None_iff in Hb. lia.
Qed.

Lemma fill_str_fill n m o : Palmdoc.fill_str n m o = Palmdoc.fill n m o.
Proof.
  revert o. induction n as [|n IH]; intros o; simpl; [done|].
  destruct (py_index o (- m)); [|done]. by rewrite to_bytes1_ord, IH.
Qed.

(** X6.  The decoder for Python 2 and the decoder for Python 3 compute
    the same function of the record. *)
Theorem unpack_unpack3 (i : bytes) : Palmdoc.unpack i = Palmdoc.unpack3 i.
Proof.
  unfold Palmdoc.unpack, Palmdoc.unpack3.
  generalize (length i) ([] : bytes) 0. intros fuel.
  induction fuel as [|fuel IH]; intros o p; simpl; [done|].
  destruct (p <? py_len i); [|done].
  destruct (py_index i p) as [b|]; [|done].
  pose proof (ord_range b).
  destruct ((1 <=? ord b) && (ord b <=? 8)); [apply IH|].
  destruct (ord b <? 128).
  { rewrite chr_to_bytes1 by done. destruct (to_bytes1 (ord b)); simpl; auto. }
  destruct (192 <=? ord b).
  { destruct (to_bytes1_xor128 b) as (b' & Hb' & Hto).
    rewrite chr_to_bytes1 by (pose proof (ord_range b'); lia).
    rewrite Hto. simpl. apply IH. }
  destruct (p + 1 <? py_len i); [|apply IH].
  destruct (py_index i (p + 1)) as [b2|]; [|done].
  unfold Palmdoc.backref. case_match; simpl; [apply IH|].
  rewrite fill_str_fill.
  match goal with |- context [Palmdoc.fill ?n ?m o] =>
    destruct (Palmdoc.fill n m o); simpl; auto end.
Qed.

(** ** Huffcdic: what the loaders build *)


Lemma stride2_length {A} (l : list A) :
  length (stride2 l) = ((length l + 1) / 2)%nat.
Proof.
  assert (∀ n (l : list A), (length l ≤ n)%nat →
            length (stride2 l) = ((length l + 1) / 2)%nat) as H.
  { clear. induction n as [|n IH]; intros [|a [|b l]] Hlen;
      simpl in Hlen; try lia; try done.
    change (S (length (stride2 l)) = ((S (S (length l)) + 1) / 2)%nat).
    rewrite IH by lia.
    replace (S (S (length l)) + 1)%nat with ((length l + 1) + 1 * 2)%nat by lia.
    rewrite Nat.div_add by done. lia. }
  by apply (H (length l)).
Qed.

Lemma be_uint_nonneg bs : 0 ≤ be_uint bs.
Proof.
  unfold be_uint.
  assert (∀ acc, 0 ≤ acc →
            0 ≤ fold_left (fun acc b => Z.lor (Z.shiftl acc 8) (ord b)) bs acc)
    as H.
  { induction bs as [|b bs IH]; intros a Ha; simpl; [done|].
    apply IH. apply Z.lor_nonneg. split; [by apply Z.shiftl_nonneg|].
    apply ord_range. }
  by apply H.
Qed.

Lemma fields_nonneg size count bs : Forall (fun v => 0 ≤ v) (fields size count bs).
Proof.
  revert bs. induction count as [|k IH]; intros bs; simpl; constructor;
    [apply be_uint_nonneg | apply IH].
Qed.

Lemma unpack_from_nonneg size count buf offset vs :
  unpack_from size count buf offset = Ok vs → Forall (fun v => 0 ≤ v) vs.
Proof.
  unfold unpack_from. repeat case_match; intros; simplify_eq;
    apply fields_nonneg.
Qed.

Lemma unpack_LL_nonneg buf offset a b :
  unpack_LL buf offset = Ok (a, b) → 0 ≤ a ∧ 0 ≤ b.
Proof.
  unfold unpack_LL.
  pose proof (unpack_from_raise 4 2 buf offset) as Hlen.
  destruct (unpack_from 4 2 buf offset) as [vs| |] eqn:Hvs; [|done..].
  apply unpack_from_nonneg in Hvs.
  destruct vs as [|v1 [|v2 [|]]]; simplify_eq/=.
  intros [= <- <-]. apply Forall_cons in Hvs as [? Hvs].
  by apply Forall_cons in Hvs as [? _].
Qed.

Lemma dict1_unpack_entry v e :
  dict1_unpack v = Ok e →
  1 ≤ e.1.1 ≤ 31 ∧ (e.1.1 ≤ 8 → e.1.2 ≠ 0) ∧ (e.1.2 = 0 ∨ e.1.2 = 128).
Proof.
  destruct (dict1_unpack_spec v) as [[_ ->]|[Hr ->]]; [done|].
  intros [= <-]. simpl. unfold refused in Hr.
  pose proof (land_ones_range v 5) as Hv.
  change (Z.ones 5) with 31 in Hv. change (2 ^ 5) with 32 in Hv.
  split; [lia|]. split; [lia|].
  change 128 with (2 ^ 7). rewrite Z.land_comm.
  destruct (Z.testbit v 7) eqn:Hbit.
  - right. apply Z.bits_inj'. intros k Hk. rewrite Z.land_spec, Z.pow2_bits_eqb by lia.
    destruct (Z.eqb_spec 7 k) as [<-|]; [by rewrite Hbit | done].
  - left. apply Z.bits_inj'. intros k Hk.
    rewrite Z.land_spec, Z.pow2_bits_eqb, Z.bits_0 by lia.
    destruct (Z.eqb_spec 7 k) as [<-|]; [by rewrite Hbit | done].
Qed.

Lemma mincode_table_length dict2 :
  length dict2 = 64%nat → length (mincode_table dict2) = 33%nat.
Proof.
  intros H. unfold mincode_table. rewrite length_imap. simpl.
  by rewrite stride2_length, H.
Qed.

Lemma maxcode_table_length dict2 :
  length dict2 = 64%nat → length (maxcode_table dict2) = 33%nat.
Proof.
  intros H. unfold maxcode_table. rewrite length_imap. simpl.
  by rewrite stride2_length, length_drop, H.
Qed.

(** What a successful [loadHuff] leaves. *)
Lemma loadHuff_Ok self huff self' :
  loadHuff self huff = (Ok (), self') →
  ∃ d1 dict2,
    self' = {| dict1 := Some d1; mincode := Some (mincode_table dict2);
               maxcode := Some (maxcode_table dict2); dictionary := Some [] |}
    ∧ length d1 = 256%nat ∧ length dict2 = 64%nat
    ∧ Forall (fun e : entry =>
                1 ≤ e.1.1 ≤ 31 ∧ (e.1.1 ≤ 8 → e.1.2 ≠ 0)
                ∧ (e.1.2 = 0 ∨ e.1.2 = 128)) d1
    ∧ ∀ other, loadHuff other huff = (Ok (), self').
Proof.
  unfold loadHuff. case_bool_decide; [done|].
  destruct (unpack_LL huff 8) as [[off1 off2]| |]; [|done..].
  pose proof (unpack_from_raise 4 256 huff off1) as Hvs.
  destruct (unpack_from 4 256 huff off1) as [vs| |]; simpl; [|done..].
  destruct (py_map dict1_unpack vs) as [d1| |] eqn:Hd1; [|done..].
  pose proof (unpack_from_raise 4 64 huff off2) as Hdict2.
  destruct (unpack_from 4 64 huff off2) as [dict2| |]; [|done..].
  intros [= <-]. exists d1, dict2. split; [done|].
  apply py_map_Ok in Hd1.
  split; [by rewrite <- (Forall2_length _ _ _ Hd1), Hvs|].
  split; [done|]. split; [|done].
  clear Hvs. induction Hd1 as [|v e vs d1 He _ IH]; constructor; [|done].
  by apply (dict1_unpack_entry v).
Qed.

(** X7.  A successful [loadHuff] leaves a fast table of 256 entries with
    code lengths between 1 and 31, terminal whenever the length is at most
    8, a terminal mark that is 0 or 0x80, two tables of 33 entries and an
    empty dictionary. *)
Theorem loadHuff_builds (self : t) (huff : bytes) (self' : t) :
  loadHuff self huff = (Ok (), self') →
  ∃ d1 mins maxs,
    self' = {| dict1 := Some d1; mincode := Some mins; maxcode := Some maxs;
               dictionary := Some [] |}
    ∧ length d1 = 256%nat ∧ length mins = 33%nat ∧ length maxs = 33%nat
    ∧ Forall (fun e : entry =>
                1 ≤ e.1.1 ≤ 31 ∧ (e.1.1 ≤ 8 → e.1.2 ≠ 0)
                ∧ (e.1.2 = 0 ∨ e.1.2 = 128)) d1.
Proof.
  intros Hload.
  destruct (loadHuff_Ok _ _ _ Hload) as (d1 & dict2 & -> & Hd1 & Hdict2 & Hall & _).
  exists d1, (mincode_table dict2), (maxcode_table dict2).
  split; [done|]. split; [done|].
  split; [by apply mincode_table_length|].
  split; [by apply maxcode_table_length | done].
Qed.

Lemma loadHuff_builds_witness :
  ∃ d1 mins maxs,
    (loadHuff new (Sample.huff 0x88)).2
    = {| dict1 := Some d1; mincode := Some mins; maxcode := Some maxs;
         dictionary := Some [] |}
    ∧ length d1 = 256%nat ∧ length mins = 33%nat ∧ length maxs = 33%nat
    ∧ Forall (fun e : entry =>
                1 ≤ e.1.1 ≤ 31 ∧ (e.1.1 ≤ 8 → e.1.2 ≠ 0)
                ∧ (e.1.2 = 0 ∨ e.1.2 = 128)) d1.
Proof.
  apply (loadHuff_builds new (Sample.huff 0x88)). vm_compute. reflexivity.
Defined.

(** X8.  What a successful [loadHuff] leaves depends on the blob only:
    every attribute of the object is replaced. *)
Theorem loadHuff_forgets (self other : t) (huff : bytes) (self' : t) :
  loadHuff self huff = (Ok (), self') → loadHuff other huff = (Ok (), self').
Proof.
  intros Hload.
  by destruct (loadHuff_Ok _ _ _ Hload) as (? & ? & _ & _ & _ & _ & Hother).
Qed.

Lemma loadHuff_forgets_witness :
  loadHuff (Sample.loaded (Sample.huff 0xFF88) Sample.cdic2) (Sample.huff 0x88)
  = (Ok (), (loadHuff new (Sample.huff 0x88)).2).
Proof.
  apply (loadHuff_forgets new). vm_compute. reflexivity.
Defined.



(** X10.  A [loadHuff] that raises leaves [mincode], [maxcode] and the
    dictionary as they were.  The object is untouched altogether, except
    when the second table cannot be read: then [dict1] already holds the
    new fast table. *)
Theorem loadHuff_raises_frame (self : t) (huff : bytes) (e : exn) (self' : t) :
  loadHuff self huff = (Raise e, self') →
  mincode self' = mincode self ∧ maxcode self' = maxcode self
  ∧ dictionary self' = dictionary self
  ∧ (self' = self
     ∨ (e = StructError ∧ ∃ d1, length d1 = 256%nat ∧ self' = set_dict1 self d1)).
Proof.
  unfold loadHuff. case_bool_decide; [intros [= <- <-]; by auto|].
  destruct (unpack_LL huff 8) as [[off1 off2]| |]; [|intros [= <- <-]; by auto|done].
  pose proof (unpack_from_raise 4 256 huff off1) as Hvs.
  destruct (unpack_from 4 256 huff off1) as [vs| |]; simpl;
    [|intros [= <- <-]; by auto|done].
  destruct (py_map dict1_unpack vs) as [d1| |] eqn:Hd1;
    [|intros [= <- <-]; by auto|done].
  pose proof (unpack_from_raise 4 64 huff off2) as Hdict2.
  destruct (unpack_from 4 64 huff off2) as [dict2| |]; [done| |done].
  intros [= <- <-]. subst. repeat split; try done. right. split; [done|].
  exists d1. split; [|done]. apply py_map_Ok in Hd1.
  by rewrite <- (Forall2_length _ _ _ Hd1), Hvs.
Qed.

Lemma loadHuff_raises_frame_witness :
  mincode (loadHuff (Sample.loaded (Sample.huff 0xFF88) Sample.cdic2)
             (take 1100 (Sample.huff 0x88))).2
  = mincode (Sample.loaded (Sample.huff 0xFF88) Sample.cdic2)
  ∧ maxcode (loadHuff (Sample.loaded (Sample.huff 0xFF88) Sample.cdic2)
               (take 1100 (Sample.huff 0x88))).2
    = maxcode (Sample.loaded (Sample.huff 0xFF88) Sample.cdic2)
  ∧ dictionary (loadHuff (Sample.loaded (Sample.huff 0xFF88) Sample.cdic2)
                  (take 1100 (Sample.huff 0x88))).2
    = dictionary (Sample.loaded (Sample.huff 0xFF88) Sample.cdic2)
  ∧ ((loadHuff (Sample.loaded (Sample.huff 0xFF88) Sample.cdic2)
        (take 1100 (Sample.huff 0x88))).2
     = Sample.loaded (Sample.huff 0xFF88) Sample.cdic2
     ∨ (StructError = StructError
        ∧ ∃ d1, length d1 = 256%nat
            ∧ (loadHuff (Sample.loaded (Sample.huff 0xFF88) Sample.cdic2)
                 (take 1100 (Sample.huff 0x88))).2
              = set_dict1 (Sample.loaded (Sample.huff 0xFF88) Sample.cdic2) d1)).
Proof.
  apply (loadHuff_raises_frame
           (Sample.loaded (Sample.huff 0xFF88) Sample.cdic2)
           (take 1100 (Sample.huff 0x88)) StructError).
  vm_compute. reflexivity.
Defined.

(** The half-loaded object exists: a blob cut inside its second table
    leaves the new fast table beside the old code tables and slots. *)
Example loadHuff_half_loaded :
  let self := Sample.loaded (Sample.huff 0xFF88) Sample.cdic2 in
  let '(out, self') := loadHuff self (take 1100 (Sample.huff 0x88)) in
  out = Raise StructError
  ∧ dict1 self' ≠ dict1 self
  ∧ mincode self' = mincode self
  ∧ dictionary self' = dictionary self.
Proof. vm_compute. repeat split. discriminate. Qed.

Lemma land_pow2 v k :
  0 ≤ k → Z.land v (2 ^ k) = 0 ∨ Z.land v (2 ^ k) = 2 ^ k.
Proof.
  intros Hk. rewrite Z.land_comm. destruct (Z.testbit v k) eqn:Hbit.
  - right. apply Z.bits_inj'. intros j Hj.
    rewrite Z.land_spec, Z.pow2_bits_eqb by lia.
    destruct (Z.eqb_spec k j) as [<-|]; [by rewrite Hbit | done].
  - left. apply Z.bits_inj'. intros j Hj.
    rewrite Z.land_spec, Z.pow2_bits_eqb, Z.bits_0 by lia.
    destruct (Z.eqb_spec k j) as [<-|]; [by rewrite Hbit | done].
Qed.

Lemma py_slice_span {A} (l : list A) a k :
  0 ≤ k → py_len (py_slice l a (a + k)) ≤ k.
Proof.
  intros Hk. pose proof (py_slice_length l a (a + k)) as Hlen.
  pose proof (py_len_nonneg l). unfold clamp in Hlen.
  destruct (Z.ltb_spec a 0), (Z.ltb_spec (a + k) 0); lia.
Qed.

Lemma unpack_from_Ok size count buf offset vs :
  unpack_from size count buf offset = Ok vs →
  0 ≤ count ∧ py_len vs = count
  ∧ (0 ≤ offset → offset + Z.of_nat size * count ≤ py_len buf).
Proof.
  intros Hrun. pose proof (unpack_from_raise size count buf offset) as Hlen.
  rewrite Hrun in Hlen. revert Hrun. unfold unpack_from.
  destruct (Z.ltb_spec count 0); [done|].
  destruct (Z.ltb_spec offset 0);
    (destruct (_ || _) eqn:Hor; [done|]);
    apply orb_false_iff in Hor as [?%Z.ltb_ge ?%Z.ltb_ge];
    intros _; unfold py_len in *; lia.
Qed.

Lemma getslice_spec cdic off :
  match getslice cdic off with
  | Ok sl => py_len sl.1 ≤ 0x7FFF ∧ (sl.2 = 0 ∨ sl.2 = 0x8000)
  | Raise e => e = StructError
  | OutOfFuel => False
  end.
Proof.
  unfold getslice. pose proof (h_raise cdic (16 + off)) as Hh.
  destruct (h cdic (16 + off)) as [blen| |]; simpl; [|done..].
  split.
  - pose proof (land_ones_range blen 15) as Hblen.
    change (Z.ones 15) with 32767 in Hblen.
    pose proof (py_slice_span cdic (18 + off) (Z.land blen 32767)). lia.
  - apply (land_pow2 blen 15). lia.
Qed.

(** X11.  A successful [loadCdic] keeps the slots that are there and
    appends [min(1 << bits, phrases - len(dictionary))] new ones, so the
    dictionary never grows beyond [phrases]; a new slot holds at most
    0x7FFF bytes and the flag 0 or 0x8000; the code tables are not
    touched. *)
Theorem loadCdic_appends (self : t) (cdic : bytes) (self' : t) (d : list slot) :
  dictionary self = Some d →
  loadCdic self cdic = (Ok (), self') →
  ∃ phrases bits slots,
    unpack_LL cdic 8 = Ok (phrases, bits)
    ∧ self' = set_dictionary self (d ++ map Some slots)
    ∧ py_len slots = Z.min (Z.shiftl 1 bits) (phrases - py_len d)
    ∧ py_len (d ++ map Some slots) ≤ phrases
    ∧ Forall (fun sl : bytes * Z =>
                py_len sl.1 ≤ 0x7FFF ∧ (sl.2 = 0 ∨ sl.2 = 0x8000)) slots.
Proof.
  intros Hd. unfold loadCdic. rewrite Hd. case_bool_decide; [done|].
  destruct (unpack_LL cdic 8) as [[phrases bits]| |]; [|done..].
  set (n := Z.min (1 ≪ bits) (phrases - py_len d)).
  destruct (unpack_from 2 n cdic 16) as [offs| |] eqn:Hoffs; simpl; [|done..].
  destruct (py_map (getslice cdic) offs) as [new| |] eqn:Hnew; [|done..].
  intros [= <-]. exists phrases, bits, new. split; [done|]. split; [done|].
  apply unpack_from_Ok in Hoffs as (Hn & Hlen & _).
  apply py_map_Ok in Hnew.
  assert (py_len new = n) as Hnew_len.
  { unfold py_len in *. by rewrite <- (Forall2_length _ _ _ Hnew). }
  split; [done|]. split.
  - rewrite py_len_app. unfold py_len at 2. rewrite length_map.
    fold (py_len new). lia.
  - clear Hlen Hnew_len. induction Hnew as [|off sl offs new Hsl _ IH];
      constructor; [|done].
    pose proof (getslice_spec cdic off) as Hspec. by rewrite Hsl in Hspec.
Qed.

Lemma loadCdic_appends_witness :
  ∃ phrases bits slots,
    unpack_LL Sample.cdic2 8 = Ok (phrases, bits)
    ∧ (loadCdic (loadHuff new (Sample.huff 0xFF88)).2 Sample.cdic2).2
      = set_dictionary (loadHuff new (Sample.huff 0xFF88)).2 ([] ++ map Some slots)
    ∧ py_len slots = Z.min (Z.shiftl 1 bits) (phrases - py_len ([] : list slot))
    ∧ py_len (([] : list slot) ++ map Some slots) ≤ phrases
    ∧ Forall (fun sl : bytes * Z =>
                py_len sl.1 ≤ 0x7FFF ∧ (sl.2 = 0 ∨ sl.2 = 0x8000)) slots.
Proof.
  apply (loadCdic_appends (loadHuff new (Sample.huff 0xFF88)).2 Sample.cdic2);
    vm_compute; reflexivity.
Defined.

(** X12.  [loadCdic] is all or nothing: when it raises, the object is as
    it was, and the exception is the header [ValueError], a
    [struct.error], or the [AttributeError] of a dictionary that was never
    set. *)
Theorem loadCdic_raises_frame (self : t) (cdic : bytes) (e : exn) (self' : t) :
  loadCdic self cdic = (Raise e, self') →
  self' = self
  ∧ (e = ValueError "invalid cdic header" ∨ e = StructError
     ∨ (e = AttributeError ∧ dictionary self = None)).
Proof.
  unfold loadCdic. case_bool_decide; [intros [= <- <-]; by auto|].
  pose proof (unpack_LL_raise cdic 8) as HLL.
  destruct (unpack_LL cdic 8) as [[phrases bits]| |];
    [|intros [= <- <-]; by auto|done].
  destruct (dictionary self) as [d|]; [|intros [= <- <-]; by auto].
  match goal with |- context [unpack_from 2 ?n cdic 16] =>
    pose proof (unpack_from_raise 2 n cdic 16) as Hoffs;
    destruct (unpack_from 2 n cdic 16) as [offs| |]; simpl;
      [|intros [= <- <-]; by auto|done]
  end.
  pose proof (py_map_raise (getslice cdic) (fun e => e = StructError) offs)
    as Hmap.
  destruct (py_map (getslice cdic) offs); [done| |].
  - intros [= <- <-]. split; [done|]. right. left. apply Hmap.
    intros off. pose proof (getslice_spec cdic off).
    by destruct (getslice cdic off).
  - destruct Hmap. intros off. pose proof (getslice_spec cdic off).
    by destruct (getslice cdic off).
Qed.

Lemma loadCdic_raises_frame_witness :
  (loadCdic (loadHuff new (Sample.huff 0x88)).2 (take 20 Sample.cdic2)).2
  = (loadHuff new (Sample.huff 0x88)).2
  ∧ (StructError = ValueError "invalid cdic header" ∨ StructError = StructError
     ∨ (StructError = AttributeError
        ∧ dictionary (loadHuff new (Sample.huff 0x88)).2 = None)).
Proof.
  apply (loadCdic_raises_frame (loadHuff new (Sample.huff 0x88)).2
           (take 20 Sample.cdic2) StructError).
  vm_compute. reflexivity.
Defined.

Lemma set_dictionary_same self d :
  dictionary self = Some d → set_dictionary self d = self.
Proof. destruct self. simpl. by intros ->. Qed.

(** X13.  A CDIC record that declares as many phrases as the dictionary
    already holds loads nothing; one that declares fewer is refused with a
    [struct.error]. *)
Theorem loadCdic_full (self : t) (cdic : bytes) (d : list slot) phrases bits :
  take 8 cdic = cdic_magic →
  unpack_LL cdic 8 = Ok (phrases, bits) →
  dictionary self = Some d →
  (phrases = py_len d → loadCdic self cdic = (Ok (), self))
  ∧ (phrases < py_len d → loadCdic self cdic = (Raise StructError, self)).
Proof.
  intros Heq HLL Hd. unfold loadCdic.
  rewrite py_slice_head8, bool_decide_eq_false_2 by (by intros ?).
  rewrite HLL, Hd.
  pose proof (Z.shiftl_nonneg 1 bits) as Hshift.
  assert (16 ≤ py_len cdic) as Hlen.
  { unfold unpack_LL in HLL.
    destruct (unpack_from 4 2 cdic 8) as [vs| |] eqn:Hvs; [|done..].
    apply unpack_from_Ok in Hvs as (_ & _ & Hsize). lia. }
  split; intros Hph.
  - rewrite Z.min_r by lia. replace (phrases - py_len d) with 0 by lia.
    assert (unpack_from 2 0 cdic 16 = Ok []) as ->.
    { unfold unpack_from. change (0 <? 0) with false.
      change (16 <? 0) with false. cbv iota.
      change (Z.of_nat 2 * 0) with 0.
      by rewrite (proj2 (Z.ltb_ge (py_len cdic - 16) 0)) by lia. }
    simpl. by rewrite app_nil_r, set_dictionary_same.
  - unfold unpack_from. by rewrite (proj2 (Z.ltb_lt _ 0)) by lia.
Qed.

Lemma loadCdic_full_witness :
  (2 = py_len [Some (["A"]%byte, 0x8000); Some ([xff]%byte, 0)] →
   loadCdic (Sample.loaded (Sample.huff 0xFF88) Sample.cdic2) Sample.cdic2
   = (Ok (), Sample.loaded (Sample.huff 0xFF88) Sample.cdic2))
  ∧ (2 < py_len [Some (["A"]%byte, 0x8000); Some ([xff]%byte, 0)] →
     loadCdic (Sample.loaded (Sample.huff 0xFF88) Sample.cdic2) Sample.cdic2
     = (Raise StructError, Sample.loaded (Sample.huff 0xFF88) Sample.cdic2)).
Proof.
  apply (loadCdic_full (Sample.loaded (Sample.huff 0xFF88) Sample.cdic2)
           Sample.cdic2 _ 2 1); vm_compute; reflexivity.
Defined.

(** Loading the same CDIC record twice: the second call is refused or
    loads nothing, it never doubles the dictionary. *)
Example loadCdic_twice :
  let self := Sample.loaded (Sample.huff 0xFF88) Sample.cdic2 in
  loadCdic self Sample.cdic2 = (Ok (), self)
  ∧ loadCdic (Sample.loaded (Sample.huff 0xFF88) Sample.cdic2) Sample.cdic1
    = (Raise StructError, self).
Proof. vm_compute. split; reflexivity. Qed.

(** *** Objects that are loaded *)

Lemma well_loaded_same_tables self self' :
  same_tables self self' → is_Some (dictionary self') →
  well_loaded self → well_loaded self'.
Proof.
  intros (H1 & H2 & H3) [d' Hd'] (d1 & mins & maxs & d & ? & ? & ? & ? & ? & ?).
  exists d1, mins, maxs, d'. rewrite H1, H2, H3. by repeat split.
Qed.

Lemma well_loaded_table_ok self : well_loaded self → table_ok self.
Proof.
  intros (d1 & mins & maxs & d & Hd1 & Hall & _). exists d1. split; [done|].
  eapply Forall_impl; [exact Hall|]. simpl. intros e He. lia.
Qed.

Lemma loadHuff_well_loaded self huff self' :
  loadHuff self huff = (Ok (), self') → well_loaded self'.
Proof.
  intros Hload.
  destruct (loadHuff_Ok _ _ _ Hload) as (d1 & dict2 & -> & _ & Hdict2 & Hall & _).
  exists d1, (mincode_table dict2), (maxcode_table dict2), [].
  split; [done|]. split.
  { eapply Forall_impl; [exact Hall|]. simpl. intros e He. lia. }
  split; [done|]. split; [by rewrite mincode_table_length|]. by split.
Qed.

Lemma loadCdic_Ok self cdic self' d :
  dictionary self = Some d → loadCdic self cdic = (Ok (), self') →
  ∃ new, self' = set_dictionary self (d ++ map Some new).
Proof.
  intros Hd. unfold loadCdic. rewrite Hd.
  repeat case_match; intros; simplify_eq. by eexists.
Qed.

Lemma loadCdic_well_loaded self cdic self' :
  loadCdic self cdic = (Ok (), self') → well_loaded self → well_loaded self'.
Proof.
  intros Hload Hself. pose proof Hself as (_d1 & _mins & _maxs & d & _ & _ & _ & _ & _ & Hd).
  destruct (loadCdic_Ok self cdic self' d Hd Hload) as (new & ->).
  eapply well_loaded_same_tables; [apply same_tables_set_dictionary| |done].
  by eexists.
Qed.

(** ** Huffcdic: what [unpack] raises on a loaded object *)

Lemma widen_spec k mins code codelen :
  match widen k mins code codelen with
  | Ok c => codelen ≤ c ∧ is_Some (py_index mins c)
  | Raise e => e = IndexError
  | OutOfFuel => True
  end.
Proof.
  revert codelen. induction k as [|k IH]; intros codelen; simpl.
  - destruct (py_index mins codelen) as [m|] eqn:Hm; [|done].
    destruct (code <? m); [done|]. split; [lia | by rewrite Hm].
  - destruct (py_index mins codelen) as [m|] eqn:Hm; [|done].
    destruct (code <? m); [|split; [lia | by rewrite Hm]].
    specialize (IH (codelen + 1)).
    destruct (widen k mins code (codelen + 1)); [|done..].
    split; [lia | apply IH].
Qed.

Lemma q_in_range data off :
  0 ≤ off → off + 8 ≤ py_len data → ∃ x, q data off = Ok x.
Proof.
  intros Hoff Hlen. unfold q, unpack_from. change (1 <? 0) with false.
  cbv iota. rewrite !(proj2 (Z.ltb_ge off 0)) by done. simpl.
  rewrite (proj2 (Z.ltb_ge _ _)) by lia. by eexists.
Qed.

(** The code lengths that the lookup gives on a loaded object. *)
Lemma lookup_code_window code self :
  well_loaded self →
  ∃ r, lookup_code code self = (r, self, [])
    ∧ (r = Raise IndexError
       ∨ ∃ codelen maxc, r = Ok (codelen, maxc) ∧ 1 ≤ codelen ≤ 32).
Proof.
  intros (d1 & mins & maxs & d & Hd1 & Hall & Hmins & Hlen & Hmaxs & Hd).
  unfold lookup_code.
  rewrite (bind_pure _ _ self (attribute (dict1 self))) by done.
  rewrite Hd1. simpl.
  rewrite (bind_pure _ _ self _ (getitem_pure _ _ _)).
  match goal with |- context [py_index ?l ?k] =>
    destruct (py_index l k) as [[[codelen term] maxc]|] eqn:Hi;
      [|eexists; split; [reflexivity | by left]]
  end.
  assert (1 ≤ codelen ≤ 32) as Hcodelen.
  { rewrite Forall_forall in Hall. apply (Hall (codelen, term, maxc)).
    pose proof (py_index_Some_range _ _ _ Hi).
    rewrite py_index_position in Hi by done.
    by apply list_elem_of_lookup_2 in Hi. }
  destruct (term =? 0).
  2:{ eexists. split; [reflexivity|]. right. by exists codelen, maxc. }
  rewrite (bind_pure _ _ self (attribute (mincode self))) by done.
  rewrite Hmins. simpl.
  rewrite (bind_pure _ _ self (widen (length mins + Z.abs_nat codelen)
                                 mins code codelen)) by done.
  pose proof (widen_fuel (length mins + Z.abs_nat codelen) mins code codelen)
    as Hfuel.
  pose proof (widen_spec (length mins + Z.abs_nat codelen) mins code codelen)
    as Hw.
  destruct (widen _ mins code codelen) as [c|e|];
    [|subst; eexists; split; [reflexivity | by left]
     |destruct Hfuel; [unfold py_len; lia | done]].
  destruct Hw as [Hge [m Hm]].
  apply py_index_Some_range in Hm. unfold py_len in Hm.
  rewrite (bind_pure _ _ self (attribute (maxcode self))) by done.
  rewrite Hmaxs. simpl.
  rewrite (bind_pure _ _ self _ (getitem_pure _ _ _)).
  destruct (py_index maxs c) as [maxc'|];
    [|eexists; split; [reflexivity | by left]].
  eexists. split; [reflexivity|]. right. exists c, maxc'. split; [done | lia].
Qed.

(** Reading the next code on a loaded object, inside the record: the
    reload stays within the padded record, no shift count is negative, and
    the bit window is kept. *)
Lemma next_code_window data L bitsleft pos x n self :
  well_loaded self → py_len data = L + 8 → window L bitsleft pos n →
  ∃ r, next_code data bitsleft pos x n self = (r, self, [])
    ∧ (r = Raise IndexError
       ∨ ∃ pos' x' n' code codelen maxc,
           r = Ok (pos', x', n', bitsleft - codelen, code, codelen, maxc)
           ∧ 1 ≤ codelen ≤ 32
           ∧ (0 ≤ bitsleft - codelen → window L (bitsleft - codelen) pos' n')).
Proof.
  intros Hself Hdata (Hbits & Hn & Hpos & Hwin). unfold next_code.
  rewrite (bind_pure _ _ self (reload data pos x n)) by done.
  assert (∃ pos1 x1 n1, reload data pos x n = Ok (pos1, x1, n1)
            ∧ 0 < n1 ≤ 32 ∧ 0 ≤ pos1
            ∧ 8 * pos1 + (32 - n1) + bitsleft = 8 * L)
    as (pos1 & x1 & n1 & -> & Hn1 & Hpos1 & Hwin1).
  { unfold reload. destruct (Z.leb_spec n 0).
    - destruct (q_in_range data (pos + 4)) as [x1 ->]; [lia..|].
      exists (pos + 4), x1, (n + 32). simpl. split; [done | lia].
    - exists pos, x, n. split; [done | lia]. }
  rewrite (bind_pure _ _ self (py_rshift x1 n1)) by done.
  unfold py_rshift. rewrite (proj2 (Z.ltb_ge n1 0)) by lia.
  destruct (lookup_code_window (Z.land (x1 ≫ n1) (1 ≪ 32 - 1)) self Hself)
    as (r & Hr & Hcases).
  rewrite (bind_pure _ _ self r) by done.
  destruct Hcases as [->|(codelen & maxc & -> & Hcodelen)].
  { eexists. split; [reflexivity | by left]. }
  eexists. split; [reflexivity|]. right.
  exists pos1, x1, (n1 - codelen), (Z.land (x1 ≫ n1) (1 ≪ 32 - 1)), codelen, maxc.
  split; [done|]. split; [done|]. intros Hleft. unfold window. lia.
Qed.

Lemma resolve_OutOfFuel (rec : bytes → M bytes) self d r slice self1 l1 :
  dictionary self = Some d →
  py_index d r = Some (Some (slice, 0)) →
  rec slice (set_dictionary self (<[position (py_len d) r := None]> d))
  = (OutOfFuel, self1, l1) →
  resolve rec d r slice 0 self = (OutOfFuel, self1, position (py_len d) r :: l1).
Proof.
  intros Hd Hi Hrec.
  pose proof (py_index_Some_range _ _ _ Hi) as Hrange.
  unfold resolve. simpl. unfold mbind, M_bind, dictionary_setitem at 1.
  rewrite Hd, py_setitem_position by done. unfold decoding. by rewrite Hrec.
Qed.

Lemma well_loaded_once {A} (m : M A) self out self' log :
  once_at self m → m self = (out, self', log) →
  well_loaded self → well_loaded self' ∧ same_tables self self'.
Proof.
  intros Honce Hrun Hself. destruct (Honce _ _ _ Hrun) as (Ht & Hslots).
  split; [|done]. pose proof Hself as (_d1 & _mins & _maxs & d & _ & _ & _ & _ & _ & Hd).
  destruct (Hslots d Hd) as (d' & Hd' & _).
  eapply well_loaded_same_tables; [done| |done]. by eexists.
Qed.

Lemma window_start (data : bytes) : window (py_len data) (py_len data * 8) 0 32.
Proof. pose proof (py_len_nonneg data). unfold window. lia. Qed.

Lemma unpack_loop_lookup_errors fuel :
  ∀ data L bitsleft pos x n s self,
    well_loaded self → py_len data = L + 8 → window L bitsleft pos n →
    raises_lookup_errors self (unpack_loop fuel data bitsleft pos x n s).
Proof.
  induction fuel as [|fuel IH];
    intros data L bitsleft pos x n s self Hself Hdata Hwin out self' log e Hrun ->.
  { by simplify_eq/=. }
  destruct (next_code_window data L bitsleft pos x n self Hself Hdata Hwin)
    as (rn & Hnext & Hcases).
  destruct Hcases
    as [->|(pos' & x' & n' & code & codelen & maxc & -> & Hcodelen & Hwin')].
  { simpl in Hrun. rewrite (bind_pure _ _ self _ Hnext) in Hrun.
    simplify_eq. by left. }
  destruct (Z.ltb_spec (bitsleft - codelen) 0) as [Hneg|Hleft].
  { by rewrite (unpack_loop_stop _ _ _ _ _ _ _ _ _ _ _ _ _ _ _ Hnext Hneg)
      in Hrun. }
  specialize (Hwin' Hleft).
  assert (slot_index code codelen maxc = Ok ((maxc - code) ≫ (32 - codelen)))
    as Hidx.
  { unfold slot_index, py_rshift. by rewrite (proj2 (Z.ltb_ge _ 0)) by lia. }
  pose proof Hself as (_d1 & _mins & _maxs & d & _ & _ & _ & _ & _ & Hd).
  rewrite (unpack_loop_fetch _ _ _ _ _ _ _ _ _ _ _ _ _ _ _ _ _
             Hnext Hleft Hidx Hd) in Hrun.
  set (r := (maxc - code) ≫ (32 - codelen)) in *.
  destruct (py_index d r) as [[[slice flag]|]|] eqn:Hi;
    [|simplify_eq; by right|simplify_eq; by left].
  assert (∀ self0, well_loaded self0 →
            raises_lookup_errors self0 (unpack fuel slice)) as Hrec.
  { intros self0 Hself0. destruct (unpack_unfold slice) as [x0 Hx0].
    intros out0 self1 l1 e0 Hrun0 ->. rewrite Hx0 in Hrun0.
    eapply (IH _ (py_len slice)); [exact Hself0| |apply window_start|done..].
    rewrite py_len_app. reflexivity. }
  apply bind_inv in Hrun
    as [(slice' & self1 & l1 & l2 & Hres & Hloop & ->)|[Hres _]].
  - (* the slot gave its bytes: the loop goes on *)
    assert (well_loaded self1) as Hself1.
    { eapply (well_loaded_once _ self); [|exact Hres|done].
      apply (once_at_resolve _ _ _ _ _ _ Hd Hi).
      intros self0. apply unpack_once. }
    by eapply (IH data L); [exact Hself1|..].
  - (* resolving the slot raised *)
    destruct (Z.eqb_spec flag 0) as [->|Hflag].
    2:{ revert Hres. unfold resolve.
        by rewrite (proj2 (Z.eqb_neq _ _)) by done. }
    set (self0 := set_dictionary self (<[position (py_len d) r := None]> d)).
    assert (well_loaded self0) as Hself0.
    { eapply well_loaded_same_tables;
        [apply same_tables_set_dictionary|by eexists|done]. }
    revert Hres.
    destruct (unpack fuel slice self0) as [[[slice'|e0|] self1] l1] eqn:Hcall.
    + destruct (unpack_once fuel slice self0 _ _ _ Hcall) as (_ & Hslots).
      destruct (Hslots _ eq_refl) as (d1 & Hd1 & (Hlen1 & _) & _).
      rewrite length_insert in Hlen1.
      by rewrite (resolve_unresolved _ self d r slice slice' self1 l1 d1).
    + rewrite (resolve_raise _ self d r slice e0 self1 l1) by done.
      intros [= -> _ _]. by eapply (Hrec self0).
    + by rewrite (resolve_OutOfFuel _ self d r slice self1 l1).
Qed.

(** X14.  On a loaded object -- a fast table with code lengths from 1 to
    32, code tables of at most 33 entries, a dictionary -- [unpack] ends
    on every record; it returns, or raises the [IndexError] of a lookup
    out of range or the [TypeError] of a slot that is being resolved, and
    nothing else; the code tables are as they were and the object is
    still loaded. *)
Theorem unpack_lookup_errors (self : t) (data : bytes) :
  well_loaded self →
  ∃ fuel out self' log,
    (∀ fuel', (fuel ≤ fuel')%nat → unpack fuel' data self = (out, self', log))
    ∧ match out with
      | Ok _ => True
      | Raise e => lookup_error e
      | OutOfFuel => False
      end
    ∧ same_tables self self' ∧ well_loaded self'.
Proof.
  intros Hself.
  destruct (unpack_ends self data (well_loaded_table_ok _ Hself))
    as (fuel & out & self' & log & Hout & Hrun).
  exists fuel, out, self', log. split; [done|].
  specialize (Hrun fuel (le_n _)).
  destruct (well_loaded_once _ _ _ _ _ (unpack_once fuel data self) Hrun Hself)
    as [Hself' Htables].
  split; [|done].
  destruct out as [o|e|]; [done| |done].
  destruct (unpack_unfold data) as [x0 Hx0]. rewrite Hx0 in Hrun.
  eapply (unpack_loop_lookup_errors fuel _ (py_len data));
    [exact Hself| |apply window_start|exact Hrun|done].
  rewrite py_len_app. reflexivity.
Qed.

Lemma unpack_lookup_errors_witness :
  ∃ fuel out self' log,
    (∀ fuel', (fuel ≤ fuel')%nat →
       unpack fuel' [xfe]%byte (Sample.loaded (Sample.huff 0xFF88) Sample.cdic2)
       = (out, self', log))
    ∧ match out with
      | Ok _ => True
      | Raise e => lookup_error e
      | OutOfFuel => False
      end
    ∧ same_tables (Sample.loaded (Sample.huff 0xFF88) Sample.cdic2) self'
    ∧ well_loaded self'.
Proof.
  apply (unpack_lookup_errors (Sample.loaded (Sample.huff 0xFF88) Sample.cdic2)).
  apply (loadCdic_well_loaded (loadHuff new (Sample.huff 0xFF88)).2 Sample.cdic2);
    [vm_compute; reflexivity|].
  apply (loadHuff_well_loaded new (Sample.huff 0xFF88)). vm_compute. reflexivity.
Defined.

(** A run of [unpack] on a loaded object, whatever the fuel. *)
Lemma unpack_loaded fuel data self out self' log :
  well_loaded self → unpack fuel data self = (out, self', log) →
  well_loaded self' ∧ ∀ e, out = Raise e → lookup_error e.
Proof.
  intros Hself Hrun.
  destruct (well_loaded_once _ _ _ _ _ (unpack_once fuel data self) Hrun Hself)
    as [Hself' _].
  split; [done|]. intros e ->.
  destruct (unpack_unfold data) as [x0 Hx0]. rewrite Hx0 in Hrun.
  eapply (unpack_loop_lookup_errors fuel _ (py_len data));
    [exact Hself| |apply window_start|exact Hrun|done].
  rewrite py_len_app. reflexivity.
Qed.

Lemma unpack_records_loaded fuel records :
  ∀ self out self' log,
    well_loaded self → unpack_records fuel records self = (out, self', log) →
    well_loaded self'
    ∧ (∀ e, out = Raise e → lookup_error e)
    ∧ (∀ os, out = Ok os → length os = length records).
Proof.
  induction records as [|r rs IH]; intros self out self' log Hself Hrun.
  { unfold unpack_records, mret, M_ret in Hrun. simplify_eq.
    split; [done|]. split; [done|]. by intros os [= <-]. }
  simpl in Hrun.
  apply bind_inv in Hrun
    as [(o & self1 & l1 & l2 & Hr & Hrest & ->)|[Hr Hout]].
  - destruct (unpack_loaded _ _ _ _ _ _ Hself Hr) as [Hself1 _].
    apply bind_inv in Hrest
      as [(os & self2 & l3 & l4 & Hrs & Hret & ->)|[Hrs Hout]].
    + destruct (IH _ _ _ _ Hself1 Hrs) as (Hself2 & _ & Hlen).
      unfold mret, M_ret in Hret. simplify_eq.
      split; [done|]. split; [done|]. intros os' [= <-]. simpl.
      by rewrite (Hlen os).
    + destruct (IH _ _ _ _ Hself1 Hrs) as (Hself2 & Herr & _).
      split; [done|]. split; [|intros os ->; by destruct (Hout os)].
      intros e ->. by apply (Herr e).
  - destruct (unpack_loaded _ _ _ _ _ _ Hself Hr) as [Hself1 Herr].
    split; [done|]. split; [|intros os ->; by destruct (Hout os)].
    intros e ->. by apply (Herr e).
Qed.

(** X15.  So for the records of a document, decoded in order on one
    loaded object: the run ends; it returns one output for each record,
    or raises [IndexError] or [TypeError]; the object is still loaded. *)
Theorem unpack_records_lookup_errors (records : list bytes) (self : t) :
  well_loaded self →
  ∃ fuel out self' log,
    (∀ fuel', (fuel ≤ fuel')%nat →
       unpack_records fuel' records self = (out, self', log))
    ∧ match out with
      | Ok os => length os = length records
      | Raise e => lookup_error e
      | OutOfFuel => False
      end
    ∧ well_loaded self'.
Proof.
  intros Hself.
  destruct (unpack_records_ends records self (well_loaded_table_ok _ Hself))
    as (fuel & out & self' & log & Hout & Hrun).
  exists fuel, out, self', log. split; [done|].
  destruct (unpack_records_loaded _ _ _ _ _ _ Hself (Hrun fuel (le_n _)))
    as (Hself' & Herr & Hlen).
  split; [|done]. destruct out as [os|e|]; [by apply Hlen | by apply Herr | done].
Qed.

Lemma unpack_records_lookup_errors_witness :
  ∃ fuel out self' log,
    (∀ fuel', (fuel ≤ fuel')%nat →
       unpack_records fuel' [[xfe]; [xfe; xff]]%byte
         (Sample.loaded (Sample.huff 0xFF88) Sample.cdic2)
       = (out, self', log))
    ∧ match out with
      | Ok os => length os = length [[xfe]; [xfe; xff]]%byte
      | Raise e => lookup_error e
      | OutOfFuel => False
      end
    ∧ well_loaded self'.
Proof.
  apply (unpack_records_lookup_errors [[xfe]; [xfe; xff]]%byte
           (Sample.loaded (Sample.huff 0xFF88) Sample.cdic2)).
  apply (loadCdic_well_loaded (loadHuff new (Sample.huff 0xFF88)).2 Sample.cdic2);
    [vm_compute; reflexivity|].
  apply (loadHuff_well_loaded new (Sample.huff 0xFF88)). vm_compute. reflexivity.
Defined.

(** With every slot resolved, the loop leaves the object alone and calls
    nothing, also when it runs out of fuel. *)
Lemma unpack_loop_resolved_pure fuel :
  ∀ data bitsleft pos x n s self d,
    dictionary self = Some d → all_resolved d →
    ∃ out, unpack_loop fuel data bitsleft pos x n s self = (out, self, []).
Proof.
  induction fuel as [|fuel IH]; intros data bitsleft pos x n s self d Hd Hres.
  { by eexists. }
  destruct (unpack_loop_cases data bitsleft pos x n s self)
    as [(out & _ & Hrun)
       |(pos' & x' & n' & bitsleft' & d' & r & slice & flag
         & Hd' & Hi & _ & _ & Hrun)].
  { by exists out. }
  assert (d' = d) as -> by congruence.
  pose proof (py_index_Some_range _ _ _ Hi) as Hrange.
  rewrite py_index_position in Hi by done.
  apply list_elem_of_lookup_2 in Hi.
  destruct (proj1 (Forall_forall _ _) Hres _ Hi) as (b & fl & [= <- <-] & Hflag).
  rewrite Hrun. unfold resolve. rewrite (proj2 (Z.eqb_neq _ _)) by done.
  rewrite (bind_pure _ _ self (Ok slice)) by done.
  by apply (IH _ _ _ _ _ _ _ d).
Qed.

(** X16.  On a dictionary whose slots are all resolved, the records of a
    document are decoded independently of each other: the run is the map
    of [unpack] over the records, each on the object as it is, which is
    not touched. *)
Theorem unpack_records_resolved (fuel : nat) (records : list bytes)
        (self : t) (d : list slot) :
  dictionary self = Some d → all_resolved d →
  unpack_records fuel records self
  = (py_map (fun r => (unpack fuel r self).1.1) records, self, []).
Proof.
  intros Hd Hres.
  assert (∀ r, ∃ out, unpack fuel r self = (out, self, [])) as Hpure.
  { intros r. destruct (unpack_unfold r) as [x0 Hx0]. rewrite Hx0.
    by apply (unpack_loop_resolved_pure fuel _ _ _ _ _ _ _ d). }
  induction records as [|r rs IH]; [done|]. simpl.
  destruct (Hpure r) as [out Hr]. rewrite Hr. simpl.
  rewrite (bind_pure _ _ self out) by done.
  destruct out as [o|e|]; [|done..]. simpl.
  rewrite (bind_pure _ _ self _ IH).
  by destruct (py_map _ rs).
Qed.

Lemma unpack_records_resolved_witness :
  unpack_records 10 [[xff]; [xff; xff]]%byte
    (Sample.loaded (Sample.huff 0xFF88) Sample.cdic1)
  = (py_map (fun r => (unpack 10 r
                         (Sample.loaded (Sample.huff 0xFF88) Sample.cdic1)).1.1)
       [[xff]; [xff; xff]]%byte,
     Sample.loaded (Sample.huff 0xFF88) Sample.cdic1, []).
Proof.
  apply (unpack_records_resolved 10 _ _ [Some (["Z"]%byte, 0x8000)]).
  - vm_compute. reflexivity.
  - constructor; [|constructor]. exists ["Z"]%byte, 0x8000.
    split; [reflexivity | lia].
Defined.

(** X17.  When the call of [unpack] on an unresolved slot raises, the
    exception goes through and the slot stays [None]: the stored bytes are
    lost, and a later reference to the slot finds [None]. *)
Theorem failed_resolution_leaves_None
        (fuel : nat) (self : t) (d : list slot) (r : Z) (slice : bytes)
        (e : exn) (self1 : t) (l1 : list nat) :
  dictionary self = Some d →
  py_index d r = Some (Some (slice, 0)) →
  unpack fuel slice (set_dictionary self (<[position (py_len d) r := None]> d))
  = (Raise e, self1, l1) →
  resolve (unpack fuel) d r slice 0 self
  = (Raise e, self1, position (py_len d) r :: l1)
  ∧ ∃ d1, dictionary self1 = Some d1 ∧ py_index d1 r = Some None.
Proof.
  intros Hd Hi Hcall. split; [by apply resolve_raise|].
  pose proof (py_index_Some_range _ _ _ Hi) as Hrange.
  rewrite py_index_position in Hi by done.
  set (k := position (py_len d) r) in *.
  destruct (unpack_once fuel slice _ _ _ _ Hcall) as (_ & Hslots).
  destruct (Hslots _ eq_refl) as (d1 & Hd1 & (Hlen & _ & Hun & Hout & _) & _).
  rewrite length_insert in Hlen.
  exists d1. split; [done|].
  rewrite py_index_position by (unfold py_len in *; lia).
  unfold py_len. rewrite Hlen. fold (py_len d). fold k.
  rewrite Hout; [apply list_lookup_insert_eq; by apply lookup_lt_Some in Hi|].
  intros Hk. destruct (Hun k Hk) as [b Hb].
  rewrite list_lookup_insert_eq in Hb by (by apply lookup_lt_Some in Hi). done.
Qed.

Lemma failed_resolution_leaves_None_witness :
  resolve (unpack 10)
    [Some (["A"]%byte, 0x8000); Some ([xfe]%byte, 0)] 1 [xfe]%byte 0
    (Sample.loaded (Sample.huff 0xFF88) Sample.cdic_self)
  = (Raise TypeError,
     set_dictionary (Sample.loaded (Sample.huff 0xFF88) Sample.cdic_self)
       [Some (["A"]%byte, 0x8000); None],
     position (py_len [Some (["A"]%byte, 0x8000); Some ([xfe]%byte, 0)]) 1 :: [])
  ∧ ∃ d1,
      dictionary
        (set_dictionary (Sample.loaded (Sample.huff 0xFF88) Sample.cdic_self)
           [Some (["A"]%byte, 0x8000); None])
      = Some d1
      ∧ py_index d1 1 = Some None.
Proof.
  apply (failed_resolution_leaves_None 10
           (Sample.loaded (Sample.huff 0xFF88) Sample.cdic_self));
    vm_compute; reflexivity.
Defined.

(** A slot that refers to itself: the first record that uses it raises
    [TypeError] and leaves [None] in the slot, and so does every record
    that uses it afterwards. *)
Example unpack_self_reference :
  let self := Sample.loaded (Sample.huff 0xFF88) Sample.cdic_self in
  let '(out, self', log) := unpack 10 [xfe]%byte self in
  dictionary self = Some [Some (["A"]%byte, 0x8000); Some ([xfe]%byte, 0)]
  ∧ out = Raise TypeError
  ∧ dictionary self' = Some [Some (["A"]%byte, 0x8000); None]
  ∧ log = [1%nat]
  ∧ unpack 10 [xfe]%byte self' = (Raise TypeError, self', []).
Proof. vm_compute. repeat split; reflexivity. Qed.

(** ** BookMobi: records, the choice of the decoder, trailing entries *)

Lemma py_slice_from_0 {A} (l : list A) k :
  py_slice l 0 k = take (Z.to_nat (clamp (py_len l) k)) l.
Proof.
  pose proof (py_len_nonneg l). unfold py_slice.
  replace (clamp (py_len l) 0) with 0 by (unfold clamp; simpl; lia).
  by rewrite Z.sub_0_r, drop_0.
Qed.

Lemma py_slice_read {A} (l : list A) a b :
  0 ≤ a ≤ b → py_slice l a b = take (Z.to_nat (b - a)) (drop (Z.to_nat a) l).
Proof.
  intros Hab. pose proof (py_len_nonneg l) as Hl. unfold py_slice, clamp.
  rewrite !(proj2 (Z.ltb_ge _ _)) by lia.
  destruct (Z.le_gt_cases a (py_len l)).
  - rewrite (Z.min_l a) by lia. destruct (Z.le_gt_cases b (py_len l)).
    + by rewrite Z.min_l by lia.
    + rewrite Z.min_r by lia.
      rewrite !take_ge; [done|rewrite length_drop; unfold py_len in *; lia..].
  - rewrite !Z.min_r by lia. rewrite !drop_ge by (unfold py_len in *; lia).
    by rewrite !take_nil.
Qed.

Lemma py_slice_to_end {A} (l : list A) a :
  0 ≤ a → py_slice l a (py_len l) = drop (Z.to_nat a) l.
Proof.
  intros Ha. pose proof (py_len_nonneg l) as Hl. unfold py_slice, clamp.
  rewrite !(proj2 (Z.ltb_ge _ _)) by lia. rewrite (Z.min_l (py_len l)) by lia.
  destruct (Z.le_gt_cases a (py_len l)).
  - rewrite Z.min_l by lia. apply take_ge. rewrite length_drop.
    unfold py_len in *. lia.
  - rewrite Z.min_r by lia. rewrite !drop_ge by (unfold py_len in *; lia).
    by rewrite take_nil.
Qed.

Lemma py_slice_app {A} (l : list A) a b c :
  0 ≤ a ≤ b → b ≤ c → py_slice l a b ++ py_slice l b c = py_slice l a c.
Proof.
  intros Hab Hbc. rewrite !py_slice_read by lia.
  replace (drop (Z.to_nat b) l)
    with (drop (Z.to_nat (b - a)) (drop (Z.to_nat a) l))
    by (rewrite drop_drop; f_equal; lia).
  rewrite take_take_drop. f_equal. lia.
Qed.

Section Records.

Import Mobi.

Lemma loadRecord_next self i off a u n off2 a2 u2 :
  records self !! i = Some (off, a, u) →
  header self !! "numberOfRecords" = Some n → i ≠ n - 1 →
  records self !! (i + 1) = Some (off2, a2, u2) → 0 ≤ off ≤ off2 →
  loadRecord self i = Done (py_slice (f self) off off2).
Proof.
  intros Hi Hn Hlast Hnext Hoff. unfold loadRecord, getkey.
  rewrite Hi. simpl. rewrite (proj2 (Z.ltb_ge off 0)) by lia.
  rewrite Hn. simpl. rewrite (proj2 (Z.eqb_neq _ _)) by done.
  rewrite Hnext. simpl. unfold read_at.
  rewrite !(proj2 (Z.ltb_ge _ 0)) by lia. by rewrite py_slice_read.
Qed.

Lemma loadRecord_last self i off a u :
  records self !! i = Some (off, a, u) →
  header self !! "numberOfRecords" = Some (i + 1) → 0 ≤ off →
  loadRecord self i = Done (py_slice (f self) off (py_len (f self))).
Proof.
  intros Hi Hn Hoff. unfold loadRecord, getkey.
  rewrite Hi. simpl. rewrite (proj2 (Z.ltb_ge off 0)) by lia.
  rewrite Hn. simpl. rewrite (proj2 (Z.eqb_eq _ _)) by lia.
  unfold read_all_at. rewrite (proj2 (Z.ltb_ge off 0)) by lia.
  by rewrite py_slice_to_end.
Qed.

(** X18.  A record is the slice of the file from its offset to the
    offset of the next record; the last record runs to the end of the
    file. *)
Theorem loadRecord_slice (self : t) (i off a u n : Z) :
  records self !! i = Some (off, a, u) →
  header self !! "numberOfRecords" = Some n → 0 ≤ off →
  (i = n - 1 →
   loadRecord self i = Done (py_slice (f self) off (py_len (f self))))
  ∧ (∀ off2 a2 u2,
       i ≠ n - 1 → records self !! (i + 1) = Some (off2, a2, u2) →
       off ≤ off2 →
       loadRecord self i = Done (py_slice (f self) off off2)).
Proof.
  intros Hi Hn Hoff. split.
  - intros ->. apply (loadRecord_last self _ off a u); [done| |done].
    rewrite Hn. f_equal. lia.
  - intros off2 a2 u2 Hlast Hnext Hle.
    by apply (loadRecord_next self i off a u n off2 a2 u2).
Qed.

(** X19.  Consecutive records tile the file: with offsets in ascending
    order, a record followed by the next one is the slice of the file
    from the offset of the first to the offset after the second. *)
Theorem loadRecord_tiles (self : t) (i n off1 a1 u1 off2 a2 u2 off3 a3 u3 : Z) :
  header self !! "numberOfRecords" = Some n → i + 1 < n - 1 →
  records self !! i = Some (off1, a1, u1) →
  records self !! (i + 1) = Some (off2, a2, u2) →
  records self !! (i + 2) = Some (off3, a3, u3) →
  0 ≤ off1 ≤ off2 → off2 ≤ off3 →
  ∃ r1 r2,
    loadRecord self i = Done r1 ∧ loadRecord self (i + 1) = Done r2
    ∧ r1 ++ r2 = py_slice (f self) off1 off3.
Proof.
  intros Hn Hi H1 H2 H3 H12 H23.
  exists (py_slice (f self) off1 off2), (py_slice (f self) off2 off3).
  split; [|split].
  - apply (loadRecord_next self i off1 a1 u1 n off2 a2 u2); done || lia.
  - apply (loadRecord_next self (i + 1) off2 a2 u2 n off3 a3 u3);
      try done; try lia.
    by replace (i + 1 + 1) with (i + 2) by lia.
  - apply py_slice_app; lia.
Qed.

(** A record that is not in the table, and a record that is not the last
    and has no successor in the table: [KeyError]. *)
Lemma loadRecord_missing self i :
  records self !! i = None → loadRecord self i = Fail KeyError.
Proof. intros Hi. unfold loadRecord, getkey. by rewrite Hi. Qed.

Lemma load_cdics_well_loaded self cs :
  ∀ c c', load_cdics self cs c = Done c' →
          Huffcdic.well_loaded c → Huffcdic.well_loaded c'.
Proof.
  induction cs as [|k cs IH]; intros c c'; simpl; [by intros [= <-]|].
  destruct (getkey (mobi self) "huffmanRecordOffset") as [off| |]; simpl; [|done..].
  destruct (loadRecord self (off + k)) as [rec_cdic| |]; simpl; [|done..].
  destruct (loadCdic c rec_cdic) as [[[]| |] c1] eqn:Hload; simpl; [|done..].
  intros Hrest Hc. apply (IH _ _ Hrest).
  by apply (loadCdic_well_loaded c rec_cdic).
Qed.

(** X20.  On Python 3, [unpackFunction] returns a decoder for PalmDOC
    compression only, and it is [unpack3]. *)
Theorem unpackFunction_python3 (py_major : Z) (self : t) (dec : decoder) :
  3 ≤ py_major →
  unpackFunction py_major self = Done dec →
  palmdoc self !! "compression" = Some 2 ∧ dec = Palmdoc_unpack3.
Proof.
  intros Hpy. unfold unpackFunction, getkey, compression_type.
  rewrite (proj2 (Z.ltb_ge py_major 3)) by done.
  destruct (palmdoc self !! "compression") as [key|]; simpl; [|done].
  destruct (Z.eqb_spec key 1); simpl; [done|].
  destruct (Z.eqb_spec key 2) as [->|]; simpl; [by intros [= <-]|].
  destruct (Z.eqb_spec key 17480); simpl; [|done].
  destruct (mobi self !! "huffmanRecordOffset"); simpl; [|done].
  by destruct (loadRecord self _).
Qed.

(** X21.  On Python 2, the decoder is the one the compression type names;
    for HUFF/CDIC it is the method of an object that is loaded. *)
Theorem unpackFunction_python2 (py_major : Z) (self : t) (dec : decoder) :
  py_major < 3 →
  unpackFunction py_major self = Done dec →
  (palmdoc self !! "compression" = Some 1 ∧ dec = Uncompression_unpack)
  ∨ (palmdoc self !! "compression" = Some 2 ∧ dec = Palmdoc_unpack)
  ∨ (palmdoc self !! "compression" = Some 17480
     ∧ ∃ compression,
         dec = Huffcdic_unpack compression
         ∧ Huffcdic.well_loaded compression).
Proof.
  intros Hpy. unfold unpackFunction, getkey, compression_type.
  rewrite (proj2 (Z.ltb_lt py_major 3)) by done.
  destruct (palmdoc self !! "compression") as [key|]; simpl; [|done].
  destruct (Z.eqb_spec key 1) as [->|]; simpl; [intros [= <-]; by left|].
  destruct (Z.eqb_spec key 2) as [->|]; simpl; [intros [= <-]; right; by left|].
  destruct (Z.eqb_spec key 17480) as [->|]; simpl; [|done].
  destruct (mobi self !! "huffmanRecordOffset") as [off|]; simpl; [|done].
  destruct (loadRecord self off) as [rec_huff| |]; simpl; [|done..].
  destruct (loadHuff new rec_huff) as [[[]| |] c] eqn:Hload; simpl; [|done..].
  destruct (mobi self !! "huffmanRecordCount") as [count|]; simpl; [|done].
  destruct (load_cdics self (py_range 1 count) c) as [c'| |] eqn:Hcdics;
    simpl; [|done..].
  intros [= <-]. right. right. split; [done|]. exists c'. split; [done|].
  apply (load_cdics_well_loaded _ _ _ _ Hcdics).
  by apply (loadHuff_well_loaded new rec_huff).
Qed.

Lemma loadRecord_slice_witness :
  (1 = 5 - 1 →
   loadRecord (Sample.book 2) 1
   = Done (py_slice (f (Sample.book 2)) 16 (py_len (f (Sample.book 2)))))
  ∧ (∀ off2 a2 u2,
       1 ≠ 5 - 1 → records (Sample.book 2) !! (1 + 1) = Some (off2, a2, u2) →
       16 ≤ off2 →
       loadRecord (Sample.book 2) 1
       = Done (py_slice (f (Sample.book 2)) 16 off2)).
Proof.
  apply (loadRecord_slice (Sample.book 2) 1 16 0 0 5);
    [vm_compute; reflexivity | vm_compute; reflexivity | lia].
Defined.

Lemma loadRecord_tiles_witness :
  ∃ r1 r2,
    loadRecord (Sample.book 2) 1 = Done r1
    ∧ loadRecord (Sample.book 2) (1 + 1) = Done r2
    ∧ r1 ++ r2 = py_slice (f (Sample.book 2)) 16 19.
Proof.
  apply (loadRecord_tiles (Sample.book 2) 1 5 16 0 0 18 0 0 19 0 0);
    try (vm_compute; reflexivity); lia.
Defined.

Lemma unpackFunction_python3_witness :
  palmdoc (Sample.book 2) !! "compression" = Some 2
  ∧ Palmdoc_unpack3 = Palmdoc_unpack3.
Proof.
  apply (unpackFunction_python3 3 (Sample.book 2)); [lia|].
  vm_compute. reflexivity.
Defined.

Lemma unpackFunction_python2_witness :
  (palmdoc (Sample.book 17480) !! "compression" = Some 1
   ∧ Huffcdic_unpack (Sample.loaded (Sample.huff 0xFF88) Sample.cdic2)
     = Uncompression_unpack)
  ∨ (palmdoc (Sample.book 17480) !! "compression" = Some 2
     ∧ Huffcdic_unpack (Sample.loaded (Sample.huff 0xFF88) Sample.cdic2)
       = Palmdoc_unpack)
  ∨ (palmdoc (Sample.book 17480) !! "compression" = Some 17480
     ∧ ∃ compression,
         Huffcdic_unpack (Sample.loaded (Sample.huff 0xFF88) Sample.cdic2)
         = Huffcdic_unpack compression
         ∧ Huffcdic.well_loaded compression).
Proof.
  apply (unpackFunction_python2 2 (Sample.book 17480)); [lia|].
  vm_compute. reflexivity.
Defined.

(** On Python 3 a HUFF/CDIC book is refused at the tag of the HUFF
    record, and an uncompressed book for want of [unpack3]. *)
Example unpackFunction_python3_refuses :
  unpackFunction 3 (Sample.book 17480)
  = Fail (Exn (ValueError "invalid huff header"))
  ∧ unpackFunction 3 (Sample.book 1) = Fail (Exn AttributeError)
  ∧ unpackFunction 3 (Sample.book 3) = Fail KeyError.
Proof. vm_compute. repeat split; reflexivity. Qed.

End Records.

Section Trailing_entries.

Import Mobi.

Variable decodeVarint : Z → Z.

Lemma strip_entries_spec fuel :
  ∀ extraflags record,
    match strip_entries decodeVarint fuel extraflags record with
    | Ok r => ∃ k, r = take k record
    | Raise e => e = StructError
    | OutOfFuel => True
    end.
Proof.
  induction fuel as [|fuel IH]; intros extraflags record; simpl.
  { destruct (Z.land extraflags 1 =? 0); [|done]. exists (length record).
    by rewrite firstn_all. }
  destruct (Z.land extraflags 1 =? 0).
  { exists (length record). by rewrite firstn_all. }
  match goal with |- context [unpack_from 4 1 ?b 0] =>
    pose proof (unpack_from_raise 4 1 b 0) as Hvs;
    destruct (unpack_from 4 1 b 0) as [vs| |]; simpl; [|done..]
  end.
  match goal with |- context [strip_entries _ fuel ?fl ?r] =>
    specialize (IH fl r); destruct (strip_entries decodeVarint fuel fl r);
      [|done..]
  end.
  destruct IH as [k ->]. rewrite py_slice_from_0, take_take. by eexists.
Qed.

(** X22.  Whatever the flags and the sizes found in the record, what is
    left of a record after its trailing entries are removed is a prefix of
    the record; the only exception is [struct.error], of a record that is
    too short. *)
Theorem strip_trailing_prefix (fuel : nat) (flags : Z) (record : bytes) :
  match strip_trailing decodeVarint fuel flags record with
  | Ok r => ∃ k, r = take k record
  | Raise e => e = StructError
  | OutOfFuel => True
  end.
Proof.
  unfold strip_trailing.
  pose proof (strip_entries_spec fuel (flags ≫ 1) record) as Hentries.
  destruct (strip_entries decodeVarint fuel (flags ≫ 1) record) as [r| |];
    simpl; [|done..].
  destruct Hentries as [k ->].
  destruct (Z.land flags 1 =? 0); [by eexists|].
  match goal with |- context [unpack_from 1 1 ?b 0] =>
    pose proof (unpack_from_raise 1 1 b 0) as Hvs;
    destruct (unpack_from 1 1 b 0) as [vs| |]; simpl; [|done..]
  end.
  rewrite py_slice_from_0, take_take. by eexists.
Qed.

Lemma strip_entries_ends fuel :
  ∀ extraflags record,
    0 ≤ extraflags < 2 ^ Z.of_nat fuel →
    strip_entries decodeVarint fuel extraflags record ≠ OutOfFuel.
Proof.
  induction fuel as [|fuel IH]; intros extraflags record Hflags; simpl.
  { change (2 ^ Z.of_nat 0) with 1 in Hflags.
    by replace extraflags with 0 by lia. }
  destruct (Z.land extraflags 1 =? 0); [done|].
  match goal with |- context [unpack_from 4 1 ?b 0] =>
    pose proof (unpack_from_raise 4 1 b 0) as Hvs;
    destruct (unpack_from 4 1 b 0) as [vs| |]; simpl; [|done..]
  end.
  apply IH. rewrite Z.shiftr_div_pow2 by lia. change (2 ^ 1) with 2.
  rewrite Nat2Z.inj_succ, Z.pow_succ_r in Hflags by lia.
  split; [apply Z.div_pos; lia|]. apply Z.div_lt_upper_bound; lia.
Qed.

(** X23.  The loop over the flags ends: for flags below [2^(fuel + 1)]
    it takes at most [fuel] iterations, so at most 31 for the 32-bit field
    of the header. *)
Theorem strip_trailing_ends (fuel : nat) (flags : Z) (record : bytes) :
  0 ≤ flags < 2 ^ Z.of_nat (S fuel) →
  strip_trailing decodeVarint fuel flags record ≠ OutOfFuel.
Proof.
  intros Hflags. unfold strip_trailing.
  pose proof (strip_entries_ends fuel (flags ≫ 1) record) as Hends.
  destruct (strip_entries decodeVarint fuel (flags ≫ 1) record) as [r| |];
    simpl.
  - destruct (Z.land flags 1 =? 0); [done|].
    match goal with |- context [unpack_from 1 1 ?b 0] =>
      pose proof (unpack_from_raise 1 1 b 0) as Hvs;
      destruct (unpack_from 1 1 b 0) as [vs| |]; simpl; done
    end.
  - done.
  - apply Hends. rewrite Z.shiftr_div_pow2 by lia. change (2 ^ 1) with 2.
    rewrite Nat2Z.inj_succ, Z.pow_succ_r in Hflags by lia.
    split; [apply Z.div_pos; lia|]. apply Z.div_lt_upper_bound; lia.
Qed.

Lemma low_bits flags :
  Z.land flags 1 = flags mod 2 ∧ Z.land (flags ≫ 1) 1 = (flags / 2) mod 2
  ∧ Z.land flags 3 = flags mod 4.
Proof.
  rewrite Z.shiftr_div_pow2 by lia.
  change 1 with (Z.ones 1) at 1 3. change 3 with (Z.ones 2).
  by rewrite !Z.land_ones by lia.
Qed.

(** X24.  The loop stops at the first flag bit that is clear: when bits 0
    and 1 are clear the record is left as it is, whatever the higher bits
    say. *)
Theorem strip_trailing_untouched (fuel : nat) (flags : Z) (record : bytes) :
  Z.land flags 3 = 0 → strip_trailing decodeVarint fuel flags record = Ok record.
Proof.
  intros Hbits. destruct (low_bits flags) as (H0 & H1 & H3).
  rewrite H3 in Hbits.
  assert (Z.land (flags ≫ 1) 1 = 0) as Hone
    by (rewrite H1; Z.to_euclidean_division_equations; lia).
  assert (Z.land flags 1 = 0) as Hzero
    by (rewrite H0; Z.to_euclidean_division_equations; lia).
  unfold strip_trailing.
  assert (strip_entries decodeVarint fuel (flags ≫ 1) record = Ok record) as ->
    by (destruct fuel; simpl; by rewrite Hone).
  simpl. by rewrite Hzero.
Qed.

Lemma unpack_from_byte b : unpack_from 1 1 [b] 0 = Ok [ord b].
Proof.
  unfold unpack_from. simpl. unfold be_uint. simpl.
  by rewrite Z.lor_0_l.
Qed.

(** X25.  With bit 0 set and bit 1 clear, the last byte of the record
    says how many bytes go: itself and as many before it as its two low
    bits give.  An empty record raises [struct.error]. *)
Theorem strip_trailing_multibyte (fuel : nat) (flags : Z) (pre : bytes) (b : byte) :
  Z.land flags 3 = 1 →
  strip_trailing decodeVarint fuel flags (pre ++ [b])
  = Ok (take (length pre - Z.to_nat (Z.land (ord b) 3)) pre)
  ∧ strip_trailing decodeVarint fuel flags [] = Raise StructError.
Proof.
  intros Hbits. destruct (low_bits flags) as (H0 & H1 & H3).
  rewrite H3 in Hbits.
  assert (Z.land (flags ≫ 1) 1 = 0) as Hone
    by (rewrite H1; Z.to_euclidean_division_equations; lia).
  assert (Z.land flags 1 = 1) as Hzero
    by (rewrite H0; Z.to_euclidean_division_equations; lia).
  assert (∀ record,
            strip_entries decodeVarint fuel (flags ≫ 1) record = Ok record)
    as Hentries by (intros record; destruct fuel; simpl; by rewrite Hone).
  unfold strip_trailing. rewrite !Hentries. simpl. rewrite Hzero. simpl.
  split; [|done].
  assert (py_slice (pre ++ [b]) (-1) (py_len (pre ++ [b])) = [b]) as ->.
  { pose proof (py_len_nonneg pre). unfold py_slice, clamp.
    rewrite py_len_app. change (py_len [b]) with 1.
    rewrite (proj2 (Z.ltb_ge (py_len pre + 1) 0)) by lia. simpl.
    rewrite Z.max_l, Z.min_l by lia.
    replace (Z.to_nat (py_len pre + 1 + -1)) with (length pre)
      by (unfold py_len; lia).
    rewrite drop_app_length. apply take_ge. simpl. lia. }
  rewrite unpack_from_byte. simpl. f_equal.
  pose proof (land_ones_range (ord b) 2) as Hlow.
  change (Z.ones 2) with 3 in Hlow. change (2 ^ 2) with 4 in Hlow.
  rewrite py_slice_from_0. unfold clamp.
  rewrite (proj2 (Z.ltb_lt _ 0)) by lia.
  rewrite py_len_app. change (py_len [b]) with 1. unfold py_len.
  rewrite take_app_le by lia. f_equal. lia.
Qed.

End Trailing_entries.

Lemma strip_trailing_ends_witness :
  Mobi.strip_trailing (fun v => Z.land v 0x7F) 31 3 [x61; x00; x00; x00; x01]%byte
  ≠ OutOfFuel.
Proof.
  apply (strip_trailing_ends (fun v => Z.land v 0x7F) 31 3). by_eval.
Defined.

Lemma strip_trailing_untouched_witness :
  Mobi.strip_trailing (fun v => Z.land v 0x7F) 31 4 [x61; x62]%byte
  = Ok [x61; x62]%byte.
Proof.
  apply (strip_trailing_untouched (fun v => Z.land v 0x7F) 31 4). reflexivity.
Defined.

Lemma strip_trailing_multibyte_witness :
  Mobi.strip_trailing (fun v => Z.land v 0x7F) 31 1 (["a"; "b"; "c"]%byte ++ [x01]%byte)
  = Ok (take (length ["a"; "b"; "c"]%byte - Z.to_nat (Z.land (ord x01) 3))
          ["a"; "b"; "c"]%byte)
  ∧ Mobi.strip_trailing (fun v => Z.land v 0x7F) 31 1 [] = Raise StructError.
Proof.
  apply (strip_trailing_multibyte (fun v => Z.land v 0x7F) 31 1). reflexivity.
Defined.

(** X26.  The text and what follows it are the two parts of the joined
    records, whatever the text length says; the text is no longer than the
    header says. *)
Theorem split_text_parts (data : list bytes) (text_length : Z) :
  (Mobi.split_text data text_length).1 ++ (Mobi.split_text data text_length).2
  = mjoin data
  ∧ (0 ≤ text_length →
     py_len (Mobi.split_text data text_length).1
     = Z.min text_length (py_len (mjoin data))).
Proof.
  unfold Mobi.split_text. simpl. generalize (mjoin data). intros l.
  pose proof (py_len_nonneg l) as Hl. split.
  - rewrite py_slice_from_0. unfold py_slice.
    replace (clamp (py_len l) (py_len l)) with (py_len l)
      by (unfold clamp; rewrite (proj2 (Z.ltb_ge _ _)) by lia; lia).
    assert (0 ≤ clamp (py_len l) text_length ≤ py_len l) as Hc
      by (unfold clamp; case_match; lia).
    rewrite (take_ge (drop _ l)) by (rewrite length_drop; unfold py_len in *; lia).
    apply take_drop.
  - intros Hk. rewrite py_slice_from_0. unfold clamp.
    rewrite (proj2 (Z.ltb_ge _ _)) by lia. unfold py_len in *.
    rewrite length_take. lia.
Qed.

Lemma split_text_parts_witness :
  py_len (Mobi.split_text [["a"; "b"]; ["c"]]%byte 2).1
  = Z.min 2 (py_len (mjoin [["a"; "b"]; ["c"]]%byte)).
Proof.
  apply (proj2 (split_text_parts [["a"; "b"]; ["c"]]%byte 2)). lia.
Defined.

(** ** BookMobi: the type of an image record *)

Lemma imageExt_eq record :
  Mobi.imageExt record
  = if py_len record <? 4 then Raise StructError
    else
      let ident := be_uint (take 4 record) in
      if ident =? 0x47494638 then Ok Mobi.ext_gif
      else if ident =? 0x89504E47 then Ok Mobi.ext_png
      else if py_len record <? 10 then Raise StructError
      else if be_uint (take 4 (drop 6 record)) =? 0x4A464946
           then Ok Mobi.ext_jpg
           else Ok (Mobi.ext_ident (take 4 record)).
Proof.
  unfold Mobi.imageExt, Mobi.unpack_HHHL, Mobi.unpack_4s, unpack_from.
  change (1 <? 0) with false. change (0 <? 0) with false. cbv iota.
  rewrite !Z.sub_0_r. change (Z.of_nat 4 * 1) with 4. simpl orb.
  destruct (Z.ltb_spec (py_len record) 4); [done|]. simpl.
  destruct (_ =? 1195984440); [done|].
  destruct (_ =? 2303741511); [done|].
  destruct (Z.ltb_spec (py_len record) 10); [done|]. simpl.
  change (Z.to_nat 0) with 0%nat. by rewrite !drop_0.
Qed.

(** X27.  [imageExt] looks at the first ten bytes of the record only.  On
    a record of at least ten bytes it returns, and what follows the ten
    bytes does not matter; on a shorter record it recognises GIF and PNG
    and otherwise raises [struct.error]. *)
Theorem imageExt_first_ten (record : bytes) :
  (10 ≤ py_len record →
   ∃ e, Mobi.imageExt record = Ok e
     ∧ ∀ rest, Mobi.imageExt (record ++ rest) = Ok e)
  ∧ (py_len record < 10 →
     Mobi.imageExt record = Ok Mobi.ext_gif
     ∨ Mobi.imageExt record = Ok Mobi.ext_png
     ∨ Mobi.imageExt record = Raise StructError).
Proof.
  split; intros Hlen.
  - assert (∀ rest, Mobi.imageExt (record ++ rest) = Mobi.imageExt record)
      as Hrest.
    { intros rest. rewrite !imageExt_eq. rewrite py_len_app.
      pose proof (py_len_nonneg rest).
      rewrite !(proj2 (Z.ltb_ge (py_len record + py_len rest) _)) by lia.
      rewrite !(proj2 (Z.ltb_ge (py_len record) _)) by lia.
      unfold py_len in Hlen.
      rewrite (take_app_le record) by lia.
      rewrite drop_app_le by lia.
      rewrite (take_app_le (drop 6 record)) by (rewrite length_drop; lia).
      done. }
    assert (∃ e, Mobi.imageExt record = Ok e) as [e He].
    { rewrite imageExt_eq. rewrite !(proj2 (Z.ltb_ge (py_len record) _)) by lia.
      simpl. repeat case_match; by eexists. }
    exists e. split; [done|]. intros rest. by rewrite Hrest.
  - rewrite imageExt_eq. rewrite (proj2 (Z.ltb_lt (py_len record) 10)) by lia.
    simpl. repeat case_match; auto.
Qed.

Lemma imageExt_first_ten_witness :
  (∃ e, Mobi.imageExt (list_byte_of_string "ab4567JFIF") = Ok e
     ∧ ∀ rest, Mobi.imageExt (list_byte_of_string "ab4567JFIF" ++ rest) = Ok e)
  ∧ (Mobi.imageExt (list_byte_of_string "BM456789") = Ok Mobi.ext_gif
     ∨ Mobi.imageExt (list_byte_of_string "BM456789") = Ok Mobi.ext_png
     ∨ Mobi.imageExt (list_byte_of_string "BM456789") = Raise StructError).
Proof.
  split.
  - apply (proj1 (imageExt_first_ten (list_byte_of_string "ab4567JFIF"))).
    by_eval.
  - apply (proj2 (imageExt_first_ten (list_byte_of_string "BM456789"))).
    by_eval.
Defined.

(** A JPEG is known by the four bytes at offset 6; a record of fewer than
    ten bytes that is neither GIF nor PNG has no extension. *)
Example imageExt_samples :
  Mobi.imageExt (list_byte_of_string "ab4567JFIF") = Ok Mobi.ext_jpg
  ∧ Mobi.imageExt (list_byte_of_string "GIF8") = Ok Mobi.ext_gif
  ∧ Mobi.imageExt (list_byte_of_string "BM456789")
    = Raise StructError
  ∧ Mobi.imageExt (list_byte_of_string "BM4567890")
    = Raise StructError
  ∧ Mobi.imageExt (list_byte_of_string "BM45678901")
    = Ok (Mobi.ext_ident (list_byte_of_string "BM45")).
Proof. vm_compute. repeat split; reflexivity. Qed.
